(** * Musik streaming backend: payment client, search cache and CRUD handlers

    A shallow embedding of [src/services/zalopay.ts] and of the artist, search
    and song controllers, followed by the properties established about them.

    JavaScript values are embedded as the inductive type [JsVal]; request
    handlers are written in a state-and-exception monad over a [World] that
    holds the cache, the clock, the record store's answers and the log of
    every call made to a collaborator. *)

From Stdlib Require Import ZArith NArith Ascii String List Lia.
From stdpp Require Import base option list gmap strings pretty.

Set Warnings "-register-all".

Local Open Scope string_scope.
Local Open Scope Z_scope.
Local Open Scope list_scope.

(** ** JavaScript values *)

(** [JError m] is an [Error] object whose [message] is [m]; numbers are the
    integers (no handler below divides or produces a fraction). *)
Inductive JsVal : Type :=
| JUndefined
| JNull
| JBool (b : bool)
| JNum (n : Z)
| JStr (s : string)
| JArr (items : list JsVal)
| JObj (props : list (string * JsVal))
| JError (message : string).

(** [Boolean(v)], the test behind [if (v)], [v && e] and [filter(Boolean)]. *)
Definition truthy (v : JsVal) : bool :=
  match v with
  | JUndefined | JNull => false
  | JBool b => b
  | JNum n => negb (n =? 0)
  | JStr s => negb (String.eqb s "")
  | JArr _ | JObj _ | JError _ => true
  end.

(** Association-list lookup: the own property [k] of an object literal. *)
Fixpoint assoc (k : string) (props : list (string * JsVal)) : option JsVal :=
  match props with
  | [] => None
  | (k', v) :: rest => if String.eqb k k' then Some v else assoc k rest
  end.

(** [obj.k] (also [obj?.k] for a value that is not nullish). *)
Definition js_get (k : string) (v : JsVal) : JsVal :=
  match v with
  | JObj props => default JUndefined (assoc k props)
  | JError m => if String.eqb k "message" then JStr m else JUndefined
  | _ => JUndefined
  end.

(** [obj.k = v] on an object literal: replaces in place, or appends. *)
Fixpoint js_set (k : string) (v : JsVal) (props : list (string * JsVal))
  : list (string * JsVal) :=
  match props with
  | [] => [(k, v)]
  | (k', v') :: rest =>
      if String.eqb k k' then (k, v) :: rest else (k', v') :: js_set k v rest
  end.

Definition join (sep : string) (parts : list string) : string :=
  match parts with
  | [] => ""
  | p :: ps => fold_left (fun acc q => acc +:+ sep +:+ q) ps p
  end.

(** [String(v)], which is what a template literal applies to [${v}]. *)
Fixpoint js_to_string (v : JsVal) : string :=
  match v with
  | JUndefined => "undefined"
  | JNull => "null"
  | JBool b => if b then "true" else "false"
  | JNum n => pretty n
  | JStr s => s
  | JArr items =>
      join "," (map (fun x => match x with
                              | JUndefined | JNull => ""
                              | _ => js_to_string x
                              end) items)
  | JObj _ => "[object Object]"
  | JError m => "Error: " +:+ m
  end.

(** The own enumerable properties copied by [{...v}]. *)
Definition js_spread (v : JsVal) : list (string * JsVal) :=
  match v with
  | JObj props => props
  | JArr items => imap (fun i x => (pretty (N.of_nat i), x)) items
  | JStr s =>
      imap (fun i c => (pretty (N.of_nat i), JStr (String c "")))
           (list_ascii_of_string s)
  | _ => []
  end.

(** ** [JSON.stringify] *)

Definition dquote : ascii := ascii_of_nat 34.
Definition backslash : ascii := ascii_of_nat 92.

Definition hex_digit (n : N) : ascii :=
  match n with
  | 0 => "0" | 1 => "1" | 2 => "2" | 3 => "3" | 4 => "4" | 5 => "5"
  | 6 => "6" | 7 => "7" | 8 => "8" | 9 => "9" | 10 => "a" | 11 => "b"
  | 12 => "c" | 13 => "d" | 14 => "e" | _ => "f"
  end%char%N.

Definition json_escape_char (c : ascii) : string :=
  let n := N_of_ascii c in
  if Ascii.eqb c dquote then String backslash (String dquote "")
  else if Ascii.eqb c backslash then String backslash (String backslash "")
  else if (n =? 8)%N then String backslash "b"
  else if (n =? 9)%N then String backslash "t"
  else if (n =? 10)%N then String backslash "n"
  else if (n =? 12)%N then String backslash "f"
  else if (n =? 13)%N then String backslash "r"
  else if (n <? 32)%N then
    String backslash
      ("u00" +:+ String (hex_digit (n / 16)) (String (hex_digit (n mod 16)) ""))
  else String c "".

Fixpoint json_escape (s : string) : string :=
  match s with
  | EmptyString => ""
  | String c rest => json_escape_char c +:+ json_escape rest
  end.

Definition json_quote (s : string) : string :=
  String dquote (json_escape s +:+ String dquote "").

(** [None] is JavaScript's [undefined] result ([JSON.stringify(undefined)]);
    inside an array an [undefined] entry prints as [null], inside an object
    a property whose value is [undefined] is left out. *)
Fixpoint JSON_stringify (v : JsVal) : option string :=
  match v with
  | JUndefined => None
  | JNull => Some "null"
  | JBool b => Some (if b then "true" else "false")
  | JNum n => Some (pretty n)
  | JStr s => Some (json_quote s)
  | JArr items =>
      Some ("[" +:+ join "," (map (fun x => default "null" (JSON_stringify x)) items)
                +:+ "]")
  | JObj props =>
      Some ("{" +:+ join "," (omap (fun kv =>
                                     match JSON_stringify (snd kv) with
                                     | Some s => Some (json_quote (fst kv) +:+ ":" +:+ s)
                                     | None => None
                                     end) props)
                +:+ "}")
  | JError _ => Some "{}"
  end.

(** The value of the expression [JSON.stringify(v)]. *)
Definition JSON_stringify_value (v : JsVal) : JsVal :=
  match JSON_stringify v with
  | Some s => JStr s
  | None => JUndefined
  end.

(** ** Outcomes of calls that may throw (or of promises that may reject) *)

Inductive Outcome (A : Type) : Type :=
| Returned (a : A)
| Thrown (err : JsVal).
Arguments Returned {A} a.
Arguments Thrown {A} err.

(** ** String helpers used by the payment client *)

Fixpoint string_drop (n : nat) (s : string) : string :=
  match n, s with
  | O, _ => s
  | S n', String _ rest => string_drop n' rest
  | S _, EmptyString => ""
  end.

(** [s.slice(0, n)]: the first [n] characters. *)
Fixpoint string_take (n : nat) (s : string) : string :=
  match n, s with
  | S n', String c rest => String c (string_take n' rest)
  | _, _ => ""
  end.

(** [s.slice(-k)]: the last [k] characters, or all of [s] when it is shorter. *)
Definition slice_last (k : nat) (s : string) : string :=
  string_drop (String.length s - k) s.

Fixpoint string_repeat (c : ascii) (n : nat) : string :=
  match n with
  | O => ""
  | S n' => String c (string_repeat c n')
  end.

(** [s.padStart(n, c)] for a one-character pad string. *)
Definition padStart (n : nat) (c : ascii) (s : string) : string :=
  string_repeat c (n - String.length s) +:+ s.

Definition digit_of_ascii (c : ascii) : option N :=
  let n := N_of_ascii c in
  if ((48 <=? n) && (n <=? 57))%N then Some (n - 48)%N else None.

Definition is_digit (c : ascii) : bool :=
  match digit_of_ascii c with Some _ => true | None => false end.

Fixpoint parse_digits (s : string) (acc : N) : N :=
  match s with
  | EmptyString => acc
  | String c rest =>
      match digit_of_ascii c with
      | Some d => parse_digits rest (10 * acc + d)%N
      | None => acc
      end
  end.

(** [parseInt(s)] on unsigned decimal input (all that [Date.now().toString()]
    yields): the value of the leading run of digits, [None] for [NaN]. *)
Definition parseInt (s : string) : option N :=
  match s with
  | String c _ => if is_digit c then Some (parse_digits s 0%N) else None
  | EmptyString => None
  end.

(** ** Numbers of whole value

    A JavaScript number is an IEEE 754 double. The numbers the payment
    client computes with are prices, quantities and their sums: [Finite z]
    is the double whose value is the integer [z], and the other two
    constructors are [Infinity], [-Infinity] and [NaN]. *)
Inductive JsNumber : Type :=
| Finite (z : Z)
| Infinite (negative : bool)
| NotANumber.

(** The Number value of an integer: the double nearest to it, the one with
    the even significand when two are equally near, and an infinity from
    [2^1024 - 2^970] on. Every integer up to [2^53] is a double. *)
Definition Number_of (z : Z) : JsNumber :=
  let a := Z.abs z in
  if a <=? 2 ^ 53 then Finite z
  else
    let e := Z.log2 a - 52 in
    let q := a / 2 ^ e in
    let r := a mod 2 ^ e in
    let half := 2 ^ (e - 1) in
    let q := if r <? half then q
             else if half <? r then q + 1
             else if Z.even q then q else q + 1 in
    let m := q * 2 ^ e in
    if 2 ^ 1024 <=? m then Infinite (z <? 0) else Finite (Z.sgn z * m).

(** [x * y] and [x + y]: the exact result, rounded. *)
Definition js_mul (x y : JsNumber) : JsNumber :=
  match x, y with
  | NotANumber, _ | _, NotANumber => NotANumber
  | Finite a, Finite b => Number_of (a * b)
  | Finite a, Infinite s | Infinite s, Finite a =>
      if a =? 0 then NotANumber else Infinite (xorb s (a <? 0))
  | Infinite s, Infinite t => Infinite (xorb s t)
  end.

Definition js_add (x y : JsNumber) : JsNumber :=
  match x, y with
  | NotANumber, _ | _, NotANumber => NotANumber
  | Finite a, Finite b => Number_of (a + b)
  | Finite _, Infinite s | Infinite s, Finite _ => Infinite s
  | Infinite s, Infinite t => if Bool.eqb s t then Infinite s else NotANumber
  end.

(** Whether the integer [v] denotes the double of value [x]. *)
Definition rounds_to (v x : Z) : bool :=
  match Number_of v with
  | Finite y => y =? x
  | _ => false
  end.

(** The [k]-digit number [s] for which [s * 10^(n-k)] denotes [x], if there
    is one; of two, the one nearer to [x]. *)
Definition digits_candidate (x n k : Z) : option Z :=
  let p := 10 ^ (n - k) in
  let lo := x / p in
  let hi := lo + 1 in
  let fits s := (10 ^ (k - 1) <=? s) && (s <? 10 ^ k) && rounds_to (s * p) x in
  match fits lo, fits hi with
  | true, true => Some (if x - lo * p <=? hi * p - x then lo else hi)
  | true, false => Some lo
  | false, true => Some hi
  | false, false => None
  end.

(** The [s], [k] and [n] of [Number::toString] for a double of value
    [x > 2^53] with [n] decimal digits: the least number of digits [k] for
    which some [s * 10^(n-k)] denotes [x]. Seventeen digits always do. *)
Fixpoint shortest_digits (fuel : nat) (k x n : Z) : Z * Z * Z :=
  match fuel with
  | O => (x, n, n)
  | S fuel' =>
      match (if k <=? n then digits_candidate x n k else None) with
      | Some s => (s, k, n)
      | None =>
          if (k =? 1) && rounds_to (10 ^ n) x then (1, 1, n + 1)
          else shortest_digits fuel' (k + 1) x n
      end
  end.

(** [Number::toString] on a positive whole number. *)
Definition digits_of_Number (x : Z) : string :=
  if x <=? 2 ^ 53 then pretty x
  else
    let '(s, k, n) :=
      shortest_digits 17 1 x (Z.of_nat (String.length (pretty x))) in
    let ds := pretty s in
    if n <=? 21 then ds +:+ string_repeat "0" (Z.to_nat (n - k))
    else if k =? 1 then ds +:+ "e+" +:+ pretty (n - 1)
    else string_take 1 ds +:+ "." +:+ string_drop 1 ds +:+ "e+" +:+ pretty (n - 1).

(** [String(x)], which is also what [+] with a string makes of [x]. *)
Definition Number_toString (x : JsNumber) : string :=
  match x with
  | NotANumber => "NaN"
  | Infinite negative => if negative then "-Infinity" else "Infinity"
  | Finite z => if z <? 0 then "-" +:+ digits_of_Number (- z) else digits_of_Number z
  end.

(** ** The payment gateway client ([src/services/zalopay.ts]) *)

(** The three settings read from [@/env]. *)
Class Env := {
  ZALO_APP_ID : string;
  ZALO_KEY1 : string;
  ZALO_KEY2 : string
}.

(** What [createHmac("sha256", key).update(data).digest("hex")] does: it
    returns the lower-case hexadecimal digest, or throws an [Error] (Node's
    crypto module throws nothing else) with the given message. *)
Inductive HmacResult : Type :=
| Digest (hex : string)
| Raised (message : string).

(** Node's crypto module, as far as the client uses it. *)
Class Crypto := {
  createHmac_sha256_hex : string -> string -> HmacResult
}.

(** The two members of [OrderItem] that the client reads, and
    [JSON.stringify] on a list of items. *)
Class OrderItems (OrderItem : Type) := {
  itemprice : OrderItem -> Z;
  itemquantity : OrderItem -> Z;
  JSON_stringify_items : list OrderItem -> string
}.

(** ** HMAC-SHA256 (FIPS 180-4 and RFC 2104)

    What Node's crypto module computes for
    [createHmac("sha256", key).update(data).digest("hex")] when both
    arguments are strings. Words are 32-bit integers in [Z], reduced modulo
    [2^32] after every addition; bytes are integers below 256. *)
Module Sha256.

Definition wrap (x : Z) : Z := x mod 2 ^ 32.

Definition add32 (x y : Z) : Z := wrap (x + y).

Definition rotr (n x : Z) : Z :=
  wrap (Z.lor (Z.shiftr x n) (Z.shiftl x (32 - n))).

Definition not32 (x : Z) : Z := Z.lxor x 0xffffffff.

Definition Ch (x y z : Z) : Z := Z.lxor (Z.land x y) (Z.land (not32 x) z).

Definition Maj (x y z : Z) : Z :=
  Z.lxor (Z.lxor (Z.land x y) (Z.land x z)) (Z.land y z).

Definition Sigma0 (x : Z) : Z := Z.lxor (Z.lxor (rotr 2 x) (rotr 13 x)) (rotr 22 x).
Definition Sigma1 (x : Z) : Z := Z.lxor (Z.lxor (rotr 6 x) (rotr 11 x)) (rotr 25 x).
Definition sigma0 (x : Z) : Z := Z.lxor (Z.lxor (rotr 7 x) (rotr 18 x)) (Z.shiftr x 3).
Definition sigma1 (x : Z) : Z := Z.lxor (Z.lxor (rotr 17 x) (rotr 19 x)) (Z.shiftr x 10).

Definition is_prime (n : nat) : bool :=
  (1 <? n)%nat && forallb (fun d => negb (n mod d =? 0)%nat) (seq 2 (n - 2)).

(** The first sixty-four primes, 2 to 311. *)
Definition primes : list Z := map Z.of_nat (List.filter is_prime (seq 2 310)).

(** The largest [r] below [2 ^ bits] with [r ^ k <= n], found bit by bit
    from the top. *)
Fixpoint root_bits (k n : Z) (bits : nat) (r : Z) : Z :=
  match bits with
  | O => r
  | S b =>
      let r' := r + 2 ^ Z.of_nat b in
      root_bits k n b (if r' ^ k <=? n then r' else r)
  end.

(** The first 32 bits of the fractional part of the [k]-th root of [p]. *)
Definition root_fraction (k p : Z) : Z :=
  wrap (root_bits k (p * 2 ^ (32 * k)) 40 0).

(** The round constants: from the cube roots of the first 64 primes. *)
Definition K : list Z := Eval vm_compute in map (root_fraction 3) primes.

(** The initial hash value: from the square roots of the first 8 primes. *)
Definition H0 : list Z := Eval vm_compute in map (root_fraction 2) (firstn 8 primes).

Definition bytes_of_string (s : string) : list Z :=
  map (fun c => Z.of_N (N_of_ascii c)) (list_ascii_of_string s).

(** The big-endian bytes of [x], [n] of them. *)
Fixpoint be_bytes (n : nat) (x : Z) : list Z :=
  match n with
  | O => []
  | S n' => (Z.shiftr x (8 * Z.of_nat n')) mod 256 :: be_bytes n' x
  end.

(** The message, a [1] bit, zero bits up to 56 modulo 64 bytes, and the
    length in bits as a 64-bit integer. *)
Definition pad (msg : list Z) : list Z :=
  let len := Z.of_nat (length msg) in
  let zeros := Z.to_nat ((55 - len) mod 64) in
  (msg ++ [0x80] ++ repeat 0 zeros ++ be_bytes 8 (8 * len))%list.

Fixpoint words_of_bytes (n : nat) (bytes : list Z) : list Z :=
  match n with
  | O => []
  | S n' =>
      match bytes with
      | b0 :: b1 :: b2 :: b3 :: rest =>
          (Z.shiftl b0 24 + Z.shiftl b1 16 + Z.shiftl b2 8 + b3)
          :: words_of_bytes n' rest
      | _ => []
      end
  end.

(** The message schedule, most recent word first: [extend n w] adds [n]
    words to the schedule [w]. *)
Fixpoint extend (n : nat) (w : list Z) : list Z :=
  match n with
  | O => w
  | S n' =>
      let next :=
        add32 (add32 (sigma1 (nth 1 w 0)) (nth 6 w 0))
              (add32 (sigma0 (nth 14 w 0)) (nth 15 w 0)) in
      extend n' (next :: w)
  end.

Definition schedule (block : list Z) : list Z :=
  rev (extend 48 (rev (words_of_bytes 16 block))).

Record Regs := { ra : Z; rb : Z; rc : Z; rd : Z; re : Z; rf : Z; rg : Z; rh : Z }.

Definition round (s : Regs) (kw : Z * Z) : Regs :=
  let t1 := add32 (add32 (add32 (rh s) (Sigma1 (re s)))
                         (add32 (Ch (re s) (rf s) (rg s)) (fst kw)))
                  (snd kw) in
  let t2 := add32 (Sigma0 (ra s)) (Maj (ra s) (rb s) (rc s)) in
  {| ra := add32 t1 t2; rb := ra s; rc := rb s; rd := rc s;
     re := add32 (rd s) t1; rf := re s; rg := rf s; rh := rg s |}.

Definition regs_of (h : list Z) : Regs :=
  {| ra := nth 0 h 0; rb := nth 1 h 0; rc := nth 2 h 0; rd := nth 3 h 0;
     re := nth 4 h 0; rf := nth 5 h 0; rg := nth 6 h 0; rh := nth 7 h 0 |}.

Definition list_of (s : Regs) : list Z :=
  [ra s; rb s; rc s; rd s; re s; rf s; rg s; rh s].

Definition compress (h : list Z) (block : list Z) : list Z :=
  let s := fold_left round (combine K (schedule block)) (regs_of h) in
  map (fun p => add32 (fst p) (snd p)) (combine h (list_of s)).

(** Runs the compression function over [n] consecutive 64-byte blocks. *)
Fixpoint blocks (n : nat) (h : list Z) (bytes : list Z) : list Z :=
  match n with
  | O => h
  | S n' => blocks n' (compress h (firstn 64 bytes)) (skipn 64 bytes)
  end.

Definition sha256 (msg : list Z) : list Z :=
  let padded := pad msg in
  concat (map (be_bytes 4) (blocks (length padded / 64) H0 padded)).

Definition xor_with (c : Z) (bytes : list Z) : list Z :=
  map (fun b => Z.lxor b c) bytes.

Definition hmac (key msg : list Z) : list Z :=
  let key := if (64 <? length key)%nat then sha256 key else key in
  let key := (key ++ repeat 0 (64 - length key))%list in
  sha256 (xor_with 0x5c key ++ sha256 (xor_with 0x36 key ++ msg))%list.

Definition hex_of_byte (b : Z) : string :=
  String (hex_digit (Z.to_N (b / 16))) (String (hex_digit (Z.to_N (b mod 16))) "").

Definition hex (bytes : list Z) : string :=
  fold_right (fun b acc => hex_of_byte b +:+ acc) "" bytes.

Definition hmac_hex (key data : string) : string :=
  hex (hmac (bytes_of_string key) (bytes_of_string data)).

End Sha256.

(** Node's crypto module on string arguments: the digest, never an
    exception. *)
Definition node_crypto : Crypto :=
  {| createHmac_sha256_hex := fun key data => Digest (Sha256.hmac_hex key data) |}.

Record ZaloClient := {
  app_id : string;
  key1 : string;
  key2 : string;
  embed_data : JsVal
}.

Record ZaloPay := {
  client : ZaloClient;
  orderID : N
}.

Record ZaloResult := {
  return_code : Z;
  return_message : JsVal
}.

Record ZaloOrder := {
  order_app_id : string;
  order_app_trans_id : string;
  order_app_user : string;
  order_app_time : N;
  order_item : string;
  order_embed_data : string;
  order_amount : JsNumber;
  order_description : string;
  order_bank_code : string;
  order_mac : string
}.

(** The calendar fields of a [Date], as its getters return them
    ([getMonth] counts from 0). *)
Record JsDate := {
  getFullYear : N;
  getMonth : N;
  getDate : N
}.

(** What one call of [createOrder] observes of its surroundings: the value of
    [new Date()], the value of [Date.now()], and how [axios.post] on the
    gateway URL settles (with [res.data], or with a rejection). *)
Record PayEnv := {
  new_Date : JsDate;
  Date_now : N;
  axios_post : string -> ZaloOrder -> Outcome JsVal
}.

(** [constructor()]; [now] is [Date.now()] when the module is loaded. A
    [NaN] from [parseInt] cannot be stored in [N]; [seed_is_last_six_digits]
    shows that the case does not arise. *)
Definition new_ZaloPay `{Env} (now : N) : ZaloPay :=
  {| client := {| app_id := ZALO_APP_ID;
                  key1 := ZALO_KEY1;
                  key2 := ZALO_KEY2;
                  embed_data :=
                    JObj [("redirectUrl", JStr "https://open.hustmusik.live")] |};
     orderID := default 0%N (parseInt (slice_last 6 (pretty now))) |}.

(** The date prefix of a transaction id: two-digit year, month and day. *)
Definition date_prefix (date : JsDate) : string :=
  slice_last 2 (pretty (getFullYear date))
  +:+ padStart 2 "0" (pretty (getMonth date + 1)%N)
  +:+ padStart 2 "0" (pretty (getDate date)).

(** [items.reduce((acc, item) => acc + item.itemprice * item.itemquantity, 0)];
    the two members are read as the Number values of what the item gives. *)
Definition order_amount_of `{OrderItems OrderItem} (items : list OrderItem)
  : JsNumber :=
  fold_left (fun acc item =>
               js_add acc (js_mul (Number_of (itemprice item))
                                  (Number_of (itemquantity item))))
            items (Finite 0).

Definition create_url : string := "https://sb-openapi.zalopay.vn/v2/create".

(** [createOrder(user_id, items)]: the new state of the client and the value
    the returned promise settles with. The counter is stepped first; an
    exception from hashing or a rejection of the request leaves through
    [Thrown] with the state as it is at that point. *)
Definition createOrder `{Crypto} `{OrderItems OrderItem}
    (this : ZaloPay) (env : PayEnv) (user_id : string) (items : list OrderItem)
  : ZaloPay * Outcome JsVal :=
  let this := {| client := client this; orderID := (orderID this + 1)%N |} in
  let date := new_Date env in
  let app_trans_id := date_prefix date +:+ "_" +:+ pretty (orderID this) in
  let app_user := user_id in
  let app_time := Date_now env in
  let item := JSON_stringify_items items in
  let embed := default "undefined" (JSON_stringify (embed_data (client this))) in
  let amount := order_amount_of items in
  let description :=
    "Hust Musik Premium - Payment for order " +:+ pretty (orderID this) in
  let data :=
    app_id (client this) +:+ "|" +:+ app_trans_id +:+ "|" +:+ app_user +:+ "|"
    +:+ Number_toString amount +:+ "|" +:+ pretty app_time +:+ "|" +:+ embed +:+ "|"
    +:+ item in
  match createHmac_sha256_hex (key1 (client this)) data with
  | Raised message => (this, Thrown (JError message))
  | Digest mac =>
      let order :=
        {| order_app_id := app_id (client this);
           order_app_trans_id := app_trans_id;
           order_app_user := app_user;
           order_app_time := app_time;
           order_item := item;
           order_embed_data := embed;
           order_amount := amount;
           order_description := description;
           order_bank_code := "zalopayapp";
           order_mac := mac |} in
      match axios_post env create_url order with
      | Thrown err => (this, Thrown err)
      | Returned res_data =>
          (this,
           Returned (JObj (js_set "app_trans_id" (JStr app_trans_id)
                                  (js_spread res_data))))
      end
  end.

(** [receiveOrderCallback(dataStr, reqMac)]. The [try] block covers the
    hashing and the comparison; the [catch] block turns whatever was thrown
    into a result. The function has no [throw] of its own, so its outcome
    type records that an exception could only come from the hashing. *)
Definition receiveOrderCallback `{Crypto}
    (this : ZaloPay) (dataStr reqMac : string) : Outcome ZaloResult :=
  match createHmac_sha256_hex (key2 (client this)) dataStr with
  | Digest mac =>
      if negb (String.eqb reqMac mac)
      then Returned {| return_code := -1; return_message := JStr "mac not equal" |}
      else Returned {| return_code := 1; return_message := JStr "success" |}
  | Raised message =>
      let err := JError message in
      Returned {| return_code := 0; return_message := js_get "message" err |}
  end.

(** ** Collaborators of the request handlers *)

(** A query built with the record store's client: [from(table)], the verb,
    the filters in the order they are chained, [range], [single], and the
    [select] that may follow an insert or a delete. *)
Inductive Filter : Type :=
| TextSearch (column term : string)
| IsIn (column : string) (values : list string)
| IsEq (column value : string)
| Matches (query : list (string * JsVal)).

Inductive Verb : Type :=
| Select (columns : option string)
| Insert (row : gmap string JsVal)
| Update (values : gmap string JsVal)
| Delete.

Record StoreQuery := {
  q_from : string;
  q_verb : Verb;
  q_filters : list Filter;
  q_range : option (Z * Z);
  q_returning : option string;
  q_single : bool
}.

(** The [{ data, error }] pair a query resolves with. *)
Record QueryResult := {
  data : JsVal;
  error : JsVal
}.

(** Every call a handler makes to a collaborator, in the order made. *)
Inductive Event : Type :=
| RedisGet (key : string)
| RedisSet (key : string) (value : JsVal) (ex : N)
| StoreCall (q : StoreQuery)
| CloudinaryUpload (file : string) (folder : string) (id : JsVal)
| CloudinaryDelete (folder : string) (public_id : string)
| BackblazeDeleteObject (key : string)
| BackblazePresignDownload (fileName : string) (expires : N)
| BackblazePresignUpload (fileName : string) (expires : N).

(** Modelled from the spec: the Cache Client ([@/services/redis]) is a
    key-value store with [get] and [set] with expiry; a value written with
    [ex] seconds is read back verbatim until that many seconds have passed
    and reads as [null] afterwards, as an absent key does. [redis_get_fault]
    and [redis_set_fault] are the errors the two calls fail with while the
    cache store cannot be reached. The remaining fields are the answers of
    the record store, the blob store and the asset service, and the log. *)
Record World := {
  redis : gmap string (JsVal * N);
  clock : N;
  redis_get_fault : option JsVal;
  redis_set_fault : option JsVal;
  supabase : StoreQuery -> Outcome QueryResult;
  backblaze_delete : string -> Outcome unit;
  backblaze_presign : string -> N -> Outcome string;
  cloudinary_call : Outcome unit;
  log : list Event
}.

Definition with_log (w : World) (l : list Event) : World :=
  {| redis := redis w; clock := clock w;
     redis_get_fault := redis_get_fault w; redis_set_fault := redis_set_fault w;
     supabase := supabase w; backblaze_delete := backblaze_delete w;
     backblaze_presign := backblaze_presign w;
     cloudinary_call := cloudinary_call w; log := l |}.

Definition with_redis (w : World) (r : gmap string (JsVal * N)) : World :=
  {| redis := r; clock := clock w;
     redis_get_fault := redis_get_fault w; redis_set_fault := redis_set_fault w;
     supabase := supabase w; backblaze_delete := backblaze_delete w;
     backblaze_presign := backblaze_presign w;
     cloudinary_call := cloudinary_call w; log := log w |}.

Definition record (e : Event) (w : World) : World := with_log w (log w ++ [e]).

(** ** The handler monad: state passing over [World], with exceptions *)

Definition M (A : Type) : Type := World -> Outcome A * World.

Definition ret {A} (a : A) : M A := fun w => (Returned a, w).

Definition throw {A} (err : JsVal) : M A := fun w => (Thrown err, w).

Definition bind {A B} (m : M A) (k : A -> M B) : M B :=
  fun w =>
    match m w with
    | (Returned a, w') => k a w'
    | (Thrown err, w') => (Thrown err, w')
    end.

Notation "'let*' x ':=' m 'in' k" := (bind m (fun x => k))
  (at level 10, x name, m at level 100, k at level 200).
Notation "m ';;' k" := (bind m (fun _ => k))
  (at level 100, k at level 200, right associativity).

(** [try { body } catch (err) { handler }]. *)
Definition try_catch {A} (body : M A) (handler : JsVal -> M A) : M A :=
  fun w =>
    match body w with
    | (Returned a, w') => (Returned a, w')
    | (Thrown err, w') => handler err w'
    end.

(** A call whose promise is not awaited: its effect happens, and whether it
    resolves or rejects is not observed by the caller. *)
Definition detach {A} (m : M A) : M unit :=
  fun w => (Returned tt, snd (m w)).

(** Runs a promise to completion and hands back how it settled. *)
Definition settle {A} (m : M A) : M (Outcome A) :=
  fun w => (Returned (fst (m w)), snd (m w)).

Fixpoint settle_all {A} (ps : list (M A)) : M (list (Outcome A)) :=
  match ps with
  | [] => ret []
  | p :: rest =>
      let* o := settle p in
      let* os := settle_all rest in
      ret (o :: os)
  end.

Fixpoint all_returned {A} (os : list (Outcome A)) : Outcome (list A) :=
  match os with
  | [] => Returned []
  | Thrown err :: _ => Thrown err
  | Returned a :: rest =>
      match all_returned rest with
      | Returned l => Returned (a :: l)
      | Thrown err => Thrown err
      end
  end.

(** [await Promise.all(ps)]: every promise of the list is started, in list
    order; the result is the list of their values, or the rejection of the
    first one in the list that rejected. *)
Definition Promise_all {A} (ps : list (M A)) : M (list A) :=
  let* os := settle_all ps in
  match all_returned os with
  | Returned l => ret l
  | Thrown err => throw err
  end.

(** [obj.k] where [obj] may be [null] or [undefined], on which it throws. *)
Definition member (k : string) (v : JsVal) : M JsVal :=
  match v with
  | JUndefined | JNull =>
      throw (JError ("Cannot read properties of " +:+ js_to_string v
                     +:+ " (reading '" +:+ k +:+ "')"))
  | _ => ret (js_get k v)
  end.

(** *** The calls themselves *)

Definition cache_read (w : World) (key : string) : JsVal :=
  match redis w !! key with
  | Some (value, expires_at) => if (clock w <? expires_at)%N then value else JNull
  | None => JNull
  end.

Definition redis_get (key : string) : M JsVal :=
  fun w =>
    let w := record (RedisGet key) w in
    match redis_get_fault w with
    | Some err => (Thrown err, w)
    | None => (Returned (cache_read w key), w)
    end.

Definition redis_set (key : string) (value : JsVal) (ex : N) : M unit :=
  fun w =>
    let w := record (RedisSet key value ex) w in
    match redis_set_fault w with
    | Some err => (Thrown err, w)
    | None => (Returned tt, with_redis w (<[key := (value, (clock w + ex)%N)]> (redis w)))
    end.

Definition supabase_run (q : StoreQuery) : M QueryResult :=
  fun w => (supabase w q, record (StoreCall q) w).

Definition cloudinary_upload (file folder : string) (id : JsVal) : M unit :=
  fun w => (cloudinary_call w, record (CloudinaryUpload file folder id) w).

Definition cloudinary_delete (folder public_id : string) : M unit :=
  fun w => (cloudinary_call w, record (CloudinaryDelete folder public_id) w).

Definition backblaze_deleteObject (key : string) : M unit :=
  fun w => (backblaze_delete w key, record (BackblazeDeleteObject key) w).

Definition backblaze_generatePresignedDownloadURL (fileName : string) (expires : N)
  : M string :=
  fun w => (backblaze_presign w fileName expires,
            record (BackblazePresignDownload fileName expires) w).

Definition backblaze_generatePresignedUploadURL (fileName : string) (expires : N)
  : M string :=
  fun w => (backblaze_presign w fileName expires,
            record (BackblazePresignUpload fileName expires) w).

(** ** Requests and responses *)

(** [params_id] and [params_term] are the route parameters [:id] and
    [:term]; [query_page] and [query_limit] are [Number(req.query.page)] and
    [Number(req.query.limit)], with [None] for [NaN] (which an absent or
    non-numeric parameter gives); [file] is the uploaded attachment. *)
Record Request := {
  params_id : string;
  params_term : string;
  query_page : option Z;
  query_limit : option Z;
  authorization : option string;
  body : gmap string JsVal;
  file : option string
}.

(** [res.status(status).json(json)]. *)
Record Response := {
  status : Z;
  json : JsVal
}.

(** [utils.enforceRole], the role resolver. *)
Class Utils := {
  enforceRole : option string -> string
}.

(** [n || d] on a number: [d] replaces [NaN] and [0]. *)
Definition number_or (n : option Z) (d : Z) : Z :=
  match n with
  | Some n => if n =? 0 then d else n
  | None => d
  end.

(** [const { k } = req.body]. *)
Definition field (req : Request) (k : string) : JsVal :=
  default JUndefined (body req !! k).

(** [{ ...rest, ...(v && { k: v }) }]: [v && { k: v }] is the one-property
    object when [v] is truthy and [v] itself otherwise, and spreading a falsy
    value copies nothing. *)
Definition spread_if (k : string) (v : JsVal) (rest : gmap string JsVal)
  : gmap string JsVal :=
  if truthy v then <[k := v]> rest else rest.

Definition respond (code : Z) (payload : JsVal) : M Response :=
  ret {| status := code; json := payload |}.

Definition is_admin (role : string) : bool := String.eqb role "Admin".

Definition select_from (table : string) (columns : option string)
    (filters : list Filter) (range : option (Z * Z)) (single : bool) : StoreQuery :=
  {| q_from := table; q_verb := Select columns; q_filters := filters;
     q_range := range; q_returning := None; q_single := single |}.

Definition error_body (message : JsVal) : JsVal := JObj [("error", message)].
Definition message_body (message : string) : JsVal := JObj [("message", JStr message)].
Definition data_body (d : JsVal) : JsVal := JObj [("data", d)].

(** ** The artist controller *)

Definition getAllArtists (req : Request) : M Response :=
  let page := number_or (query_page req) 1 in
  let limit := number_or (query_limit req) 10 in
  let* r := supabase_run
              (select_from "artists" (Some "id, name, avatarurl") []
                           (Some ((page - 1) * limit, page * limit - 1)) false) in
  if truthy (error r) then respond 500 (error_body (js_get "message" (error r)))
  else respond 200 (data_body (data r)).

Definition getArtistByID (req : Request) : M Response :=
  let* r := supabase_run
              (select_from "artists" None [IsEq "id" (params_id req)] None false) in
  if truthy (error r) then respond 500 (error_body (js_get "message" (error r)))
  else respond 200 (data_body (data r)).

(** The object [response] that [updateArtist] and [addArtist] build: [name]
    is always a property of it, the other three only when truthy. *)
Definition artist_payload (req : Request) : gmap string JsVal :=
  let name := field req "name" in
  let description := field req "description" in
  let avatarurl := field req "avatarurl" in
  let country := field req "country" in
  spread_if "country" country
    (spread_if "avatarurl" avatarurl
       (spread_if "description" description
          (<["name" := name]> ∅))).

Definition updateArtist (req : Request) : M Response :=
  let id := params_id req in
  let response := artist_payload req in
  let* r := supabase_run
              {| q_from := "artists"; q_verb := Update response;
                 q_filters := [IsEq "id" id]; q_range := None;
                 q_returning := None; q_single := false |} in
  if truthy (error r) then respond 500 (error_body (js_get "message" (error r)))
  else
    match file req with
    | Some f => detach (cloudinary_upload f "artists" (JStr id))
    | None => ret tt
    end;;
    respond 200 (message_body ("Artist " +:+ id +:+ " updated successfully")).

Definition addArtist (req : Request) : M Response :=
  let name := field req "name" in
  if negb (truthy name) then
    respond 400 (error_body (JStr "Payload must have field: name"))
  else
    let response := artist_payload req in
    let* r := supabase_run
                {| q_from := "artists"; q_verb := Insert response;
                   q_filters := []; q_range := None;
                   q_returning := Some "id"; q_single := true |} in
    if truthy (error r) then respond 500 (error_body (js_get "message" (error r)))
    else
      match file req with
      | Some f =>
          let* id := member "id" (data r) in
          detach (cloudinary_upload f "artists" id)
      | None => ret tt
      end;;
      respond 201 (message_body ("Artist " +:+ js_to_string name +:+ " created")).

Definition deleteArtist (req : Request) : M Response :=
  let id := params_id req in
  let* r := supabase_run
              {| q_from := "artists"; q_verb := Delete;
                 q_filters := [IsEq "id" id]; q_range := None;
                 q_returning := None; q_single := true |} in
  if truthy (error r) then respond 500 (error_body (js_get "message" (error r)))
  else
    detach (cloudinary_delete "artists" ("i-" +:+ id));;
    respond 200 (message_body ("Artist " +:+ id +:+ " deleted")).

(** ** The search controller *)

Definition undefined_result : QueryResult :=
  {| data := JUndefined; error := JUndefined |}.

Definition songs_columns : string := "id, title, thumbnailurl, duration".
Definition artists_columns : string := "id, name, avatarurl".
Definition playlists_columns : string :=
  "id, title, thumbnailurl, user: profiles (username)".
Definition profiles_columns : string := "id, username, avatarurl".

Definition songs_query (term : string) (range : Z * Z) : StoreQuery :=
  select_from "songs" (Some songs_columns) [TextSearch "title" term]
              (Some range) false.

Definition artists_query (term : string) (range : Z * Z) : StoreQuery :=
  select_from "artists" (Some artists_columns) [TextSearch "name" term]
              (Some range) false.

Definition albums_query (term : string) (range : Z * Z) : StoreQuery :=
  select_from "playlists" (Some playlists_columns)
              [IsIn "type" ["Album"; "EP"; "Single"]; TextSearch "title" term]
              (Some range) false.

Definition playlists_query (term : string) (range : Z * Z) : StoreQuery :=
  select_from "playlists" (Some playlists_columns)
              [IsEq "type" "Playlist"; TextSearch "title" term]
              (Some range) false.

Definition users_query (term : string) (range : Z * Z) : StoreQuery :=
  select_from "profiles" (Some profiles_columns) [TextSearch "username" term]
              (Some range) false.

(** The five queries of the default search, in the order of the array handed
    to [Promise.all]. *)
Definition default_queries (term : string) : list StoreQuery :=
  [ songs_query term (0, 19);
    artists_query term (0, 29);
    albums_query term (0, 29);
    playlists_query term (0, 29);
    users_query term (0, 29) ].

Definition searchDefault `{Utils} (req : Request) : M Response :=
  let term := params_term req in
  let key := "searches?term=" +:+ term in
  let role := enforceRole (authorization req) in
  let on_miss : M Response :=
    try_catch
      (let* results := Promise_all (map supabase_run (default_queries term)) in
       let r i := nth i results undefined_result in
       let songs := data (r 0%nat) in
       let artists := data (r 1%nat) in
       let albums := data (r 2%nat) in
       let playlists := data (r 3%nat) in
       let users := data (r 4%nat) in
       let errors :=
         List.filter truthy
           [error (r 0%nat); error (r 1%nat); error (r 2%nat);
            error (r 3%nat); error (r 4%nat)] in
       if negb (length errors =? 0)%nat then
         respond 500 (error_body (JArr (map (js_get "message") errors)))
       else
         let payload :=
           data_body (JObj [("songs", songs); ("artists", artists);
                            ("albums", albums); ("playlists", playlists);
                            ("users", users)]) in
         (if negb (is_admin role) then detach (redis_set key payload 300)
          else ret tt);;
         respond 200 payload)
      (fun err => respond 500 (error_body err)) in
  if negb (is_admin role) then
    let* cache := redis_get key in
    if truthy cache then respond 200 cache else on_miss
  else on_miss.

(** The five per-category handlers are the same text up to the category
    name in the cache key, the default limit and the query; [search_category]
    is that text. What is written to the cache is [data]; what is answered on
    a miss is [{ data }]. *)
Definition search_category `{Utils} (category : string) (default_limit : Z)
    (query : string -> Z * Z -> StoreQuery) (req : Request) : M Response :=
  let term := params_term req in
  let page := number_or (query_page req) 1 in
  let limit := number_or (query_limit req) default_limit in
  let key := "searches?cat=" +:+ category +:+ "&term=" +:+ term
             +:+ "&page=" +:+ pretty page +:+ "&limit=" +:+ pretty limit in
  let role := enforceRole (authorization req) in
  let on_miss : M Response :=
    let* r := supabase_run (query term ((page - 1) * limit, page * limit - 1)) in
    if truthy (error r) then respond 500 (error_body (js_get "message" (error r)))
    else
      (if negb (is_admin role) then detach (redis_set key (data r) 300)
       else ret tt);;
      respond 200 (data_body (data r)) in
  if negb (is_admin role) then
    let* cache := redis_get key in
    if truthy cache then respond 200 cache else on_miss
  else on_miss.

Definition searchSongs `{Utils} : Request -> M Response :=
  search_category "songs" 20 songs_query.

Definition searchArtists `{Utils} : Request -> M Response :=
  search_category "artists" 30 artists_query.

Definition searchUsers `{Utils} : Request -> M Response :=
  search_category "users" 30 users_query.

Definition searchPlaylists `{Utils} : Request -> M Response :=
  search_category "playlists" 30 playlists_query.

Definition searchAlbums `{Utils} : Request -> M Response :=
  search_category "albums" 30 albums_query.

(** ** The song controller *)

Definition getAllSongs (req : Request) : M Response :=
  let page := number_or (query_page req) 1 in
  let limit := number_or (query_limit req) 10 in
  let key := "songs?page=" +:+ pretty page +:+ "&limit=" +:+ pretty limit in
  let* cache := redis_get key in
  if truthy cache then respond 200 cache
  else
    let* r := supabase_run
                (select_from "songs" None []
                             (Some ((page - 1) * limit, page * limit - 1)) false) in
    if truthy (error r) then respond 500 (error_body (js_get "message" (error r)))
    else
      detach (redis_set key (JSON_stringify_value (data r)) 300);;
      respond 200 (data_body (data r)).

Definition getSongByID (req : Request) : M Response :=
  let key := "songs?id=" +:+ params_id req in
  let* cache := redis_get key in
  if truthy cache then respond 200 cache
  else
    let* r := supabase_run
                (select_from "songs" None [IsEq "id" (params_id req)] None true) in
    if truthy (error r) then respond 500 (error_body (js_get "message" (error r)))
    else
      detach (redis_set key (JSON_stringify_value (data r)) 300);;
      respond 200 (data_body (data r)).

(** The lookup of a song's Primary link with the artist's name and the
    song's title joined in. *)
Definition primary_link_query (id : string) : StoreQuery :=
  select_from "artistssongs" (Some "artist: artists (name), song: songs (title)")
              [Matches [("relation", JStr "Primary"); ("songid", JStr id)]]
              None true.

(** The object key [`${data.artist.name}/${data.song.title}.mp3`]. *)
Definition object_key (artist_name song_title : JsVal) : string :=
  js_to_string artist_name +:+ "/" +:+ js_to_string song_title +:+ ".mp3".

Definition presigned_url
    (sign : string -> N -> M string) (expires : N) (req : Request) : M Response :=
  let id := params_id req in
  let* r := supabase_run (primary_link_query id) in
  if truthy (error r) then respond 500 (error_body (js_get "message" (error r)))
  else
    let* song := member "song" (data r) in
    let* artist := member "artist" (data r) in
    if negb (truthy song) || negb (truthy artist) then
      respond 404 (error_body (JStr "Artist or Song does not exist"))
    else
      let fileName := object_key (js_get "name" artist) (js_get "title" song) in
      try_catch
        (let* url := sign fileName expires in
         respond 200 (JObj [("url", JStr url)]))
        (fun err =>
           respond 500 (error_body
                          (JStr ("Error generating pre-signed URL: "
                                 +:+ js_to_string err)))).

Definition generatePresignedDownloadURL : Request -> M Response :=
  presigned_url backblaze_generatePresignedDownloadURL 1800.

Definition generatePresignedUploadURL : Request -> M Response :=
  presigned_url backblaze_generatePresignedUploadURL 900.

(** The object [response] of [updateSong]: each of the seven fields only
    when truthy. *)
Definition song_update_payload (req : Request) : gmap string JsVal :=
  let title := field req "title" in
  let description := field req "description" in
  let thumbnailurl := field req "thumbnailurl" in
  let duration := field req "duration" in
  let releasedate := field req "releasedate" in
  let genre := field req "genre" in
  let views := field req "views" in
  spread_if "views" views
    (spread_if "genre" genre
       (spread_if "releasedate" releasedate
          (spread_if "duration" duration
             (spread_if "thumbnailurl" thumbnailurl
                (spread_if "description" description
                   (spread_if "title" title ∅)))))).

Definition updateSong (req : Request) : M Response :=
  let id := params_id req in
  let response := song_update_payload req in
  let* r := supabase_run
              {| q_from := "songs"; q_verb := Update response;
                 q_filters := [IsEq "id" id]; q_range := None;
                 q_returning := None; q_single := false |} in
  if truthy (error r) then respond 500 (error_body (js_get "message" (error r)))
  else
    match file req with
    | Some f => detach (cloudinary_upload f "songs" (JStr id))
    | None => ret tt
    end;;
    respond 200 (message_body ("Song " +:+ id +:+ " updated successfully")).

(** The object [response] of [addSong]. *)
Definition song_insert_payload (req : Request) : gmap string JsVal :=
  let title := field req "title" in
  let description := field req "description" in
  let thumbnailurl := field req "thumbnailurl" in
  let duration := field req "duration" in
  let releasedate := field req "releasedate" in
  let genre := field req "genre" in
  spread_if "genre" genre
    (spread_if "releasedate" releasedate
       (spread_if "duration" duration
          (spread_if "thumbnailurl" thumbnailurl
             (spread_if "description" description
                (<["title" := title]> ∅))))).

(** The row of [artistssongs] inserted for the artist at position [index]. *)
Definition link_row (songid : JsVal) (index : nat) (artistid : JsVal)
  : gmap string JsVal :=
  <["relation" := JStr (if (index =? 0)%nat then "Primary" else "Featured")]>
    (<["artistid" := artistid]> (<["songid" := songid]> ∅)).

Definition link_insert (row : gmap string JsVal) : StoreQuery :=
  {| q_from := "artistssongs"; q_verb := Insert row; q_filters := [];
     q_range := None; q_returning := None; q_single := false |}.

Definition addSong (req : Request) : M Response :=
  let title := field req "title" in
  let artists := field req "artists" in
  if negb (truthy title) then
    respond 400 (error_body (JStr "Payload must have field: title"))
  else
    let response := song_insert_payload req in
    let* r := supabase_run
                {| q_from := "songs"; q_verb := Insert response;
                   q_filters := []; q_range := None;
                   q_returning := Some "id"; q_single := true |} in
    if truthy (error r) then respond 500 (error_body (js_get "message" (error r)))
    else
      let* _ := member "map" artists in
      match artists with
      | JArr ids =>
          let* results :=
            Promise_all
              (imap (fun index artistid =>
                       let* songid := member "id" (data r) in
                       supabase_run (link_insert (link_row songid index artistid)))
                    ids) in
          let errors := List.filter (fun result => truthy (error result)) results in
          if negb (length errors =? 0)%nat then
            let* songid := member "id" (data r) in
            respond 500
              (JObj [("error",
                      JStr ("Failed to link associate artists with current song "
                            +:+ js_to_string songid));
                     ("details",
                      JArr (map (fun e => js_get "message" (error e)) errors))])
          else
            match file req with
            | Some f =>
                let* songid := member "id" (data r) in
                detach (cloudinary_upload f "songs" songid)
            | None => ret tt
            end;;
            respond 201 (message_body ("Song " +:+ js_to_string title +:+ " created"))
      | _ => throw (JError "artists.map is not a function")
      end.

Definition deleteSong (req : Request) : M Response :=
  let id := params_id req in
  let* r := supabase_run
              {| q_from := "songs"; q_verb := Delete;
                 q_filters := [IsEq "id" id]; q_range := None;
                 q_returning := Some "title"; q_single := true |} in
  if truthy (error r) then respond 500 (error_body (js_get "message" (error r)))
  else
    let* title := member "title" (data r) in
    detach (backblaze_deleteObject (js_to_string title +:+ ".mp3"));;
    detach (cloudinary_delete "songs" ("i-" +:+ id));;
    respond 202 (message_body ("Song " +:+ id +:+ " is being deleted")).

(** ** Values used in examples *)

(** An order item as the gateway documents it. *)
Record CartItem := {
  cart_itemid : string;
  cart_itemname : string;
  cart_itemprice : Z;
  cart_itemquantity : Z
}.

Definition cart_item_value (i : CartItem) : JsVal :=
  JObj [("itemid", JStr (cart_itemid i)); ("itemname", JStr (cart_itemname i));
        ("itemprice", JNum (cart_itemprice i));
        ("itemquantity", JNum (cart_itemquantity i))].

Definition cart_items : OrderItems CartItem :=
  {| itemprice := cart_itemprice;
     itemquantity := cart_itemquantity;
     JSON_stringify_items := fun items =>
       default "undefined" (JSON_stringify (JArr (map cart_item_value items))) |}.

Definition merchant_env : Env :=
  {| ZALO_APP_ID := "2553"; ZALO_KEY1 := "key-one"; ZALO_KEY2 := "key-two" |}.

(** A role resolver that reads the role off the header as it is. *)
Definition header_role : Utils :=
  {| enforceRole := fun h => default "Guest" h |}.

(** A world with an empty cache and no failing collaborator, in which the
    record store answers every query with [answer]. *)
Definition quiet_world (answer : StoreQuery -> Outcome QueryResult) : World :=
  {| redis := ∅; clock := 1000;
     redis_get_fault := None; redis_set_fault := None;
     supabase := answer;
     backblaze_delete := fun _ => Returned tt;
     backblaze_presign := fun fileName _ => Returned ("https://blob.example/" +:+ fileName);
     cloudinary_call := Returned tt;
     log := [] |}.

Definition plain_request : Request :=
  {| params_id := "7"; params_term := "hello";
     query_page := None; query_limit := None;
     authorization := Some "User"; body := ∅; file := None |}.

(** A day in November 2026 on which the gateway accepts every order. *)
Definition accepting_day (day : N) : PayEnv :=
  {| new_Date := {| getFullYear := 2026; getMonth := 10; getDate := day |};
     Date_now := 1730000123456;
     axios_post := fun _ _ =>
       Returned (JObj [("return_code", JNum 1);
                       ("order_url", JStr "https://pay.example/order")]) |}.

Definition one_month : list CartItem :=
  [{| cart_itemid := "premium-1"; cart_itemname := "Premium, one month";
      cart_itemprice := 59000; cart_itemquantity := 1 |}].

(** The cache store cannot be reached: reads and writes fail. *)
Definition outage_error : JsVal := JError "connect ECONNREFUSED".

Definition outage_world (answer : StoreQuery -> Outcome QueryResult) : World :=
  {| redis := ∅; clock := 1000;
     redis_get_fault := Some outage_error; redis_set_fault := Some outage_error;
     supabase := answer;
     backblaze_delete := fun _ => Returned tt;
     backblaze_presign := fun fileName _ => Returned ("https://blob.example/" +:+ fileName);
     cloudinary_call := Returned tt;
     log := [] |}.

(** One song row, and a record store that answers every query with it. *)
Definition hello_rows : JsVal :=
  JArr [JObj [("id", JNum 7); ("title", JStr "Hello")]].

Definition hello_store (q : StoreQuery) : Outcome QueryResult :=
  Returned {| data := hello_rows; error := JNull |}.

(** A record store in which the [artists] table cannot be queried. *)
Definition artists_down_store (q : StoreQuery) : Outcome QueryResult :=
  if String.eqb (q_from q) "artists"
  then Returned {| data := JNull;
                   error := JObj [("message", JStr "relation is locked")] |}
  else Returned {| data := JArr []; error := JNull |}.

(** A request that sets a song's view count to zero, one that changes only
    a description, and a row as the record store holds it. *)
Definition reset_views_request : Request :=
  {| params_id := "7"; params_term := "";
     query_page := None; query_limit := None;
     authorization := Some "User";
     body := {["views" := JNum 0]}; file := None |}.

Definition describe_request : Request :=
  {| params_id := "7"; params_term := "";
     query_page := None; query_limit := None;
     authorization := Some "User";
     body := {["description" := JStr "x"]}; file := None |}.

Definition hello_row : gmap string JsVal :=
  <["title" := JStr "Hello"]> (<["views" := JNum 41]> (<["genre" := JStr "pop"]> ∅)).

(** A record store holding the song "Hello" with Primary artist "Adele",
    and a world around it whose blob store and asset service fail. *)
Definition adele_store (q : StoreQuery) : Outcome QueryResult :=
  if String.eqb (q_from q) "artistssongs"
  then Returned {| data := JObj [("artist", JObj [("name", JStr "Adele")]);
                                 ("song", JObj [("title", JStr "Hello")])];
                   error := JNull |}
  else Returned {| data := JObj [("title", JStr "Hello")]; error := JNull |}.

Definition failing_cleanup_world : World :=
  {| redis := ∅; clock := 1000;
     redis_get_fault := None; redis_set_fault := None;
     supabase := adele_store;
     backblaze_delete := fun _ => Thrown (JError "NoSuchKey");
     backblaze_presign := fun fileName _ => Returned ("https://blob.example/" +:+ fileName);
     cloudinary_call := Thrown (JError "not found");
     log := [] |}.

(** A request that creates "Hello" for three artists, and a record store
    that gives every new row the id 7. *)
Definition three_artists_request : Request :=
  {| params_id := ""; params_term := "";
     query_page := None; query_limit := None;
     authorization := Some "User";
     body := <["title" := JStr "Hello"]>
               {["artists" := JArr [JStr "A"; JStr "B"; JStr "C"]]};
     file := None |}.

Definition id_seven_store (q : StoreQuery) : Outcome QueryResult :=
  Returned {| data := JObj [("id", JNum 7)]; error := JNull |}.

(** ** The record store's update, as the handlers rely on it *)

Definition is_undefined (v : JsVal) : bool :=
  match v with JUndefined => true | _ => false end.

(** The properties of a payload that reach the record store: the client
    sends [JSON.stringify(payload)], which has no property whose value is
    [undefined]. *)
Definition wire_payload (payload : gmap string JsVal) : gmap string JsVal :=
  filter (fun kv => is_undefined (snd kv) = false) payload.

(** An update sets the columns the request names and keeps the others. *)
Definition store_update (row payload : gmap string JsVal) : gmap string JsVal :=
  wire_payload payload ∪ row.

(** ** Vocabulary of the statements *)

Fixpoint all_digits (s : string) : bool :=
  match s with
  | EmptyString => true
  | String c rest => is_digit c && all_digits rest
  end.

(** The pattern [YYMMDD_<sequence>]: six digits, an underscore, and one or
    more digits. *)
Definition is_trans_id (s : string) : bool :=
  (String.length (string_take 6 s) =? 6)%nat
  && all_digits (string_take 6 s)
  && String.eqb (string_take 1 (string_drop 6 s)) "_"
  && negb (String.eqb (string_drop 7 s) "")
  && all_digits (string_drop 7 s).

(** The day a transaction id starts with: its first three pairs of
    digits. *)
Definition trans_id_date (s : string) : option (N * N * N) :=
  if is_trans_id s then
    match parseInt (string_take 2 s),
          parseInt (string_take 2 (string_drop 2 s)),
          parseInt (string_take 2 (string_drop 4 s)) with
    | Some yy, Some mm, Some dd => Some (yy, mm, dd)
    | _, _, _ => None
    end
  else None.

(** The year of the century, the month counted from 1 and the day of the
    month of a [Date]. *)
Definition calendar_day (d : JsDate) : N * N * N :=
  ((getFullYear d mod 100)%N, (getMonth d + 1)%N, getDate d).

(** The sequence component of a transaction id. *)
Definition trans_id_sequence (s : string) : option N :=
  if is_trans_id s then parseInt (string_drop 7 s) else None.

(** A date of the current era, as [new Date()] yields. *)
Definition valid_date (d : JsDate) : Prop :=
  (1970 <= getFullYear d)%N /\ (getMonth d <= 11)%N
  /\ (1 <= getDate d <= 31)%N.

Definition is_store_call (e : Event) : bool :=
  match e with StoreCall _ => true | _ => false end.

Definition is_cache_call (e : Event) : bool :=
  match e with RedisGet _ | RedisSet _ _ _ => true | _ => false end.

(** The rows inserted into the link table by the calls of a log. *)
Definition link_rows (events : list Event) : list (gmap string JsVal) :=
  omap (fun e =>
          match e with
          | StoreCall q =>
              match q_verb q with
              | Insert row =>
                  if String.eqb (q_from q) "artistssongs" then Some row else None
              | _ => None
              end
          | _ => None
          end) events.



(** The fields that [updateSong] and [updateArtist] read from the body. *)
Definition song_fields : list string :=
  ["title"; "description"; "thumbnailurl"; "duration"; "releasedate"; "genre";
   "views"].

Definition artist_optional_fields : list string :=
  ["description"; "avatarurl"; "country"].

(** A field of the body counts as supplied when the body has it with a
    value other than [undefined]. *)
Definition supplied (req : Request) (k : string) : option JsVal :=
  match body req !! k with
  | Some v => if is_undefined v then None else Some v
  | None => None
  end.

Definition keep_truthy (o : option JsVal) : option JsVal :=
  match o with
  | Some v => if truthy v then Some v else None
  | None => None
  end.

(** The cache key of a per-category search. *)
Definition category_key (category term : string) (page limit : Z) : string :=
  "searches?cat=" +:+ category +:+ "&term=" +:+ term
  +:+ "&page=" +:+ pretty page +:+ "&limit=" +:+ pretty limit.

(** The states the client can be in after further calls of [createOrder],
    whatever their arguments and however they end. *)
Inductive later_state `{Crypto} `{OrderItems OrderItem} : ZaloPay -> ZaloPay -> Prop :=
| later_same (this : ZaloPay) : later_state this this
| later_call (this : ZaloPay) (env : PayEnv) (user_id : string)
    (items : list OrderItem) (this' : ZaloPay) :
    later_state (fst (createOrder this env user_id items)) this' ->
    later_state this this'.

Definition success_result : ZaloResult :=
  {| return_code := 1; return_message := JStr "success" |}.

Definition mac_not_equal_result : ZaloResult :=
  {| return_code := -1; return_message := JStr "mac not equal" |}.

(** The answer of a per-category search computed from the record store's
    answer to its query. *)
Definition fresh_category_response (o : Outcome QueryResult) : Outcome Response :=
  match o with
  | Returned r =>
      if truthy (error r)
      then Returned {| status := 500;
                       json := error_body (js_get "message" (error r)) |}
      else Returned {| status := 200; json := data_body (data r) |}
  | Thrown err => Thrown err
  end.

(** The body of a successful default search. *)
Definition default_payload (results : list QueryResult) : JsVal :=
  data_body (JObj [("songs", data (nth 0 results undefined_result));
                   ("artists", data (nth 1 results undefined_result));
                   ("albums", data (nth 2 results undefined_result));
                   ("playlists", data (nth 3 results undefined_result));
                   ("users", data (nth 4 results undefined_result))]).

(** The errors of the five results, in order, and their messages. *)
Definition default_errors (results : list QueryResult) : list JsVal :=
  List.filter truthy
    [error (nth 0 results undefined_result); error (nth 1 results undefined_result);
     error (nth 2 results undefined_result); error (nth 3 results undefined_result);
     error (nth 4 results undefined_result)].

(** The answer of the default search computed from how its five queries
    settled. *)
Definition fresh_default_response (os : list (Outcome QueryResult)) : Response :=
  match all_returned os with
  | Returned results =>
      if negb (length (default_errors results) =? 0)%nat
      then {| status := 500;
              json := error_body (JArr (map (js_get "message")
                                            (default_errors results))) |}
      else {| status := 200; json := default_payload results |}
  | Thrown err => {| status := 500; json := error_body err |}
  end.

(** The cache key of the default search. *)
Definition default_key (term : string) : string := "searches?term=" +:+ term.

(** The page window of a request: [(page - 1) * limit] to
    [page * limit - 1]. *)
Definition page_range (req : Request) (default_limit : Z) : Z * Z :=
  let page := number_or (query_page req) 1 in
  let limit := number_or (query_limit req) default_limit in
  ((page - 1) * limit, page * limit - 1).

Definition request_key (category : string) (default_limit : Z) (req : Request)
  : string :=
  category_key category (params_term req)
               (number_or (query_page req) 1)
               (number_or (query_limit req) default_limit).

(** The cache keys of the song list and of a song. *)
Definition songs_page_key (req : Request) : string :=
  "songs?page=" +:+ pretty (number_or (query_page req) 1)
  +:+ "&limit=" +:+ pretty (number_or (query_limit req) 10).

Definition song_id_key (req : Request) : string := "songs?id=" +:+ params_id req.

(** The same world with another failure mode of cache writes. *)
Definition with_set_fault (w : World) (fault : option JsVal) : World :=
  {| redis := redis w; clock := clock w;
     redis_get_fault := redis_get_fault w; redis_set_fault := fault;
     supabase := supabase w; backblaze_delete := backblaze_delete w;
     backblaze_presign := backblaze_presign w;
     cloudinary_call := cloudinary_call w; log := log w |}.

(** How a read that goes through the cache ends, given the world it starts
    in, its cache key and its answer [fresh] for the case that the record
    store is asked. *)
Definition read_through (w : World) (key : string) (fresh : Outcome Response)
  : Outcome Response :=
  match redis_get_fault w with
  | Some err => Thrown err
  | None =>
      if truthy (cache_read w key)
      then Returned {| status := 200; json := cache_read w key |}
      else fresh
  end.

(** The same world [seconds] later. *)
Definition later (w : World) (seconds : N) : World :=
  {| redis := redis w; clock := (clock w + seconds)%N;
     redis_get_fault := redis_get_fault w; redis_set_fault := redis_set_fault w;
     supabase := supabase w; backblaze_delete := backblaze_delete w;
     backblaze_presign := backblaze_presign w;
     cloudinary_call := cloudinary_call w; log := log w |}.

(** The first character of a serialised body. *)
Definition first_byte (body : JsVal) : option string :=
  string_take 1 <$> JSON_stringify body.

(** The query [updateSong] and [updateArtist] send for a payload. *)
Definition update_query (table id : string) (payload : gmap string JsVal)
  : StoreQuery :=
  {| q_from := table; q_verb := Update payload; q_filters := [IsEq "id" id];
     q_range := None; q_returning := None; q_single := false |}.

(** The query [deleteSong] sends. *)
Definition delete_song_query (id : string) : StoreQuery :=
  {| q_from := "songs"; q_verb := Delete; q_filters := [IsEq "id" id];
     q_range := None; q_returning := Some "title"; q_single := true |}.

(** The query with which [addSong] creates the song's row. *)
Definition insert_song_query (payload : gmap string JsVal) : StoreQuery :=
  {| q_from := "songs"; q_verb := Insert payload; q_filters := [];
     q_range := None; q_returning := Some "id"; q_single := true |}.

(** [null] and [undefined], on which reading a property throws. *)
Definition is_nullish (v : JsVal) : bool :=
  match v with JUndefined | JNull => true | _ => false end.

(** ** The status query of the payment client *)

(** The request [axios(config)] is given by [getOrderStatus]. *)
Record AxiosConfig := {
  config_method : string;
  config_url : string;
  config_headers : list (string * string);
  config_data : string;
  config_timeout : N
}.

Definition query_url : string := "https://sb-openapi.zalopay.vn/v2/query".

(** The bytes that [URLSearchParams] writes as they are: ASCII letters and
    digits, [*], [-], [.] and [_]. *)
Definition is_form_safe (c : ascii) : bool :=
  let n := N_of_ascii c in
  ((48 <=? n) && (n <=? 57) || (65 <=? n) && (n <=? 90)
   || (97 <=? n) && (n <=? 122)
   || (n =? 42) || (n =? 45) || (n =? 46) || (n =? 95))%N.

Definition hex_digit_upper (n : N) : ascii :=
  match n with
  | 0 => "0" | 1 => "1" | 2 => "2" | 3 => "3" | 4 => "4" | 5 => "5"
  | 6 => "6" | 7 => "7" | 8 => "8" | 9 => "9" | 10 => "A" | 11 => "B"
  | 12 => "C" | 13 => "D" | 14 => "E" | _ => "F"
  end%char%N.

(** One byte in [application/x-www-form-urlencoded]: a space becomes [+],
    every other byte outside the safe set becomes [%XX]. *)
Definition form_encode_char (c : ascii) : string :=
  let n := N_of_ascii c in
  if is_form_safe c then String c ""
  else if (n =? 32)%N then "+"
  else String "%" (String (hex_digit_upper (n / 16))
                          (String (hex_digit_upper (n mod 16)) "")).

Fixpoint form_encode (s : string) : string :=
  match s with
  | EmptyString => ""
  | String c rest => form_encode_char c +:+ form_encode rest
  end.

(** [new URLSearchParams(entries).toString()]. *)
Definition URLSearchParams_toString (entries : list (string * string)) : string :=
  join "&" (map (fun kv => form_encode (fst kv) +:+ "=" +:+ form_encode (snd kv))
                entries).

(** [Object.entries(order)] for the order of [getOrderStatus], whose
    properties are set in this order. *)
Definition status_order_entries (app_id app_trans_id mac : string)
  : list (string * string) :=
  [("app_id", app_id); ("app_trans_id", app_trans_id); ("mac", mac)].

Definition status_config (app_id app_trans_id mac : string) : AxiosConfig :=
  {| config_method := "post";
     config_url := query_url;
     config_headers := [("Content-Type", "application/x-www-form-urlencoded")];
     config_data :=
       URLSearchParams_toString (status_order_entries app_id app_trans_id mac);
     config_timeout := 5000 |}.

(** [getOrderStatus(app_trans_id)]; [axios] is how the request settles. The
    hashing happens before the [try] block, so an exception from it leaves
    as it is; a rejection of the request is rethrown as a new [Error]. *)
Definition getOrderStatus `{Crypto} (this : ZaloPay)
    (axios : AxiosConfig -> Outcome JsVal) (app_trans_id : string)
  : Outcome JsVal :=
  let data := app_id (client this) +:+ "|" +:+ app_trans_id +:+ "|"
              +:+ key1 (client this) in
  match createHmac_sha256_hex (key1 (client this)) data with
  | Raised message => Thrown (JError message)
  | Digest mac =>
      match axios (status_config (app_id (client this)) app_trans_id mac) with
      | Returned resp_data => Returned resp_data
      | Thrown error =>
          Thrown (JError ("Failed to retrieve order status: "
                          +:+ js_to_string error))
      end
  end.

(** ** Vocabulary of the further properties *)

(** How often the character [c] occurs in [s]. *)
Fixpoint count_char (c : ascii) (s : string) : nat :=
  match s with
  | EmptyString => 0
  | String c' rest => (if Ascii.eqb c c' then 1 else 0) + count_char c rest
  end.

Fixpoint all_form_safe (s : string) : bool :=
  match s with
  | EmptyString => true
  | String c rest => is_form_safe c && all_form_safe rest
  end.

(** The calls of a log that go to the record store. *)
Definition store_calls (events : list Event) : list StoreQuery :=
  omap (fun e => match e with StoreCall q => Some q | _ => None end) events.

(** A computation leaves the cache alone: it makes no call to it and hands
    on its content, the clock and the way the cache fails, whatever the
    world it starts in. *)
Definition cache_untouched {A} (m : M A) : Prop :=
  forall w,
    redis (snd (m w)) = redis w
    /\ clock (snd (m w)) = clock w
    /\ redis_get_fault (snd (m w)) = redis_get_fault w
    /\ List.filter is_cache_call (log (snd (m w)))
       = List.filter is_cache_call (log w).

(** The query with which [addArtist] creates the artist's row. *)
Definition insert_artist_query (payload : gmap string JsVal) : StoreQuery :=
  {| q_from := "artists"; q_verb := Insert payload; q_filters := [];
     q_range := None; q_returning := Some "id"; q_single := true |}.

(** The query [deleteArtist] sends. *)
Definition delete_artist_query (id : string) : StoreQuery :=
  {| q_from := "artists"; q_verb := Delete; q_filters := [IsEq "id" id];
     q_range := None; q_returning := None; q_single := true |}.

(** The optional fields of a new song. *)
Definition song_optional_fields : list string :=
  ["description"; "thumbnailurl"; "duration"; "releasedate"; "genre"].

Definition is_delete (q : StoreQuery) : bool :=
  match q_verb q with Delete => true | _ => false end.

(** ** Values used in further examples *)

(** A world in which song 7 is cached, with 1000 seconds to live, and in
    which the record store holds "Hello" by "Adele". *)
Definition cached_song_world : World :=
  {| redis := {["songs?id=7" := (JObj [("title", JStr "Hello")], 2000%N)]};
     clock := 1000;
     redis_get_fault := None; redis_set_fault := None;
     supabase := adele_store;
     backblaze_delete := fun _ => Returned tt;
     backblaze_presign := fun fileName _ => Returned ("https://blob.example/" +:+ fileName);
     cloudinary_call := Returned tt;
     log := [] |}.

(** A record store that gives a new song the id 7 and refuses the link to
    artist "B". *)
Definition link_b_refused_store (q : StoreQuery) : Outcome QueryResult :=
  match q_verb q with
  | Insert row =>
      match row !! "artistid" with
      | Some (JStr "B") =>
          Returned {| data := JNull;
                      error := JObj [("message", JStr "unknown artist B")] |}
      | _ => Returned {| data := JObj [("id", JNum 7)]; error := JNull |}
      end
  | _ => Returned {| data := JObj [("id", JNum 7)]; error := JNull |}
  end.

(** A request that creates "Hello" and names no artist. *)
Definition title_only_request : Request :=
  {| params_id := ""; params_term := "";
     query_page := None; query_limit := None;
     authorization := Some "User";
     body := {["title" := JStr "Hello"]}; file := None |}.

(** A record store that refuses every query. *)
Definition refusing_store (q : StoreQuery) : Outcome QueryResult :=
  Returned {| data := JNull;
              error := JObj [("message", JStr "permission denied")] |}.

(** The request [req] with other paging parameters. *)
Definition with_paging (req : Request) (page limit : option Z) : Request :=
  {| params_id := params_id req; params_term := params_term req;
     query_page := page; query_limit := limit;
     authorization := authorization req; body := body req; file := file req |}.

(** The categories of the per-category searches, as their cache keys name
    them. *)
Definition search_categories : list string :=
  ["songs"; "artists"; "users"; "playlists"; "albums"].

(** A handler changes the cache at most by one entry under [key], written
    with 300 seconds to live, and only when it answers 200. *)
Definition writes_at_most (m : M Response) (key : string) : Prop :=
  forall w,
    redis (snd (m w)) = redis w
    \/ exists value body,
         fst (m w) = Returned {| status := 200; json := body |}
         /\ redis (snd (m w)) = <[key := (value, (clock w + 300)%N)]> (redis w).

(** The queries of the two cached song reads. *)
Definition songs_page_query (req : Request) : StoreQuery :=
  select_from "songs" None [] (Some (page_range req 10)) false.

Definition song_id_query (req : Request) : StoreQuery :=
  select_from "songs" None [IsEq "id" (params_id req)] None true.

(** An update request with an attachment. *)
Definition attachment_request : Request :=
  {| params_id := "7"; params_term := "";
     query_page := None; query_limit := None;
     authorization := Some "User";
     body := {["description" := JStr "x"]}; file := Some "cover.png" |}.

(** A record store whose connection is refused: every query rejects. *)
Definition unreachable_store (q : StoreQuery) : Outcome QueryResult :=
  Thrown (JError "fetch failed").

(** The sum of price times quantity over a cart, as an integer, and the
    same with every term taken by its absolute value. *)
Definition exact_total `{OrderItems OrderItem} (items : list OrderItem) : Z :=
  fold_right (fun item acc => itemprice item * itemquantity item + acc) 0 items.

Definition absolute_total `{OrderItems OrderItem} (items : list OrderItem) : Z :=
  fold_right (fun item acc => Z.abs (itemprice item * itemquantity item) + acc)
             0 items.

(** Every price and quantity of the cart is a whole number that a double
    holds exactly. *)
Definition whole_doubles `{OrderItems OrderItem} (items : list OrderItem) : Prop :=
  Forall (fun item => Z.abs (itemprice item) <= 2 ^ 53
                      /\ Z.abs (itemquantity item) <= 2 ^ 53) items.

(** What [createOrder] observes when the calendar shows [date], the clock
    [now], and the gateway settles requests as [post] says. *)
Definition observed (date : JsDate) (now : N)
    (post : string -> ZaloOrder -> Outcome JsVal) : PayEnv :=
  {| new_Date := date; Date_now := now; axios_post := post |}.

(** How [createOrder] ends once [order] has been posted. *)
Definition answer_with_id (order : ZaloOrder) (settled : Outcome JsVal)
  : Outcome JsVal :=
  match settled with
  | Returned res_data =>
      Returned (JObj (js_set "app_trans_id" (JStr (order_app_trans_id order))
                             (js_spread res_data)))
  | Thrown err => Thrown err
  end.

(** A cart with one price at the limit of the whole numbers a double holds
    one by one. *)
Definition large_cart : list CartItem :=
  [{| cart_itemid := "a"; cart_itemname := "a";
      cart_itemprice := 2 ^ 53; cart_itemquantity := 1 |};
   {| cart_itemid := "b"; cart_itemname := "b";
      cart_itemprice := 1; cart_itemquantity := 1 |};
   {| cart_itemid := "c"; cart_itemname := "c";
      cart_itemprice := 1; cart_itemquantity := 1 |}].

(** A computation adds to the log only events that satisfy [P]. *)
Definition logs_only (P : Event -> Prop) {A} (m : M A) : Prop :=
  forall w, exists rest, log (snd (m w)) = log w ++ rest /\ Forall P rest.

(** The calls [addSong] makes once the song's row is inserted: inserts into
    the link table and the upload of the attachment. *)
Definition is_link_or_upload (e : Event) : bool :=
  match e with
  | StoreCall q =>
      String.eqb (q_from q) "artistssongs"
      && match q_verb q with Insert _ => true | _ => false end
  | CloudinaryUpload _ _ _ => true
  | _ => false
  end.

(** A request that creates "Hello" with a description and an empty
    genre. *)
Definition described_song_request : Request :=
  {| params_id := ""; params_term := "";
     query_page := None; query_limit := None;
     authorization := Some "User";
     body := <["title" := JStr "Hello"]>
               (<["description" := JStr "x"]>
                  (<["genre" := JStr ""]>
                     {["artists" := JArr [JStr "A"]]}));
     file := None |}.

(** * Properties *)

(** ** The helpers on concrete inputs *)

Example slice_last_of_clock : slice_last 6 (pretty 1730000000123%N) = "000123".
Proof. reflexivity. Qed.

Example parseInt_leading_zeros : parseInt "000123" = Some 123%N.
Proof. reflexivity. Qed.

Example parseInt_not_a_number : parseInt "x12" = None.
Proof. reflexivity. Qed.

Example padStart_short_and_full :
  padStart 2 "0" "5" = "05" /\ padStart 2 "0" "12" = "12".
Proof. by split. Qed.

Example date_prefix_of_a_day :
  date_prefix {| getFullYear := 2026; getMonth := 0; getDate := 9 |} = "260109".
Proof. reflexivity. Qed.

Example is_trans_id_cases :
  is_trans_id "261105_123457" = true
  /\ is_trans_id "26115_123457" = false
  /\ is_trans_id "261105_" = false
  /\ is_trans_id "261105-123457" = false
  /\ trans_id_sequence "261105_000042" = Some 42%N.
Proof. by vm_compute. Qed.

Example Number_of_cases :
  Number_of (2 ^ 53 + 1) = Finite (2 ^ 53)
  /\ Number_of (2 ^ 53 + 3) = Finite (2 ^ 53 + 4)
  /\ Number_of (- (2 ^ 60 + 129)) = Finite (- (2 ^ 60 + 256))
  /\ Number_of (2 ^ 1024 - 2 ^ 970 - 1) = Finite (2 ^ 1024 - 2 ^ 971)
  /\ Number_of (2 ^ 1024 - 2 ^ 970) = Infinite false
  /\ js_add (Finite (2 ^ 53)) (Finite 1) = Finite (2 ^ 53)
  /\ js_mul (Infinite false) (Finite 0) = NotANumber
  /\ js_add (Infinite false) (Infinite true) = NotANumber.
Proof. by vm_compute. Qed.

Example Number_toString_cases :
  Number_toString (Finite 59000) = "59000"
  /\ Number_toString (Finite (-7)) = "-7"
  /\ Number_toString (Finite (2 ^ 53)) = "9007199254740992"
  /\ Number_toString (Finite (2 ^ 60)) = "1152921504606847000"
  /\ Number_toString (Finite (2 ^ 64)) = "18446744073709552000"
  /\ Number_toString (Finite (10 ^ 21)) = "1e+21"
  /\ Number_toString (Finite 99999999999999991611392) = "1e+23"
  /\ Number_toString (Finite (2 ^ 70)) = "1.1805916207174113e+21"
  /\ Number_toString (Finite (- 2 ^ 100)) = "-1.2676506002282294e+30"
  /\ Number_toString (Finite (2 ^ 1024 - 2 ^ 971)) = "1.7976931348623157e+308"
  /\ Number_toString (Infinite true) = "-Infinity"
  /\ Number_toString NotANumber = "NaN".
Proof. by vm_compute. Qed.

Example truthy_cases :
  truthy (JNum 0) = false /\ truthy (JStr "") = false /\ truthy JNull = false
  /\ truthy (JArr []) = true /\ truthy (JObj []) = true /\ truthy (JStr "0") = true.
Proof. by vm_compute. Qed.

Example JSON_stringify_object :
  JSON_stringify (JObj [("id", JNum 7); ("gone", JUndefined);
                        ("tags", JArr [JNull; JUndefined; JBool true])])
  = Some ("{" +:+ json_quote "id" +:+ ":7," +:+ json_quote "tags"
          +:+ ":[null,null,true]}").
Proof. by vm_compute. Qed.

Example number_or_cases :
  number_or None 20 = 20 /\ number_or (Some 0) 20 = 20 /\ number_or (Some 3) 20 = 3.
Proof. by vm_compute. Qed.

Example page_range_third_page :
  page_range {| params_id := ""; params_term := ""; query_page := Some 3;
                query_limit := Some 5; authorization := None; body := ∅;
                file := None |} 20 = (10, 14).
Proof. reflexivity. Qed.

(** ** Decimal strings *)

Lemma pretty_N_go_digits (x : N) (s : string) :
  all_digits s = true -> all_digits (pretty_N_go x s) = true.
Proof.
  revert s. induction (N.lt_wf_0 x) as [x _ IH]. intros s Hs.
  destruct (decide (x = 0)%N) as [->|Hx].
  - by rewrite pretty_N_go_0.
  - rewrite pretty_N_go_step by lia.
    apply IH; [apply N.div_lt; lia|].
    simpl. rewrite Hs, andb_true_r.
    assert (x `mod` 10 < 10)%N as Hlt by (apply N.mod_lt; lia).
    destruct (x `mod` 10)%N as [|p]; [done|].
    do 4 (destruct p as [p|p|]; try done; try lia).
Qed.

Lemma pretty_N_digits (n : N) : all_digits (pretty n) = true.
Proof.
  unfold pretty, pretty_N. case_decide; [done|].
  by apply pretty_N_go_digits.
Qed.

Lemma digit_of_pretty_char (d : N) :
  (d < 10)%N -> digit_of_ascii (pretty_N_char d) = Some d.
Proof.
  intros Hd. destruct d as [|p]; [done|].
  do 4 (destruct p as [p|p|]; try done; try lia).
Qed.

Lemma parse_pretty_N_go (x : N) (s : string) :
  parse_digits (pretty_N_go x s) 0 = parse_digits s x.
Proof.
  revert s. induction (N.lt_wf_0 x) as [x _ IH]. intros s.
  destruct (decide (x = 0)%N) as [->|Hx].
  - by rewrite pretty_N_go_0.
  - rewrite pretty_N_go_step by lia.
    rewrite IH by (apply N.div_lt; lia).
    simpl. rewrite digit_of_pretty_char by (apply N.mod_lt; lia).
    f_equal. rewrite (N.div_mod x 10) at 3 by lia. lia.
Qed.

Lemma parse_pretty_N (n : N) : parse_digits (pretty n) 0 = n.
Proof.
  unfold pretty, pretty_N. case_decide as Hn; [by subst|].
  by rewrite parse_pretty_N_go.
Qed.

Lemma pretty_N_nonempty (n : N) : pretty n <> "".
Proof.
  intros Heq. pose proof (parse_pretty_N n) as Hn. rewrite Heq in Hn.
  simpl in Hn. subst n. discriminate Heq.
Qed.

Lemma parseInt_all_digits (s : string) :
  s <> "" -> all_digits s = true -> parseInt s = Some (parse_digits s 0).
Proof.
  destruct s as [|c rest]; [done|]. simpl. intros _ Hd.
  apply andb_true_iff in Hd as [Hc _]. unfold parseInt. by rewrite Hc.
Qed.

Lemma parseInt_pretty_N (n : N) : parseInt (pretty n) = Some n.
Proof.
  rewrite parseInt_all_digits;
    auto using pretty_N_nonempty, pretty_N_digits.
  by rewrite parse_pretty_N.
Qed.

Lemma digit_of_ascii_bound (c : ascii) (d : N) :
  digit_of_ascii c = Some d -> (d < 10)%N.
Proof.
  unfold digit_of_ascii. case_match eqn:Hc; [|done].
  apply andb_true_iff in Hc as [H1 H2].
  apply N.leb_le in H1, H2. intros [= <-]. lia.
Qed.

Lemma parse_digits_acc (s : string) (acc : N) :
  all_digits s = true ->
  parse_digits s acc
  = (acc * 10 ^ N.of_nat (String.length s) + parse_digits s 0)%N.
Proof.
  revert acc. induction s as [|c rest IH]; intros acc Hd.
  - simpl. lia.
  - simpl in Hd. apply andb_true_iff in Hd as [Hc Hrest].
    unfold is_digit in Hc. cbn [parse_digits String.length].
    destruct (digit_of_ascii c) as [d|]; [|done].
    rewrite (IH (10 * acc + d)%N Hrest), (IH (10 * 0 + d)%N Hrest).
    rewrite Nat2N.inj_succ, N.pow_succ_r'. lia.
Qed.

Lemma parse_digits_bound (s : string) :
  all_digits s = true ->
  (parse_digits s 0 < 10 ^ N.of_nat (String.length s))%N.
Proof.
  induction s as [|c rest IH]; intros Hd.
  - simpl. lia.
  - simpl in Hd. apply andb_true_iff in Hd as [Hc Hrest].
    unfold is_digit in Hc. cbn [parse_digits String.length].
    destruct (digit_of_ascii c) as [d|] eqn:Hdc; [|done].
    apply digit_of_ascii_bound in Hdc.
    rewrite (parse_digits_acc rest _ Hrest).
    specialize (IH Hrest).
    rewrite Nat2N.inj_succ, N.pow_succ_r'. nia.
Qed.

Lemma append_cons (c : ascii) (a b : string) :
  String c a +:+ b = String c (a +:+ b).
Proof. reflexivity. Qed.

Lemma append_empty (b : string) : "" +:+ b = b.
Proof. reflexivity. Qed.

Lemma string_take_drop (n : nat) (s : string) :
  string_take n s +:+ string_drop n s = s.
Proof.
  revert s. induction n as [|n IH]; intros [|c rest]; simpl; try done.
  by rewrite append_cons, IH.
Qed.

Lemma string_drop_length (n : nat) (s : string) :
  String.length (string_drop n s) = (String.length s - n)%nat.
Proof.
  revert s. induction n as [|n IH]; intros [|c rest]; simpl; done || lia.
Qed.

Lemma string_app_length (a b : string) :
  String.length (a +:+ b) = (String.length a + String.length b)%nat.
Proof.
  induction a as [|c a IH]; [done|].
  rewrite append_cons. simpl. by rewrite IH.
Qed.

Lemma all_digits_app (a b : string) :
  all_digits (a +:+ b) = all_digits a && all_digits b.
Proof.
  induction a as [|c a IH]; [done|].
  rewrite append_cons. simpl. by rewrite IH, andb_assoc.
Qed.

Lemma all_digits_drop (n : nat) (s : string) :
  all_digits s = true -> all_digits (string_drop n s) = true.
Proof.
  intros Hs. rewrite <- (string_take_drop n s), all_digits_app in Hs.
  by apply andb_true_iff in Hs as [_ ?].
Qed.

Lemma parse_digits_app (a b : string) (acc : N) :
  all_digits a = true ->
  parse_digits (a +:+ b) acc = parse_digits b (parse_digits a acc).
Proof.
  revert acc. induction a as [|c a IH]; intros acc Hd; [done|].
  rewrite append_cons. simpl.
  simpl in Hd. apply andb_true_iff in Hd as [Hc Ha]. unfold is_digit in Hc.
  destruct (digit_of_ascii c); [|done]. by apply IH.
Qed.

(** The digits kept by [slice(-k)] are the number modulo [10^k]. *)
Lemma parse_slice_last (k : nat) (s : string) :
  all_digits s = true ->
  parse_digits (slice_last k s) 0 = (parse_digits s 0 mod 10 ^ N.of_nat k)%N.
Proof.
  intros Hs. unfold slice_last.
  set (n := (String.length s - k)%nat).
  pose proof (string_take_drop n s) as Hsplit.
  pose proof (string_drop_length n s) as Hlen.
  assert (all_digits (string_take n s) = true
          /\ all_digits (string_drop n s) = true) as [Ha Hb].
  { rewrite <- Hsplit, all_digits_app in Hs. by apply andb_true_iff in Hs. }
  pose proof (parse_digits_app (string_take n s) (string_drop n s) 0 Ha) as Happ.
  rewrite Hsplit, (parse_digits_acc _ _ Hb) in Happ. rewrite Happ.
  pose proof (parse_digits_bound _ Hb) as Hbound.
  destruct (decide (k <= String.length s)%nat) as [Hk|Hk].
  - replace (String.length (string_drop n s)) with k in * by lia.
    rewrite N.add_comm, N.Div0.mod_add. by rewrite N.mod_small.
  - assert (n = 0%nat) as Hn by lia. rewrite Hn in *. simpl.
    rewrite N.mod_small; [lia|].
    eapply N.lt_le_trans; [|apply (N.pow_le_mono_r 10 (N.of_nat (String.length s))); lia].
    simpl in Hbound. lia.
Qed.

Lemma slice_last_nonempty (k : nat) (s : string) :
  (0 < k)%nat -> s <> "" -> slice_last k s <> "".
Proof.
  intros Hk Hs Heq. unfold slice_last in Heq.
  pose proof (string_drop_length (String.length s - k) s) as Hlen.
  rewrite Heq in Hlen. simpl in Hlen.
  destruct s as [|c rest]; [done|]. simpl in Hlen. lia.
Qed.

(** The counter starts at the last six decimal digits of the clock. *)
Lemma seed_is_last_six_digits `{Env} (now : N) :
  orderID (new_ZaloPay now) = (now mod 1000000)%N.
Proof.
  unfold new_ZaloPay. cbn [orderID].
  rewrite parseInt_all_digits.
  - cbn [default]. rewrite parse_slice_last by apply pretty_N_digits.
    by rewrite parse_pretty_N.
  - apply slice_last_nonempty; [lia|apply pretty_N_nonempty].
  - apply all_digits_drop, pretty_N_digits.
Qed.

(** ** Transaction ids *)

Lemma string_take_app (a b : string) :
  string_take (String.length a) (a +:+ b) = a.
Proof.
  induction a as [|c a IH]; [by destruct b|].
  rewrite append_cons. simpl. by rewrite IH.
Qed.

Lemma string_drop_app (a b : string) :
  string_drop (String.length a) (a +:+ b) = b.
Proof.
  induction a as [|c a IH]; [done|].
  rewrite append_cons. simpl. by rewrite IH.
Qed.

Lemma append_assoc (a b c : string) : (a +:+ b) +:+ c = a +:+ (b +:+ c).
Proof.
  induction a as [|x a IH]; [done|].
  rewrite !append_cons. by rewrite IH.
Qed.

Lemma all_digits_repeat_zero (n : nat) : all_digits (string_repeat "0" n) = true.
Proof. induction n as [|n IH]; [done|]. simpl. by rewrite IH. Qed.

Lemma below_cases (P : N -> bool) (b : nat) :
  forallb P (map N.of_nat (seq 0 b)) = true ->
  forall m, (m < N.of_nat b)%N -> P m = true.
Proof.
  intros Hall m Hm. rewrite forallb_forall in Hall. apply Hall.
  apply in_map_iff. exists (N.to_nat m). split; [lia|].
  apply in_seq. lia.
Qed.

Lemma padStart_two_digits (m : N) :
  (m < 100)%N ->
  String.length (padStart 2 "0" (pretty m)) = 2%nat
  /\ all_digits (padStart 2 "0" (pretty m)) = true.
Proof.
  intros Hm. split.
  - apply Nat.eqb_eq.
    apply (below_cases
             (fun m => (String.length (padStart 2 "0" (pretty m)) =? 2)%nat) 100);
      [by vm_compute|done].
  - unfold padStart.
    by rewrite all_digits_app, all_digits_repeat_zero, pretty_N_digits.
Qed.

Lemma slice_last_two_digits (n : N) :
  (10 <= n)%N ->
  String.length (slice_last 2 (pretty n)) = 2%nat
  /\ all_digits (slice_last 2 (pretty n)) = true.
Proof.
  intros Hn. split; [|apply all_digits_drop, pretty_N_digits].
  unfold slice_last. rewrite string_drop_length.
  pose proof (parse_digits_bound _ (pretty_N_digits n)) as Hb.
  rewrite parse_pretty_N in Hb.
  destruct (String.length (pretty n)) as [|[|len]]; simpl in Hb; lia.
Qed.

Lemma date_prefix_six_digits (d : JsDate) :
  valid_date d ->
  String.length (date_prefix d) = 6%nat /\ all_digits (date_prefix d) = true.
Proof.
  intros (Hy & Hm & Hd1 & Hd2). unfold date_prefix.
  destruct (slice_last_two_digits (getFullYear d)) as [Hl1 Ha1]; [lia|].
  destruct (padStart_two_digits (getMonth d + 1)) as [Hl2 Ha2]; [lia|].
  destruct (padStart_two_digits (getDate d)) as [Hl3 Ha3]; [lia|].
  rewrite !string_app_length, !all_digits_app, Hl1, Hl2, Hl3, Ha1, Ha2, Ha3.
  done.
Qed.

(** A six-digit prefix, an underscore and a decimal number make a
    transaction id whose sequence component is that number. *)
Lemma trans_id_sequence_make (prefix : string) (n : N) :
  String.length prefix = 6%nat -> all_digits prefix = true ->
  trans_id_sequence (prefix +:+ "_" +:+ pretty n) = Some n.
Proof.
  intros Hlen Hdig. unfold trans_id_sequence, is_trans_id.
  assert (string_take 6 (prefix +:+ "_" +:+ pretty n) = prefix) as ->.
  { rewrite <- Hlen. apply string_take_app. }
  assert (string_drop 6 (prefix +:+ "_" +:+ pretty n) = "_" +:+ pretty n) as ->.
  { rewrite <- Hlen. apply string_drop_app. }
  assert (string_drop 7 (prefix +:+ "_" +:+ pretty n) = pretty n) as ->.
  { rewrite <- append_assoc.
    replace 7%nat with (String.length (prefix +:+ "_")).
    - apply string_drop_app.
    - rewrite string_app_length, Hlen. done. }
  rewrite Hlen, Hdig, pretty_N_digits. simpl.
  destruct (String.eqb_spec (pretty n) "") as [Heq|_].
  - by destruct (pretty_N_nonempty n).
  - simpl. apply parseInt_pretty_N.
Qed.

Lemma string_drop_add (n m : nat) (s : string) :
  string_drop (n + m) s = string_drop m (string_drop n s).
Proof.
  revert s. induction n as [|n IH]; intros s; [done|].
  destruct s as [|c s]; simpl; [by destruct m|apply IH].
Qed.

Lemma parseInt_padStart_two (m : N) :
  (m < 100)%N -> parseInt (padStart 2 "0" (pretty m)) = Some m.
Proof.
  intros Hm.
  enough (match parseInt (padStart 2 "0" (pretty m)) with
          | Some k => (k =? m)%N
          | None => false
          end = true) as Hcase.
  { destruct (parseInt (padStart 2 "0" (pretty m))) as [k|]; [|done].
    by apply N.eqb_eq in Hcase as ->. }
  apply (below_cases
           (fun m => match parseInt (padStart 2 "0" (pretty m)) with
                     | Some k => (k =? m)%N
                     | None => false
                     end) 100); [by vm_compute|done].
Qed.

Lemma parseInt_slice_last_two (y : N) :
  parseInt (slice_last 2 (pretty y)) = Some (y mod 100)%N.
Proof.
  rewrite parseInt_all_digits.
  - rewrite parse_slice_last by apply pretty_N_digits.
    by rewrite parse_pretty_N.
  - apply slice_last_nonempty; [lia|apply pretty_N_nonempty].
  - apply all_digits_drop, pretty_N_digits.
Qed.

Lemma string_take_prefix (a b : string) (k : nat) :
  String.length a = k -> string_take k (a +:+ b) = a.
Proof. intros <-. apply string_take_app. Qed.

Lemma string_drop_prefix (a b : string) (k : nat) :
  String.length a = k -> string_drop k (a +:+ b) = b.
Proof. intros <-. apply string_drop_app. Qed.

(** The first six digits of an id built for a day are that day. *)
Lemma trans_id_date_make (d : JsDate) (n : N) :
  valid_date d ->
  trans_id_date (date_prefix d +:+ "_" +:+ pretty n) = Some (calendar_day d).
Proof.
  intros Hd. pose proof Hd as (Hy & Hm & Hd1 & Hd2).
  destruct (date_prefix_six_digits d Hd) as [Hlen Hdig].
  pose proof (trans_id_sequence_make _ n Hlen Hdig) as Hseq.
  unfold trans_id_sequence in Hseq. unfold trans_id_date.
  destruct (is_trans_id _); [|done]. clear Hseq Hlen Hdig.
  destruct (slice_last_two_digits (getFullYear d)) as [Hl1 _]; [lia|].
  destruct (padStart_two_digits (getMonth d + 1)) as [Hl2 _]; [lia|].
  unfold date_prefix. rewrite !append_assoc.
  set (yy := slice_last 2 (pretty (getFullYear d))) in *.
  set (mm := padStart 2 "0" (pretty (getMonth d + 1)%N)) in *.
  set (dd := padStart 2 "0" (pretty (getDate d))).
  assert (String.length dd = 2%nat) as Hl3
    by (apply padStart_two_digits; lia).
  change 4%nat with (2 + 2)%nat. rewrite string_drop_add.
  rewrite (string_take_prefix yy), (string_drop_prefix yy) by done.
  rewrite (string_take_prefix mm), (string_drop_prefix mm) by done.
  rewrite (string_take_prefix dd) by done.
  subst yy mm dd.
  rewrite parseInt_slice_last_two, !parseInt_padStart_two by lia.
  done.
Qed.

Lemma assoc_js_set (k : string) (v : JsVal) (props : list (string * JsVal)) :
  assoc k (js_set k v props) = Some v.
Proof.
  induction props as [|[k' v'] rest IH]; simpl.
  - by rewrite String.eqb_refl.
  - destruct (String.eqb k k') eqn:He; simpl; by rewrite ?String.eqb_refl, ?He.
Qed.

Lemma assoc_js_set_other (k k' : string) (v : JsVal) (props : list (string * JsVal)) :
  k' <> k -> assoc k' (js_set k v props) = assoc k' props.
Proof.
  intros Hne. induction props as [|[k0 v0] rest IH]; simpl.
  - by destruct (String.eqb_spec k' k).
  - destruct (String.eqb_spec k k0) as [->|Hk]; simpl.
    + by destruct (String.eqb_spec k' k0).
    + by rewrite IH.
Qed.

(** ** The payment client *)

Section PaymentClient.
Context `{Crypto} `{OrderItems OrderItem}.

Lemma createOrder_state (this : ZaloPay) (env : PayEnv) (user_id : string)
    (items : list OrderItem) :
  fst (createOrder this env user_id items)
  = {| client := client this; orderID := (orderID this + 1)%N |}.
Proof.
  unfold createOrder. cbn [client orderID].
  destruct (createHmac_sha256_hex _ _); [|done].
  by destruct (axios_post _ _ _).
Qed.

Lemma createOrder_returned (this this' : ZaloPay) (env : PayEnv)
    (user_id : string) (items : list OrderItem) (r : JsVal) :
  createOrder this env user_id items = (this', Returned r) ->
  exists (order : ZaloOrder) (res_data : JsVal),
    axios_post env create_url order = Returned res_data
    /\ order_app_trans_id order
       = date_prefix (new_Date env) +:+ "_" +:+ pretty (orderID this + 1)%N
    /\ r = JObj (js_set "app_trans_id" (JStr (order_app_trans_id order))
                       (js_spread res_data)).
Proof.
  unfold createOrder. cbn [client orderID].
  destruct (createHmac_sha256_hex _ _) as [mac|]; [|done].
  match goal with
  | |- context [axios_post env create_url ?o] => set (order := o)
  end.
  destruct (axios_post env create_url order) as [res_data|] eqn:Hpost; [|done].
  intros [= _ <-]. by exists order, res_data.
Qed.

(** The order [createOrder] posts, and how the call ends with it. *)
Lemma createOrder_posts (this : ZaloPay) (date : JsDate) (now : N)
    (user_id : string) (items : list OrderItem) :
  (forall data, exists mac,
      createHmac_sha256_hex (key1 (client this)) data = Digest mac) ->
  exists order,
    (forall post,
        createOrder this (observed date now post) user_id items
        = ({| client := client this; orderID := (orderID this + 1)%N |},
           answer_with_id order (post create_url order)))
    /\ order_app_id order = app_id (client this)
    /\ order_app_trans_id order
       = date_prefix date +:+ "_" +:+ pretty (orderID this + 1)%N
    /\ order_app_user order = user_id
    /\ order_app_time order = now
    /\ order_item order = JSON_stringify_items items
    /\ order_amount order = order_amount_of items
    /\ createHmac_sha256_hex (key1 (client this))
         (order_app_id order +:+ "|" +:+ order_app_trans_id order +:+ "|"
          +:+ order_app_user order +:+ "|"
          +:+ Number_toString (order_amount order) +:+ "|"
          +:+ pretty (order_app_time order) +:+ "|"
          +:+ order_embed_data order +:+ "|" +:+ order_item order)
       = Digest (order_mac order).
Proof.
  intros Hhash.
  destruct (Hhash (app_id (client this) +:+ "|"
                   +:+ (date_prefix date +:+ "_" +:+ pretty (orderID this + 1)%N)
                   +:+ "|" +:+ user_id +:+ "|"
                   +:+ Number_toString (order_amount_of items) +:+ "|"
                   +:+ pretty now +:+ "|"
                   +:+ default "undefined"
                         (JSON_stringify (embed_data (client this)))
                   +:+ "|" +:+ JSON_stringify_items items)) as [mac Hmac].
  exists {| order_app_id := app_id (client this);
            order_app_trans_id :=
              date_prefix date +:+ "_" +:+ pretty (orderID this + 1)%N;
            order_app_user := user_id;
            order_app_time := now;
            order_item := JSON_stringify_items items;
            order_embed_data :=
              default "undefined" (JSON_stringify (embed_data (client this)));
            order_amount := order_amount_of items;
            order_description :=
              "Hust Musik Premium - Payment for order "
              +:+ pretty (orderID this + 1)%N;
            order_bank_code := "zalopayapp";
            order_mac := mac |}.
  split; [|cbn [order_app_id order_app_trans_id order_app_user order_app_time
                order_item order_amount order_embed_data order_mac];
           repeat split; exact Hmac].
  intros post. unfold createOrder, observed, answer_with_id.
  cbn [client orderID new_Date Date_now axios_post]. rewrite Hmac.
  cbn [order_app_trans_id]. by destruct (post create_url _).
Qed.

Lemma later_state_counter (this this' : ZaloPay) :
  later_state this this' -> (orderID this <= orderID this')%N.
Proof.
  induction 1 as [this|this env user_id items this' _ IH]; [done|].
  rewrite createOrder_state in IH. cbn [orderID] in IH. lia.
Qed.

End PaymentClient.

(** C1. [receiveOrderCallback(p, m)] returns the success result (return code
    1) exactly when [m] is the hexadecimal HMAC-SHA256 of [p] under [key2];
    for any other [m] it returns the "mac not equal" result, whose return
    code is negative; when the hashing throws, it returns the result with
    return code 0 and the exception's message; and it always returns. *)
Theorem receiveOrderCallback_authenticates `{Crypto}
    (this : ZaloPay) (p m : string) :
  (receiveOrderCallback this p m = Returned success_result
   <-> createHmac_sha256_hex (key2 (client this)) p = Digest m)
  /\ (forall h, createHmac_sha256_hex (key2 (client this)) p = Digest h ->
                m <> h ->
                receiveOrderCallback this p m = Returned mac_not_equal_result
                /\ return_code mac_not_equal_result < 0)
  /\ (forall message,
        createHmac_sha256_hex (key2 (client this)) p = Raised message ->
        receiveOrderCallback this p m
        = Returned {| return_code := 0; return_message := JStr message |})
  /\ (exists r, receiveOrderCallback this p m = Returned r).
Proof.
  unfold receiveOrderCallback.
  destruct (createHmac_sha256_hex (key2 (client this)) p) as [mac|msg].
  - destruct (String.eqb_spec m mac) as [->|Hne]; simpl.
    + split; [done|]. split; [|split; [done|by eexists]].
      intros h' [= <-] Hh. by destruct Hh.
    + split; [|split; [done|split; [done|by eexists]]].
      split; [done|]. intros [= ->]. by destruct Hne.
  - simpl. split; [done|]. split; [done|].
    split; [|by eexists]. by intros ? [= <-].
Qed.

(** With Node's HMAC-SHA256 the round trip of C1 holds for every payload:
    the MAC computed under [key2] is accepted and every other one is
    refused. *)
Lemma receiveOrderCallback_round_trip (this : ZaloPay) (p m : string) :
  receiveOrderCallback (H := node_crypto) this p
    (Sha256.hmac_hex (key2 (client this)) p) = Returned success_result
  /\ (m <> Sha256.hmac_hex (key2 (client this)) p ->
      receiveOrderCallback (H := node_crypto) this p m
      = Returned mac_not_equal_result).
Proof.
  unfold receiveOrderCallback. cbn [createHmac_sha256_hex node_crypto].
  rewrite String.eqb_refl. split; [done|].
  intros Hne. by destruct (String.eqb_spec m (Sha256.hmac_hex (key2 (client this)) p)).
Qed.

(** Known answers: the first and last round constants, SHA-256 of "abc"
    (FIPS 180-4) and test case 2 of RFC 4231. *)
Example sha256_round_constants :
  nth 0 Sha256.K 0 = 0x428a2f98 /\ nth 63 Sha256.K 0 = 0xc67178f2
  /\ nth 0 Sha256.H0 0 = 0x6a09e667 /\ nth 7 Sha256.H0 0 = 0x5be0cd19
  /\ length Sha256.K = 64%nat.
Proof. by vm_compute. Qed.

Example sha256_abc :
  Sha256.hex (Sha256.sha256 (Sha256.bytes_of_string "abc"))
  = "ba7816bf8f01cfea414140de5dae2223b00361a396177a9cb410ff61f20015ad".
Proof. by vm_compute. Qed.

Example hmac_sha256_rfc4231_case2 :
  Sha256.hmac_hex "Jefe" "what do ya want for nothing?"
  = "5bdcc146bf60754e6a042426089575c75a003f089d2739839dec58b964ec3843".
Proof. by vm_compute. Qed.

Example hmac_sha256_long_key :
  Sha256.hex (Sha256.hmac (repeat 107 100) (repeat 100 130))
  = "a69a05c4d5c9a309b689086f11142f285de829c9bfa59f0dd2d38abc1da1b8ba".
Proof. by vm_compute. Qed.

Lemma receiveOrderCallback_authenticates_witness :
  receiveOrderCallback (H := node_crypto) (new_ZaloPay (H := merchant_env) 1730000123456)
    "payload" "0000"
  = Returned mac_not_equal_result
  /\ return_code mac_not_equal_result < 0.
Proof.
  apply (proj1 (proj2 (receiveOrderCallback_authenticates
                         (H := node_crypto)
                         (new_ZaloPay (H := merchant_env) 1730000123456)
                         "payload" "0000"))
               (Sha256.hmac_hex "key-two" "payload")).
  - reflexivity.
  - vm_compute. discriminate.
Defined.

(** C7. Two calls of [createOrder] in one process, the second after the
    first. A call returns whenever the hashing and the gateway answer, and
    what it returns is the gateway's answer with the locally built id, the
    one sent in the order, under [app_trans_id]. Of two calls that return,
    both ids match [YYMMDD_<sequence>] with the year, month and day of the
    call; the sequence numbers are the counter after its increment and
    strictly increase; the ids differ. The counter starts at the last six
    digits of the clock. *)
Theorem createOrder_twice `{Crypto} `{OrderItems OrderItem} :
  (forall (E : Env) (now : N),
     orderID (new_ZaloPay now) = (now mod 1000000)%N)
  /\ (forall (this : ZaloPay) (env : PayEnv) (user_id : string)
        (items : list OrderItem),
        (forall data, exists mac,
            createHmac_sha256_hex (key1 (client this)) data = Digest mac) ->
        (forall order, exists res_data,
            axios_post env create_url order = Returned res_data) ->
        exists order res_data,
          axios_post env create_url order = Returned res_data
          /\ order_app_trans_id order
             = date_prefix (new_Date env) +:+ "_" +:+ pretty (orderID this + 1)%N
          /\ createOrder this env user_id items
             = ({| client := client this; orderID := (orderID this + 1)%N |},
                Returned (JObj (js_set "app_trans_id"
                                       (JStr (order_app_trans_id order))
                                       (js_spread res_data)))))
  /\ forall (this this1 mid this2 : ZaloPay) (env1 env2 : PayEnv)
       (user1 user2 : string) (items1 items2 : list OrderItem) (r1 r2 : JsVal),
       valid_date (new_Date env1) -> valid_date (new_Date env2) ->
       createOrder this env1 user1 items1 = (this1, Returned r1) ->
       later_state this1 mid ->
       createOrder mid env2 user2 items2 = (this2, Returned r2) ->
       exists (id1 id2 : string) (n1 n2 : N),
         (exists order res_data,
            axios_post env1 create_url order = Returned res_data
            /\ order_app_trans_id order = id1
            /\ r1 = JObj (js_set "app_trans_id" (JStr id1) (js_spread res_data)))
         /\ (exists order res_data,
               axios_post env2 create_url order = Returned res_data
               /\ order_app_trans_id order = id2
               /\ r2 = JObj (js_set "app_trans_id" (JStr id2) (js_spread res_data)))
         /\ js_get "app_trans_id" r1 = JStr id1
         /\ js_get "app_trans_id" r2 = JStr id2
         /\ is_trans_id id1 = true /\ is_trans_id id2 = true
         /\ trans_id_date id1 = Some (calendar_day (new_Date env1))
         /\ trans_id_date id2 = Some (calendar_day (new_Date env2))
         /\ trans_id_sequence id1 = Some n1
         /\ trans_id_sequence id2 = Some n2
         /\ n1 = (orderID this + 1)%N /\ n2 = (orderID mid + 1)%N
         /\ (n1 < n2)%N
         /\ id1 <> id2.
Proof.
  split; [intros E now; apply seed_is_last_six_digits|]. split.
  { intros this env user_id items Hhash Hpost.
    destruct (createOrder_posts this (new_Date env) (Date_now env) user_id items
                Hhash) as (order & Hrun & _ & Hid & _).
    destruct (Hpost order) as [res_data Hanswer].
    exists order, res_data. split; [exact Hanswer|]. split; [exact Hid|].
    specialize (Hrun (axios_post env)). unfold observed in Hrun.
    destruct env as [date now post]. cbn [new_Date Date_now axios_post] in *.
    rewrite Hrun. unfold answer_with_id. by rewrite Hanswer. }
  intros this this1 mid this2 env1 env2 user1 user2 items1 items2 r1 r2
         Hd1 Hd2 Hc1 Hlater Hc2.
  pose proof (createOrder_state this env1 user1 items1) as Hs1.
  rewrite Hc1 in Hs1. cbn [fst] in Hs1.
  apply later_state_counter in Hlater. rewrite Hs1 in Hlater.
  cbn [orderID] in Hlater.
  apply createOrder_returned in Hc1 as (o1 & d1 & Hp1 & Hid1 & ->).
  apply createOrder_returned in Hc2 as (o2 & d2 & Hp2 & Hid2 & ->).
  destruct (date_prefix_six_digits _ Hd1) as [Hl1 Ha1].
  destruct (date_prefix_six_digits _ Hd2) as [Hl2 Ha2].
  pose proof (trans_id_sequence_make _ (orderID this + 1)%N Hl1 Ha1) as Hseq1.
  pose proof (trans_id_sequence_make _ (orderID mid + 1)%N Hl2 Ha2) as Hseq2.
  pose proof (trans_id_date_make _ (orderID this + 1)%N Hd1) as Hdate1.
  pose proof (trans_id_date_make _ (orderID mid + 1)%N Hd2) as Hdate2.
  rewrite <- Hid1 in Hseq1, Hdate1. rewrite <- Hid2 in Hseq2, Hdate2.
  exists (order_app_trans_id o1), (order_app_trans_id o2),
         (orderID this + 1)%N, (orderID mid + 1)%N.
  split; [by exists o1, d1|]. split; [by exists o2, d2|].
  cbn [js_get]. rewrite !assoc_js_set. cbn [default].
  do 2 (split; [done|]).
  split; [unfold trans_id_sequence in Hseq1; by destruct (is_trans_id _)|].
  split; [unfold trans_id_sequence in Hseq2; by destruct (is_trans_id _)|].
  do 6 (split; [done|]).
  split; [lia|].
  intros Heq. rewrite Heq, Hseq2 in Hseq1. injection Hseq1. lia.
Qed.

Lemma createOrder_twice_witness :
  let this := @new_ZaloPay merchant_env 1730000123456 in
  let first :=
    @createOrder node_crypto CartItem cart_items this (accepting_day 5)
                 "user-1" one_month in
  let second :=
    @createOrder node_crypto CartItem cart_items (fst first) (accepting_day 6)
                 "user-1" one_month in
  exists (r1 r2 : JsVal) (id1 id2 : string) (n1 n2 : N),
    snd first = Returned r1 /\ snd second = Returned r2
    /\ js_get "app_trans_id" r1 = JStr id1
    /\ js_get "app_trans_id" r2 = JStr id2
    /\ trans_id_date id1 = Some (26, 11, 5)%N
    /\ trans_id_date id2 = Some (26, 11, 6)%N
    /\ trans_id_sequence id1 = Some n1
    /\ trans_id_sequence id2 = Some n2
    /\ (n1 < n2)%N /\ id1 <> id2.
Proof.
  intros this first second.
  pose proof (@createOrder_twice node_crypto CartItem cart_items)
    as (_ & Hreturns & Htwice).
  assert (forall key data, exists mac,
             @createHmac_sha256_hex node_crypto key data = Digest mac)
    as Hhash by (intros key data; eexists; reflexivity).
  destruct (Hreturns this (accepting_day 5) "user-1" one_month
              (Hhash _) ltac:(intros order; eexists; reflexivity))
    as (o1 & d1 & _ & _ & Hfirst).
  destruct (Hreturns (fst first) (accepting_day 6) "user-1" one_month
              (Hhash _) ltac:(intros order; eexists; reflexivity))
    as (o2 & d2 & _ & _ & Hsecond).
  fold first in Hfirst. fold second in Hsecond.
  destruct (Htwice this (fst first) (fst first) (fst second)
              (accepting_day 5) (accepting_day 6)
              "user-1" "user-1" one_month one_month
              (JObj (js_set "app_trans_id" (JStr (order_app_trans_id o1))
                            (js_spread d1)))
              (JObj (js_set "app_trans_id" (JStr (order_app_trans_id o2))
                            (js_spread d2))))
    as (id1 & id2 & n1 & n2 & _ & _ & H1 & H2 & _ & _ & Hday1 & Hday2
        & Hn1 & Hn2 & _ & _ & Hlt & Hne).
  - unfold valid_date. simpl. lia.
  - unfold valid_date. simpl. lia.
  - fold first. rewrite Hfirst. reflexivity.
  - apply later_same.
  - fold second. rewrite Hsecond. reflexivity.
  - exists (JObj (js_set "app_trans_id" (JStr (order_app_trans_id o1))
                         (js_spread d1))),
           (JObj (js_set "app_trans_id" (JStr (order_app_trans_id o2))
                         (js_spread d2))), id1, id2, n1, n2.
    rewrite Hfirst, Hsecond. repeat split; assumption.
Defined.

(** C10. [createOrder] steps the counter before it submits the order: when
    the submission is rejected, the rejection reaches the caller and the
    client is left with the incremented counter, so the next order that
    goes through carries the sequence number after the one the failed
    attempt used. *)
Theorem createOrder_rejection_keeps_counter `{Crypto} `{OrderItems OrderItem}
    (this : ZaloPay) (env : PayEnv) (user_id : string) (items : list OrderItem)
    (err : JsVal) :
  (forall data, exists mac,
      createHmac_sha256_hex (key1 (client this)) data = Digest mac) ->
  (forall order, axios_post env create_url order = Thrown err) ->
  createOrder this env user_id items
  = ({| client := client this; orderID := (orderID this + 1)%N |}, Thrown err)
  /\ forall (env2 : PayEnv) (user2 : string) (items2 : list OrderItem)
       (this2 : ZaloPay) (r2 : JsVal),
       createOrder (fst (createOrder this env user_id items)) env2 user2 items2
       = (this2, Returned r2) ->
       js_get "app_trans_id" r2
       = JStr (date_prefix (new_Date env2) +:+ "_" +:+ pretty (orderID this + 2)%N).
Proof.
  intros Hhash Hpost. split.
  - unfold createOrder. cbn [client orderID].
    match goal with
    | |- context [createHmac_sha256_hex _ ?d] => destruct (Hhash d) as [mac ->]
    end.
    by rewrite Hpost.
  - intros env2 user2 items2 this2 r2 Hnext.
    apply createOrder_returned in Hnext as (o & d & _ & Hid & ->).
    rewrite createOrder_state in Hid. cbn [orderID] in Hid.
    cbn [js_get]. rewrite assoc_js_set. cbn [default]. rewrite Hid.
    by replace (orderID this + 1 + 1)%N with (orderID this + 2)%N by lia.
Qed.

Lemma createOrder_rejection_keeps_counter_witness :
  let this := @new_ZaloPay merchant_env 1730000123456 in
  let offline :=
    {| new_Date := new_Date (accepting_day 5); Date_now := 1730000123456;
       axios_post := fun _ _ => Thrown (JError "Network Error") |} in
  @createOrder node_crypto CartItem cart_items this offline "user-1" one_month
  = ({| client := client this; orderID := 123457 |},
     Thrown (JError "Network Error")).
Proof.
  intros this offline.
  refine (proj1 (@createOrder_rejection_keeps_counter
                   node_crypto CartItem cart_items
                   this offline "user-1" one_month (JError "Network Error") _ _)).
  - intros data. eexists. reflexivity.
  - intros order. reflexivity.
Defined.

(** ** Worlds and the handler monad *)

Lemma with_log_same (w : World) : with_log w (log w) = w.
Proof. by destruct w. Qed.

Lemma with_log_twice (w : World) (l l' : list Event) :
  with_log (with_log w l) l' = with_log w l'.
Proof. done. Qed.


Lemma cache_read_record (e : Event) (w : World) (key : string) :
  cache_read (record e w) key = cache_read w key.
Proof. done. Qed.

Lemma redis_get_run (key : string) (w : World) :
  redis_get key w
  = (match redis_get_fault w with
     | Some err => Thrown err
     | None => Returned (cache_read w key)
     end, record (RedisGet key) w).
Proof. unfold redis_get. cbn [redis_get_fault record with_log]. by destruct (redis_get_fault w). Qed.

Lemma supabase_run_run (q : StoreQuery) (w : World) :
  supabase_run q w = (supabase w q, record (StoreCall q) w).
Proof. done. Qed.

Lemma settle_all_supabase (qs : list StoreQuery) (w : World) :
  settle_all (map supabase_run qs) w
  = (Returned (map (supabase w) qs), with_log w (log w ++ map StoreCall qs)).
Proof.
  revert w. induction qs as [|q qs IH]; intros w.
  - simpl. unfold ret. by rewrite app_nil_r, with_log_same.
  - cbn [map settle_all]. unfold bind at 1. unfold settle at 1.
    cbn [fst snd supabase_run]. unfold bind at 1. rewrite IH.
    unfold ret, record. cbn [supabase log with_log].
    by rewrite <- app_assoc.
Qed.

Lemma Promise_all_supabase (qs : list StoreQuery) (w : World) :
  Promise_all (map supabase_run qs) w
  = (all_returned (map (supabase w) qs),
     with_log w (log w ++ map StoreCall qs)).
Proof.
  unfold Promise_all, bind. rewrite settle_all_supabase.
  by destruct (all_returned _).
Qed.

(** ** The search handlers, case by case *)

(** The steps shared by the proofs about the part of [searchDefault] that
    queries the record store. *)
Ltac finish_run :=
  unfold bind, detach, respond, member, ret,
         cloudinary_upload, cloudinary_delete, backblaze_deleteObject,
         record, with_log;
  cbn [log supabase redis clock redis_get_fault redis_set_fault
       status json Z.eqb Pos.eqb andb fst snd fresh_category_response];
  rewrite <- ?app_assoc; done.

Ltac run_default_queries :=
  unfold try_catch; unfold bind at 1;
  rewrite Promise_all_supabase;
  unfold fresh_default_response;
  cbn [supabase record with_log log];
  match goal with
  | |- context [all_returned ?os] =>
      destruct (all_returned os) as [?results|?err]; [|finish_run]
  end;
  match goal with
  | results : list QueryResult |- _ =>
      fold (default_errors results); fold (default_payload results);
      destruct (negb (length (default_errors results) =? 0)%nat); finish_run
  end.

Section Search.
Context `{Utils}.

Lemma searchDefault_admin (req : Request) (w : World) :
  is_admin (enforceRole (authorization req)) = true ->
  searchDefault req w
  = (Returned (fresh_default_response
                 (map (supabase w) (default_queries (params_term req)))),
     with_log w (log w ++ map StoreCall (default_queries (params_term req)))).
Proof.
  intros Hrole. unfold searchDefault. rewrite Hrole. cbn [negb].
  run_default_queries.
Qed.

Lemma searchDefault_get_fault (req : Request) (w : World) (err : JsVal) :
  is_admin (enforceRole (authorization req)) = false ->
  redis_get_fault w = Some err ->
  searchDefault req w
  = (Thrown err, record (RedisGet (default_key (params_term req))) w).
Proof.
  intros Hrole Hfault. unfold searchDefault. rewrite Hrole. cbn [negb].
  unfold bind at 1. by rewrite redis_get_run, Hfault.
Qed.

Lemma searchDefault_hit (req : Request) (w : World) :
  is_admin (enforceRole (authorization req)) = false ->
  redis_get_fault w = None ->
  truthy (cache_read w (default_key (params_term req))) = true ->
  searchDefault req w
  = (Returned {| status := 200;
                 json := cache_read w (default_key (params_term req)) |},
     record (RedisGet (default_key (params_term req))) w).
Proof.
  intros Hrole Hfault Hhit. unfold searchDefault. rewrite Hrole. cbn [negb].
  unfold bind at 1. rewrite redis_get_run, Hfault.
  fold (default_key (params_term req)). by rewrite Hhit.
Qed.

Lemma searchDefault_miss (req : Request) (w : World) :
  is_admin (enforceRole (authorization req)) = false ->
  redis_get_fault w = None ->
  truthy (cache_read w (default_key (params_term req))) = false ->
  let key := default_key (params_term req) in
  let qs := default_queries (params_term req) in
  let fresh := fresh_default_response (map (supabase w) qs) in
  let w1 := with_log w (log w ++ RedisGet key :: map StoreCall qs) in
  searchDefault req w
  = (Returned fresh,
     if status fresh =? 200 then snd (redis_set key (json fresh) 300 w1) else w1).
Proof.
  intros Hrole Hfault Hmiss key qs fresh w1.
  unfold searchDefault. rewrite Hrole. cbn [negb].
  unfold bind at 1. rewrite redis_get_run, Hfault.
  fold (default_key (params_term req)). rewrite Hmiss.
  subst fresh w1 qs key.
  run_default_queries.
Qed.

Lemma search_category_admin (category : string) (default_limit : Z)
    (query : string -> Z * Z -> StoreQuery) (req : Request) (w : World) :
  is_admin (enforceRole (authorization req)) = true ->
  let q := query (params_term req) (page_range req default_limit) in
  search_category category default_limit query req w
  = (fresh_category_response (supabase w q), with_log w (log w ++ [StoreCall q])).
Proof.
  intros Hrole q. unfold search_category. rewrite Hrole. cbn [negb].
  fold (page_range req default_limit). fold q.
  unfold bind at 1, supabase_run.
  destruct (supabase w q) as [r|err]; [|done]. cbn [fresh_category_response].
  destruct (truthy (error r)); finish_run.
Qed.

Lemma search_category_get_fault (category : string) (default_limit : Z)
    (query : string -> Z * Z -> StoreQuery) (req : Request) (w : World)
    (err : JsVal) :
  is_admin (enforceRole (authorization req)) = false ->
  redis_get_fault w = Some err ->
  search_category category default_limit query req w
  = (Thrown err, record (RedisGet (request_key category default_limit req)) w).
Proof.
  intros Hrole Hfault. unfold search_category. rewrite Hrole. cbn [negb].
  unfold bind at 1. by rewrite redis_get_run, Hfault.
Qed.

Lemma search_category_hit (category : string) (default_limit : Z)
    (query : string -> Z * Z -> StoreQuery) (req : Request) (w : World) :
  is_admin (enforceRole (authorization req)) = false ->
  redis_get_fault w = None ->
  let key := request_key category default_limit req in
  truthy (cache_read w key) = true ->
  search_category category default_limit query req w
  = (Returned {| status := 200; json := cache_read w key |},
     record (RedisGet key) w).
Proof.
  intros Hrole Hfault key Hhit. unfold search_category. rewrite Hrole. cbn [negb].
  unfold bind at 1. rewrite redis_get_run, Hfault.
  fold (category_key category (params_term req)
          (number_or (query_page req) 1)
          (number_or (query_limit req) default_limit)).
  fold (request_key category default_limit req). fold key. by rewrite Hhit.
Qed.

Lemma search_category_miss (category : string) (default_limit : Z)
    (query : string -> Z * Z -> StoreQuery) (req : Request) (w : World) :
  is_admin (enforceRole (authorization req)) = false ->
  redis_get_fault w = None ->
  let key := request_key category default_limit req in
  let q := query (params_term req) (page_range req default_limit) in
  let w1 := with_log w (log w ++ [RedisGet key; StoreCall q]) in
  truthy (cache_read w key) = false ->
  search_category category default_limit query req w
  = (fresh_category_response (supabase w q),
     match supabase w q with
     | Returned r =>
         if truthy (error r) then w1 else snd (redis_set key (data r) 300 w1)
     | Thrown _ => w1
     end).
Proof.
  intros Hrole Hfault key q w1 Hmiss. unfold search_category.
  rewrite Hrole. cbn [negb].
  unfold bind at 1. rewrite redis_get_run, Hfault.
  fold (category_key category (params_term req)
          (number_or (query_page req) 1)
          (number_or (query_limit req) default_limit)).
  fold (request_key category default_limit req). fold key. rewrite Hmiss.
  fold (page_range req default_limit). fold q.
  unfold bind at 1, supabase_run. cbn [supabase record with_log].
  subst w1.
  destruct (supabase w q) as [r|err]; [|finish_run].
  cbn [fresh_category_response].
  destruct (truthy (error r)); finish_run.
Qed.

End Search.

(** ** The cached song reads, case by case *)

Lemma getAllSongs_get_fault (req : Request) (w : World) (err : JsVal) :
  redis_get_fault w = Some err ->
  getAllSongs req w = (Thrown err, record (RedisGet (songs_page_key req)) w).
Proof.
  intros Hfault. unfold getAllSongs, bind at 1.
  by rewrite redis_get_run, Hfault.
Qed.

Lemma getSongByID_get_fault (req : Request) (w : World) (err : JsVal) :
  redis_get_fault w = Some err ->
  getSongByID req w = (Thrown err, record (RedisGet (song_id_key req)) w).
Proof.
  intros Hfault. unfold getSongByID, bind at 1.
  by rewrite redis_get_run, Hfault.
Qed.

Lemma getAllSongs_outcome (req : Request) (w : World) :
  fst (getAllSongs req w)
  = read_through w (songs_page_key req)
      (fresh_category_response
         (supabase w (select_from "songs" None [] (Some (page_range req 10)) false))).
Proof.
  unfold getAllSongs, read_through. unfold bind at 1. rewrite redis_get_run.
  destruct (redis_get_fault w); [done|].
  fold (songs_page_key req).
  destruct (truthy (cache_read w (songs_page_key req))); [done|].
  unfold bind at 1, supabase_run. cbn [supabase record with_log].
  fold (page_range req 10).
  destruct (supabase w _) as [r|err]; [|done]. cbn [fresh_category_response].
  destruct (truthy (error r)); finish_run.
Qed.

Lemma getSongByID_outcome (req : Request) (w : World) :
  fst (getSongByID req w)
  = read_through w (song_id_key req)
      (fresh_category_response
         (supabase w (select_from "songs" None [IsEq "id" (params_id req)] None true))).
Proof.
  unfold getSongByID, read_through. unfold bind at 1. rewrite redis_get_run.
  destruct (redis_get_fault w); [done|].
  fold (song_id_key req).
  destruct (truthy (cache_read w (song_id_key req))); [done|].
  unfold bind at 1, supabase_run. cbn [supabase record with_log].
  destruct (supabase w _) as [r|err]; [|done]. cbn [fresh_category_response].
  destruct (truthy (error r)); finish_run.
Qed.

Section SearchOutcomes.
Context `{Utils}.

Lemma searchDefault_outcome (req : Request) (w : World) :
  fst (searchDefault req w)
  = let fresh :=
      Returned (fresh_default_response
                  (map (supabase w) (default_queries (params_term req)))) in
    if is_admin (enforceRole (authorization req)) then fresh
    else read_through w (default_key (params_term req)) fresh.
Proof.
  cbn zeta. unfold read_through.
  destruct (is_admin (enforceRole (authorization req))) eqn:Hrole.
  - by rewrite searchDefault_admin.
  - destruct (redis_get_fault w) as [err|] eqn:Hfault.
    + by rewrite (searchDefault_get_fault _ _ err).
    + destruct (truthy (cache_read w (default_key (params_term req)))) eqn:Hc.
      * by rewrite searchDefault_hit.
      * by rewrite searchDefault_miss.
Qed.

Lemma search_category_outcome (category : string) (default_limit : Z)
    (query : string -> Z * Z -> StoreQuery) (req : Request) (w : World) :
  fst (search_category category default_limit query req w)
  = let fresh :=
      fresh_category_response
        (supabase w (query (params_term req) (page_range req default_limit))) in
    if is_admin (enforceRole (authorization req)) then fresh
    else read_through w (request_key category default_limit req) fresh.
Proof.
  cbn zeta. unfold read_through.
  destruct (is_admin (enforceRole (authorization req))) eqn:Hrole.
  - by rewrite search_category_admin.
  - destruct (redis_get_fault w) as [err|] eqn:Hfault.
    + by rewrite (search_category_get_fault _ _ _ _ _ err).
    + destruct (truthy (cache_read w (request_key category default_limit req)))
        eqn:Hc.
      * by rewrite search_category_hit.
      * by rewrite search_category_miss.
Qed.

End SearchOutcomes.

(** ** Caching policy *)

Lemma no_cache_call_among_store_calls (qs : list StoreQuery) :
  List.filter is_cache_call (map StoreCall qs) = [].
Proof. induction qs as [|q qs IH]; [done|]. simpl. exact IH. Qed.

(** C4. For a caller whose role is [Admin], each of the six search handlers
    leaves the cache as it is, makes no call to the cache, queries the
    record store, and answers from what the record store returned. *)
Theorem admin_search_is_live `{Utils} (req : Request) (w : World) :
  enforceRole (authorization req) = "Admin" ->
  let live (handler : Request -> M Response) (qs : list StoreQuery)
           (fresh : Outcome Response) : Prop :=
    handler req w = (fresh, with_log w (log w ++ map StoreCall qs))
    /\ redis (snd (handler req w)) = redis w
    /\ List.filter is_cache_call (map StoreCall qs) = []
    /\ qs <> [] in
  let term := params_term req in
  let one (query : string -> Z * Z -> StoreQuery) (default_limit : Z) :=
    query term (page_range req default_limit) in
  live searchDefault (default_queries term)
       (Returned (fresh_default_response
                    (map (supabase w) (default_queries term))))
  /\ live searchSongs [one songs_query 20]
          (fresh_category_response (supabase w (one songs_query 20)))
  /\ live searchArtists [one artists_query 30]
          (fresh_category_response (supabase w (one artists_query 30)))
  /\ live searchUsers [one users_query 30]
          (fresh_category_response (supabase w (one users_query 30)))
  /\ live searchPlaylists [one playlists_query 30]
          (fresh_category_response (supabase w (one playlists_query 30)))
  /\ live searchAlbums [one albums_query 30]
          (fresh_category_response (supabase w (one albums_query 30))).
Proof.
  intros Hrole live term one.
  assert (is_admin (enforceRole (authorization req)) = true) as Hadmin
    by (by rewrite Hrole).
  assert (forall category default_limit query,
             live (search_category category default_limit query)
                  [one query default_limit]
                  (fresh_category_response (supabase w (one query default_limit))))
    as Hcat.
  { intros category default_limit query. unfold live.
    rewrite search_category_admin by done.
    split; [done|]. split; [done|]. split; [done|]. done. }
  repeat split; try apply Hcat; try done.
  - by apply searchDefault_admin.
  - by rewrite searchDefault_admin.
Qed.

Lemma admin_search_is_live_witness :
  let req := {| params_id := ""; params_term := "hello";
                query_page := Some 2; query_limit := None;
                authorization := Some "Admin"; body := ∅; file := None |} in
  @searchSongs header_role req (quiet_world hello_store)
  = (Returned {| status := 200; json := data_body hello_rows |},
     with_log (quiet_world hello_store)
              [StoreCall (songs_query "hello" (20, 39))]).
Proof.
  intros req.
  exact (proj1 (proj1 (proj2 (@admin_search_is_live header_role req
                                (quiet_world hello_store) eq_refl)))).
Defined.

(** C8, as stated, fails: with the cache store out of reach, the song list
    and the default search of a non-privileged caller end in the cache's
    exception, with no answer and no query to the record store. *)
Lemma cache_outage_fails_request :
  fst (getAllSongs plain_request (outage_world hello_store)) = Thrown outage_error
  /\ List.filter is_store_call
       (log (snd (getAllSongs plain_request (outage_world hello_store)))) = []
  /\ fst (@searchDefault header_role plain_request (outage_world hello_store))
     = Thrown outage_error
  /\ List.filter is_store_call
       (log (snd (@searchDefault header_role plain_request
                    (outage_world hello_store)))) = [].
Proof. vm_compute. done. Qed.

(** C8, amended. For every read that consults the cache (the song list, the
    song by id, and the six searches for a caller who is not [Admin]), a
    failing cache read is not caught: the handler ends in the cache's
    exception after that one call, without asking the record store. A
    failing cache write, which is not awaited, changes nothing in how the
    handler ends. *)
Theorem cache_failure_behaviour `{Utils} (req : Request) (w : World) (err : JsVal) :
  redis_get_fault w = Some err ->
  let rejects (handler : Request -> M Response) (key : string) : Prop :=
    handler req w = (Thrown err, record (RedisGet key) w) in
  let write_unobserved (handler : Request -> M Response) : Prop :=
    forall (w' : World) (fault : option JsVal),
      fst (handler req (with_set_fault w' fault)) = fst (handler req w') in
  (rejects getAllSongs (songs_page_key req)
   /\ rejects getSongByID (song_id_key req)
   /\ (is_admin (enforceRole (authorization req)) = false ->
       rejects searchDefault (default_key (params_term req))
       /\ rejects searchSongs (request_key "songs" 20 req)
       /\ rejects searchArtists (request_key "artists" 30 req)
       /\ rejects searchUsers (request_key "users" 30 req)
       /\ rejects searchPlaylists (request_key "playlists" 30 req)
       /\ rejects searchAlbums (request_key "albums" 30 req)))
  /\ (write_unobserved getAllSongs
      /\ write_unobserved getSongByID
      /\ write_unobserved searchDefault
      /\ write_unobserved searchSongs
      /\ write_unobserved searchArtists
      /\ write_unobserved searchUsers
      /\ write_unobserved searchPlaylists
      /\ write_unobserved searchAlbums).
Proof.
  intros Hfault rejects write_unobserved. split.
  - split; [by apply getAllSongs_get_fault|].
    split; [by apply getSongByID_get_fault|].
    intros Hrole.
    split; [by apply searchDefault_get_fault|].
    repeat split; by apply search_category_get_fault.
  - assert (forall category default_limit query,
               write_unobserved (search_category category default_limit query))
      as Hcat.
    { intros category default_limit query w' fault.
      by rewrite !search_category_outcome. }
    split; [intros w' fault; by rewrite !getAllSongs_outcome|].
    split; [intros w' fault; by rewrite !getSongByID_outcome|].
    split; [intros w' fault; by rewrite !searchDefault_outcome|].
    repeat split; apply Hcat.
Qed.

Lemma cache_failure_behaviour_witness :
  getSongByID plain_request (outage_world hello_store)
  = (Thrown outage_error,
     record (RedisGet "songs?id=7") (outage_world hello_store)).
Proof.
  exact (proj1 (proj2 (proj1 (@cache_failure_behaviour header_role plain_request
                                (outage_world hello_store) outage_error
                                eq_refl)))).
Defined.

Lemma cache_read_after_set (w w2 : World) (key : string) (value : JsVal) (ex : N) :
  redis_set_fault w = None ->
  redis w2 = redis (snd (redis_set key value ex w)) ->
  (clock w2 < clock w + ex)%N ->
  cache_read w2 key = value.
Proof.
  intros Hfault Hredis Hclock. unfold cache_read. rewrite Hredis.
  unfold redis_set. cbn [redis_set_fault record with_log]. rewrite Hfault.
  cbn [snd with_redis redis clock]. rewrite lookup_insert_eq.
  change (clock (record _ w)) with (clock w).
  apply N.ltb_lt in Hclock. by rewrite Hclock.
Qed.

Lemma fresh_default_body_truthy (os : list (Outcome QueryResult)) :
  truthy (json (fresh_default_response os)) = true.
Proof.
  unfold fresh_default_response.
  destruct (all_returned os) as [results|err]; [|done].
  by destruct (negb _).
Qed.

(** The default search keeps its promise: within 300 seconds of a miss that
    was answered with 200, a caller who is not [Admin] gets the same body
    again, whatever the record store would answer by then, and the record
    store is not asked. *)
Lemma searchDefault_replays_miss `{Utils} (req : Request) (w w2 : World) :
  is_admin (enforceRole (authorization req)) = false ->
  redis_get_fault w = None -> redis_set_fault w = None ->
  redis_get_fault w2 = None ->
  truthy (cache_read w (default_key (params_term req))) = false ->
  (exists body, fst (searchDefault req w)
                = Returned {| status := 200; json := body |}) ->
  redis w2 = redis (snd (searchDefault req w)) ->
  (clock w2 < clock w + 300)%N ->
  searchDefault req w2
  = (fst (searchDefault req w),
     record (RedisGet (default_key (params_term req))) w2).
Proof.
  intros Hrole Hget Hset Hget2 Hmiss [body Hbody] Hredis Hclock.
  rewrite (searchDefault_miss req w) in Hredis, Hbody |- * by done.
  cbn [fst snd] in *.
  set (fresh := fresh_default_response _) in *.
  pose proof (fresh_default_body_truthy
                (map (supabase w) (default_queries (params_term req)))) as Htruthy.
  fold fresh in Htruthy. clearbody fresh.
  injection Hbody as ->. cbn [status json Z.eqb Pos.eqb] in Hredis, Htruthy.
  assert (cache_read w2 (default_key (params_term req)) = body) as Hread.
  { apply (cache_read_after_set
             (with_log w (log w ++ RedisGet (default_key (params_term req))
                                :: map StoreCall (default_queries (params_term req))))
             w2 _ _ 300); [exact Hset|exact Hredis|exact Hclock]. }
  rewrite searchDefault_hit; rewrite ?Hread; done.
Qed.

(** The per-category searches do not: what a miss writes to the cache is
    the rows, while what it answers is the rows under [data]; the hit that
    follows answers with the bare rows. *)
Lemma search_category_hit_unwraps `{Utils} (category : string) (default_limit : Z)
    (query : string -> Z * Z -> StoreQuery) (req : Request) (w w2 : World)
    (rows : list JsVal) :
  let handler := search_category category default_limit query in
  let key := request_key category default_limit req in
  is_admin (enforceRole (authorization req)) = false ->
  redis_get_fault w = None -> redis_set_fault w = None ->
  redis_get_fault w2 = None ->
  truthy (cache_read w key) = false ->
  supabase w (query (params_term req) (page_range req default_limit))
  = Returned {| data := JArr rows; error := JNull |} ->
  redis w2 = redis (snd (handler req w)) ->
  (clock w2 < clock w + 300)%N ->
  fst (handler req w)
  = Returned {| status := 200; json := JObj [("data", JArr rows)] |}
  /\ handler req w2
     = (Returned {| status := 200; json := JArr rows |},
        record (RedisGet key) w2).
Proof.
  intros handler key Hrole Hget Hset Hget2 Hmiss Hstore Hredis Hclock.
  subst handler. rewrite (search_category_miss _ _ _ req w) in Hredis |- * by done.
  rewrite Hstore in Hredis |- *. cbn [fst snd error data truthy] in *.
  split; [done|].
  assert (cache_read w2 key = JArr rows) as Hread.
  { eapply (cache_read_after_set _ w2 _ _ 300); [|exact Hredis|exact Hclock].
    exact Hset. }
  rewrite search_category_hit; fold key; rewrite ?Hread; done.
Qed.

(** C2 at a concrete input: a caller with role [User] searches songs for
    "hello" twice, ten seconds apart, with the cache and the record store
    working. The first answer is the object [{ data: rows }], the second,
    served from the cache without asking the record store, is the array
    [rows]: the two bodies are different bytes from the first one on. *)
Theorem searchSongs_hit_differs_from_miss :
  let w0 := quiet_world hello_store in
  let first := @searchSongs header_role plain_request w0 in
  let w1 := later (with_log (snd first) []) 10 in
  let second := @searchSongs header_role plain_request w1 in
  fst first = Returned {| status := 200; json := JObj [("data", hello_rows)] |}
  /\ fst second = Returned {| status := 200; json := hello_rows |}
  /\ log (snd second)
     = [RedisGet "searches?cat=songs&term=hello&page=1&limit=20"]
  /\ first_byte (JObj [("data", hello_rows)]) = Some "{"
  /\ first_byte hello_rows = Some "["
  /\ JSON_stringify (JObj [("data", hello_rows)]) <> JSON_stringify hello_rows.
Proof. vm_compute. repeat split; discriminate. Qed.

(** ** Errors of the default search *)

Lemma all_returned_map_Returned {A} (l : list A) :
  all_returned (map Returned l) = Returned l.
Proof. induction l as [|a l IH]; [done|]. simpl. by rewrite IH. Qed.

Lemma default_errors_five (r1 r2 r3 r4 r5 : QueryResult) :
  default_errors [r1; r2; r3; r4; r5]
  = List.filter truthy (map error [r1; r2; r3; r4; r5]).
Proof. done. Qed.

Lemma filter_map_commute {A B} (f : A -> B) (p : B -> bool) (l : list A) :
  List.filter p (map f l) = map f (List.filter (fun a => p (f a)) l).
Proof.
  induction l as [|a l IH]; [done|]. simpl.
  destruct (p (f a)); simpl; by rewrite IH.
Qed.

Lemma filter_nonempty {A} (p : A -> bool) (l : list A) :
  Exists (fun a => p a = true) l -> List.filter p l <> [].
Proof.
  induction 1 as [a l Ha|a l _ IH]; simpl.
  - by rewrite Ha.
  - by destruct (p a).
Qed.

(** C5. When the five queries of a default search are issued and one or
    more of them resolve with an error, the answer is a 500 whose [error]
    is the list of the messages of exactly the failing queries, in order;
    it has no [data], nothing is written to the cache, and with one failing
    query the list has one entry. *)
Theorem searchDefault_aggregates_errors `{Utils}
    (req : Request) (w : World) (results : list QueryResult) :
  let failing := List.filter (fun r => truthy (error r)) results in
  let messages := map (fun r => js_get "message" (error r)) failing in
  (is_admin (enforceRole (authorization req)) = true
   \/ (redis_get_fault w = None
       /\ truthy (cache_read w (default_key (params_term req))) = false)) ->
  map (supabase w) (default_queries (params_term req)) = map Returned results ->
  Exists (fun r => truthy (error r) = true) results ->
  fst (searchDefault req w)
  = Returned {| status := 500; json := JObj [("error", JArr messages)] |}
  /\ js_get "data" (JObj [("error", JArr messages)]) = JUndefined
  /\ redis (snd (searchDefault req w)) = redis w
  /\ length messages = length failing
  /\ (forall r, failing = [r] -> messages = [js_get "message" (error r)]).
Proof.
  intros failing messages Hissued Hanswers Hfails.
  assert (length results = 5%nat) as Hlen.
  { apply (f_equal length) in Hanswers. by rewrite !length_map in Hanswers. }
  destruct results as [|r1 [|r2 [|r3 [|r4 [|r5 [|]]]]]]; try discriminate Hlen.
  assert (fresh_default_response
            (map (supabase w) (default_queries (params_term req)))
          = {| status := 500; json := JObj [("error", JArr messages)] |}) as Hfresh.
  { unfold fresh_default_response.
    rewrite Hanswers, all_returned_map_Returned, default_errors_five.
    rewrite filter_map_commute, length_map, map_map.
    pose proof (filter_nonempty _ _ Hfails) as Hne.
    subst messages failing.
    by destruct (List.filter _ _). }
  split; [|split; [done|split; [|split]]].
  - rewrite searchDefault_outcome. cbn zeta. rewrite Hfresh.
    destruct Hissued as [->|[Hget Hmiss]]; [done|].
    destruct (is_admin _); [done|].
    unfold read_through. by rewrite Hget, Hmiss.
  - destruct Hissued as [Hrole|[Hget Hmiss]].
    + by rewrite searchDefault_admin.
    + destruct (is_admin (enforceRole (authorization req))) eqn:Hrole.
      * by rewrite searchDefault_admin.
      * rewrite searchDefault_miss by done. cbn [snd]. by rewrite Hfresh.
  - subst messages. by rewrite length_map.
  - intros r Hr. subst messages. by rewrite Hr.
Qed.

Lemma searchDefault_aggregates_errors_witness :
  fst (@searchDefault header_role plain_request (quiet_world artists_down_store))
  = Returned {| status := 500;
                json := JObj [("error", JArr [JStr "relation is locked"])] |}.
Proof.
  refine (proj1 (@searchDefault_aggregates_errors header_role plain_request
                   (quiet_world artists_down_store)
                   [ {| data := JArr []; error := JNull |};
                     {| data := JNull;
                        error := JObj [("message", JStr "relation is locked")] |};
                     {| data := JArr []; error := JNull |};
                     {| data := JArr []; error := JNull |};
                     {| data := JArr []; error := JNull |} ] _ _ _)).
  - right. split; reflexivity.
  - reflexivity.
  - apply Exists_cons_tl, Exists_cons_hd. reflexivity.
Defined.

(** ** Sparse updates *)

Lemma lookup_spread_if (k k' : string) (v : JsVal) (m : gmap string JsVal) :
  spread_if k' v m !! k
  = if decide (k' = k) then (if truthy v then Some v else m !! k) else m !! k.
Proof.
  unfold spread_if. destruct (truthy v); [apply lookup_insert|].
  by case_decide.
Qed.

Lemma keep_truthy_supplied (req : Request) (k : string) :
  keep_truthy (supplied req k)
  = if truthy (field req k) then Some (field req k) else None.
Proof.
  unfold keep_truthy, supplied, field.
  destruct (body req !! k) as [v|]; [|done]. by destruct v.
Qed.

(** Case analysis on which literal field name, if any, [k] is. *)
Ltac split_on_field k :=
  repeat match goal with
    | |- context [decide (?a = k)] =>
        destruct (decide (a = k)) as [<-|?Hne];
        [ repeat (case_decide; try discriminate);
          cbn [String.eqb Ascii.eqb Bool.eqb orb andb existsb];
          repeat (destruct (truthy _); try done)
        | apply String.eqb_neq in Hne; rewrite String.eqb_sym in Hne;
          rewrite ?Hne; clear Hne ]
    end.

Lemma song_update_payload_lookup (req : Request) (k : string) :
  song_update_payload req !! k
  = if existsb (String.eqb k) song_fields then keep_truthy (supplied req k) else None.
Proof.
  unfold song_update_payload. rewrite !lookup_spread_if, lookup_empty.
  rewrite keep_truthy_supplied. cbn [existsb song_fields].
  split_on_field k. done.
Qed.

Lemma wire_payload_lookup (payload : gmap string JsVal) (k : string) :
  wire_payload payload !! k
  = match payload !! k with
    | Some v => if is_undefined v then None else Some v
    | None => None
    end.
Proof.
  unfold wire_payload. destruct (payload !! k) as [v|] eqn:Hk.
  - destruct (is_undefined v) eqn:Hv.
    + apply map_lookup_filter_None. right. intros v' Hv'. simpl.
      rewrite Hk in Hv'. injection Hv' as <-. by rewrite Hv.
    + apply map_lookup_filter_Some. by split.
  - apply map_lookup_filter_None. by left.
Qed.

Lemma artist_object_lookup (req : Request) (k : string) :
  artist_payload req !! k
  = if String.eqb k "name" then Some (field req "name")
    else if existsb (String.eqb k) artist_optional_fields
         then keep_truthy (supplied req k) else None.
Proof.
  unfold artist_payload.
  rewrite !lookup_spread_if, lookup_insert, lookup_empty.
  rewrite keep_truthy_supplied. cbn [existsb artist_optional_fields].
  split_on_field k; done.
Qed.

Lemma keep_truthy_defined (o : option JsVal) (v : JsVal) :
  keep_truthy o = Some v -> is_undefined v = false.
Proof.
  destruct o as [u|]; [|done]. simpl.
  destruct (truthy u) eqn:Hu; [|done]. intros [= <-]. by destruct u.
Qed.

Lemma artist_payload_lookup (req : Request) (k : string) :
  wire_payload (artist_payload req) !! k
  = if String.eqb k "name" then supplied req "name"
    else if existsb (String.eqb k) artist_optional_fields
         then keep_truthy (supplied req k) else None.
Proof.
  rewrite wire_payload_lookup, artist_object_lookup.
  destruct (String.eqb k "name").
  - unfold supplied, field. by destruct (body req !! "name").
  - destruct (existsb _ _); [|done].
    destruct (keep_truthy (supplied req k)) as [v|] eqn:Hv; [|done].
    by rewrite (keep_truthy_defined _ _ Hv).
Qed.

Lemma song_payload_on_wire (req : Request) :
  wire_payload (song_update_payload req) = song_update_payload req.
Proof.
  apply map_eq. intros k. rewrite wire_payload_lookup.
  destruct (song_update_payload req !! k) as [v|] eqn:Hv; [|done].
  rewrite song_update_payload_lookup in Hv.
  destruct (existsb _ _); [|done].
  by rewrite (keep_truthy_defined _ _ Hv).
Qed.

Lemma updateSong_query (req : Request) (w : World) :
  exists rest,
    log (snd (updateSong req w))
    = log w ++ StoreCall (update_query "songs" (params_id req)
                                       (song_update_payload req)) :: rest.
Proof.
  unfold updateSong, bind at 1, supabase_run.
  fold (update_query "songs" (params_id req) (song_update_payload req)).
  destruct (supabase w _) as [r|err]; [|by exists []].
  destruct (truthy (error r)); [by exists []|].
  destruct (file req) as [f|].
  - exists [CloudinaryUpload f "songs" (JStr (params_id req))]. finish_run.
  - exists []. finish_run.
Qed.

Lemma updateArtist_query (req : Request) (w : World) :
  exists rest,
    log (snd (updateArtist req w))
    = log w ++ StoreCall (update_query "artists" (params_id req)
                                       (artist_payload req)) :: rest.
Proof.
  unfold updateArtist, bind at 1, supabase_run.
  fold (update_query "artists" (params_id req) (artist_payload req)).
  destruct (supabase w _) as [r|err]; [|by exists []].
  destruct (truthy (error r)); [by exists []|].
  destruct (file req) as [f|].
  - exists [CloudinaryUpload f "artists" (JStr (params_id req))]. finish_run.
  - exists []. finish_run.
Qed.

(** C3, as stated, fails: a request that supplies [views: 0] to
    [updateSong] sends an empty payload, so the supplied field is not among
    the fields sent and the row keeps its old view count. *)
Lemma falsy_supplied_field_not_sent :
  supplied reset_views_request "views" = Some (JNum 0)
  /\ song_update_payload reset_views_request !! "views" = None
  /\ song_update_payload reset_views_request = ∅
  /\ store_update hello_row (song_update_payload reset_views_request) !! "views"
     = Some (JNum 41).
Proof. vm_compute. done. Qed.

(** C3, amended. The payload [updateSong] sends holds, of the seven fields
    it reads, exactly those supplied with a truthy value; the payload
    [updateArtist] sends holds [name] whenever it is supplied, whatever its
    value, and of the other three fields exactly those supplied with a
    truthy value. A field the request does not supply is in neither
    payload, so the update leaves it as it is in the row. *)
Theorem sparse_update_payload
    (req : Request) (w : World) (row : gmap string JsVal) (k : string) :
  (exists rest,
      log (snd (updateSong req w))
      = log w ++ StoreCall (update_query "songs" (params_id req)
                                         (song_update_payload req)) :: rest)
  /\ (exists rest,
         log (snd (updateArtist req w))
         = log w ++ StoreCall (update_query "artists" (params_id req)
                                            (artist_payload req)) :: rest)
  /\ wire_payload (song_update_payload req) !! k
     = (if existsb (String.eqb k) song_fields
        then keep_truthy (supplied req k) else None)
  /\ wire_payload (artist_payload req) !! k
     = (if String.eqb k "name" then supplied req "name"
        else if existsb (String.eqb k) artist_optional_fields
             then keep_truthy (supplied req k) else None)
  /\ (supplied req k = None ->
      store_update row (song_update_payload req) !! k = row !! k
      /\ store_update row (artist_payload req) !! k = row !! k).
Proof.
  split; [apply updateSong_query|]. split; [apply updateArtist_query|].
  split; [by rewrite song_payload_on_wire, song_update_payload_lookup|].
  split; [apply artist_payload_lookup|].
  intros Hk. unfold store_update. split.
  - rewrite lookup_union_r; [done|].
    rewrite song_payload_on_wire, song_update_payload_lookup, Hk.
    by destruct (existsb _ _).
  - rewrite lookup_union_r; [done|].
    rewrite artist_payload_lookup, Hk.
    destruct (String.eqb_spec k "name") as [->|_]; [done|].
    by destruct (existsb _ _).
Qed.

Lemma sparse_update_payload_witness :
  store_update hello_row (song_update_payload describe_request) !! "title"
  = Some (JStr "Hello")
  /\ store_update hello_row (artist_payload describe_request) !! "title"
     = Some (JStr "Hello").
Proof.
  exact (proj2 (proj2 (proj2 (proj2
           (sparse_update_payload describe_request (quiet_world hello_store)
              hello_row "title")))) eq_refl).
Defined.

(** ** Deleting a song *)

(** Once the row is deleted the answer is 202, however the two clean-up
    calls end; the blob-store key is the title followed by [.mp3]. *)
Lemma deleteSong_fire_and_forget (req : Request) (w : World) (row : JsVal) :
  supabase w (delete_song_query (params_id req))
  = Returned {| data := row; error := JNull |} ->
  truthy row = true ->
  deleteSong req w
  = (Returned {| status := 202;
                 json := message_body ("Song " +:+ params_id req
                                       +:+ " is being deleted") |},
     with_log w
       (log w ++ [StoreCall (delete_song_query (params_id req));
                  BackblazeDeleteObject (js_to_string (js_get "title" row) +:+ ".mp3");
                  CloudinaryDelete "songs" ("i-" +:+ params_id req)])).
Proof.
  intros Hstore Hrow. unfold deleteSong, bind at 1, supabase_run.
  fold (delete_song_query (params_id req)). rewrite Hstore. cbn [error truthy data].
  destruct row; try discriminate Hrow; finish_run.
Qed.

(** C9 at a concrete input: the song "Hello" of Primary artist "Adele" is
    deleted while the blob store and the asset service fail. The answer is
    202; the object the blob store is asked to delete is [Hello.mp3], not
    [Adele/Hello.mp3], the key under which [generatePresignedUploadURL] has
    the same song uploaded; the Primary link is never looked up. *)
Theorem deleteSong_object_key :
  let deleted := deleteSong plain_request failing_cleanup_world in
  let signed := generatePresignedUploadURL plain_request failing_cleanup_world in
  fst deleted
  = Returned {| status := 202; json := message_body "Song 7 is being deleted" |}
  /\ log (snd deleted)
     = [StoreCall (delete_song_query "7");
        BackblazeDeleteObject "Hello.mp3";
        CloudinaryDelete "songs" "i-7"]
  /\ log (snd signed)
     = [StoreCall (primary_link_query "7");
        BackblazePresignUpload "Adele/Hello.mp3" 900]
  /\ object_key (JStr "Adele") (JStr "Hello") = "Adele/Hello.mp3"
  /\ "Hello.mp3" <> object_key (JStr "Adele") (JStr "Hello").
Proof. vm_compute. repeat split. discriminate. Qed.

(** ** Linking a new song to its artists *)



Lemma member_defined (k : string) (d : JsVal) :
  is_nullish d = false -> member k d = ret (js_get k d).
Proof. by destruct d. Qed.

Lemma link_promises (d : JsVal) (ids : list JsVal) (g : nat -> nat) :
  is_nullish d = false ->
  imap (fun index artistid =>
          let* songid := member "id" d in
          supabase_run (link_insert (link_row songid (g index) artistid))) ids
  = map supabase_run
        (map link_insert
             (imap (fun index artistid =>
                      link_row (js_get "id" d) (g index) artistid) ids)).
Proof.
  intros Hd. revert g. induction ids as [|a ids IH]; intros g; [done|].
  cbn [imap map]. f_equal.
  - by destruct d.
  - apply (IH (fun i => g (S i))).
Qed.

Lemma link_rows_app (l1 l2 : list Event) :
  link_rows (l1 ++ l2) = link_rows l1 ++ link_rows l2.
Proof. apply omap_app. Qed.








(** * Further properties *)

(** ** The status query *)

Lemma count_char_app (c : ascii) (a b : string) :
  count_char c (a +:+ b) = (count_char c a + count_char c b)%nat.
Proof.
  induction a as [|x a IH]; [done|].
  rewrite append_cons. simpl. rewrite IH. lia.
Qed.

Lemma form_encode_char_no_separator (c : ascii) :
  count_char "&" (form_encode_char c) = 0%nat
  /\ count_char "=" (form_encode_char c) = 0%nat.
Proof. destruct c as [[] [] [] [] [] [] [] []]; by vm_compute. Qed.

Lemma form_encode_no_separator (s : string) :
  count_char "&" (form_encode s) = 0%nat /\ count_char "=" (form_encode s) = 0%nat.
Proof.
  induction s as [|c s [IH1 IH2]]; [done|].
  cbn [form_encode]. rewrite !count_char_app, IH1, IH2.
  by destruct (form_encode_char_no_separator c) as [-> ->].
Qed.

Lemma form_encode_safe (s : string) :
  all_form_safe s = true -> form_encode s = s.
Proof.
  induction s as [|c s IH]; [done|]. simpl. intros Hs.
  apply andb_true_iff in Hs as [Hc Hs]. unfold form_encode_char.
  rewrite Hc, append_cons, append_empty. by rewrite IH.
Qed.

Lemma status_body_shape (app_id app_trans_id mac : string) :
  config_data (status_config app_id app_trans_id mac)
  = "app_id=" +:+ form_encode app_id
    +:+ "&app_trans_id=" +:+ form_encode app_trans_id
    +:+ "&mac=" +:+ form_encode mac.
Proof.
  cbn [config_data status_config]. unfold URLSearchParams_toString.
  cbn [status_order_entries map join fold_left fst snd].
  change (form_encode "app_id") with "app_id".
  change (form_encode "app_trans_id") with "app_trans_id".
  change (form_encode "mac") with "mac".
  rewrite !append_assoc. reflexivity.
Qed.

(** Whatever the transaction id is, [getOrderStatus] sends a form body of
    exactly the three fields [app_id], [app_trans_id] and [mac], each value
    percent-encoded: no character of the application id, of the transaction
    id or of the MAC can act as a field or value separator. The call ends as
    the request of that body does, a rejection wrapped in a new error. *)
Theorem status_query_has_three_fields `{Crypto} (this : ZaloPay)
    (app_trans_id mac : string) :
  createHmac_sha256_hex (key1 (client this))
    (app_id (client this) +:+ "|" +:+ app_trans_id +:+ "|" +:+ key1 (client this))
  = Digest mac ->
  exists body,
    (forall axios : AxiosConfig -> Outcome JsVal,
        getOrderStatus this axios app_trans_id
        = match axios {| config_method := "post";
                         config_url := query_url;
                         config_headers :=
                           [("Content-Type", "application/x-www-form-urlencoded")];
                         config_data := body;
                         config_timeout := 5000 |} with
          | Returned resp_data => Returned resp_data
          | Thrown error =>
              Thrown (JError ("Failed to retrieve order status: "
                              +:+ js_to_string error))
          end)
    /\ body = "app_id=" +:+ form_encode (app_id (client this))
              +:+ "&app_trans_id=" +:+ form_encode app_trans_id
              +:+ "&mac=" +:+ form_encode mac
    /\ count_char "&" body = 2%nat /\ count_char "=" body = 3%nat.
Proof.
  intros Hmac.
  exists (config_data (status_config (app_id (client this)) app_trans_id mac)).
  split; [|split; [apply status_body_shape|]].
  - intros axios. unfold getOrderStatus. by rewrite Hmac.
  - rewrite status_body_shape, !count_char_app.
    destruct (form_encode_no_separator (app_id (client this))) as [-> ->].
    destruct (form_encode_no_separator app_trans_id) as [-> ->].
    destruct (form_encode_no_separator mac) as [-> ->].
    by vm_compute.
Qed.

Lemma status_query_has_three_fields_witness :
  let this := @new_ZaloPay merchant_env 1730000123456 in
  let mac := Sha256.hmac_hex "key-one" "2553|a&b=c d|key-one" in
  exists body,
    (forall axios : AxiosConfig -> Outcome JsVal,
        @getOrderStatus node_crypto this axios "a&b=c d"
        = match axios {| config_method := "post";
                         config_url := query_url;
                         config_headers :=
                           [("Content-Type", "application/x-www-form-urlencoded")];
                         config_data := body;
                         config_timeout := 5000 |} with
          | Returned resp_data => Returned resp_data
          | Thrown error =>
              Thrown (JError ("Failed to retrieve order status: "
                              +:+ js_to_string error))
          end)
    /\ body = "app_id=2553&app_trans_id=a%26b%3Dc+d&mac=" +:+ mac.
Proof.
  intros this mac.
  destruct (@status_query_has_three_fields node_crypto this "a&b=c d" mac
              eq_refl) as (body & Hrun & Hbody & _).
  exists body. split; [exact Hrun|]. rewrite Hbody. subst mac.
  vm_compute. reflexivity.
Defined.

Lemma all_form_safe_app (a b : string) :
  all_form_safe (a +:+ b) = all_form_safe a && all_form_safe b.
Proof.
  induction a as [|c a IH]; [done|].
  rewrite append_cons. simpl. by rewrite IH, andb_assoc.
Qed.

Lemma digit_is_form_safe (c : ascii) : is_digit c = true -> is_form_safe c = true.
Proof.
  unfold is_digit, digit_of_ascii, is_form_safe.
  destruct ((48 <=? N_of_ascii c)%N && (N_of_ascii c <=? 57)%N); done.
Qed.

Lemma digits_are_form_safe (s : string) :
  all_digits s = true -> all_form_safe s = true.
Proof.
  induction s as [|c s IH]; [done|]. simpl. intros Hs.
  apply andb_true_iff in Hs as [Hc Hs].
  by rewrite (digit_is_form_safe c Hc), IH.
Qed.

Lemma date_prefix_digits (d : JsDate) : all_digits (date_prefix d) = true.
Proof.
  unfold date_prefix, padStart, slice_last.
  rewrite !all_digits_app, !all_digits_repeat_zero, !pretty_N_digits.
  by rewrite (all_digits_drop _ _ (pretty_N_digits (getFullYear d))).
Qed.

(** An id issued by [createOrder] can be handed to [getOrderStatus] as it
    is: the query carries it unescaped between the application id and the
    MAC over [app_id|id|key1], and the call ends as the request does, with a
    rejection wrapped in a new error. *)
Theorem issued_id_queries_status `{Crypto} `{OrderItems OrderItem}
    (this this' : ZaloPay) (env : PayEnv) (user_id : string)
    (items : list OrderItem) (r : JsVal) :
  createOrder this env user_id items = (this', Returned r) ->
  exists id,
    js_get "app_trans_id" r = JStr id
    /\ forall (axios : AxiosConfig -> Outcome JsVal) (mac : string),
         createHmac_sha256_hex (key1 (client this))
           (app_id (client this) +:+ "|" +:+ id +:+ "|" +:+ key1 (client this))
         = Digest mac ->
         getOrderStatus this' axios id
         = match axios {| config_method := "post";
                          config_url := query_url;
                          config_headers :=
                            [("Content-Type", "application/x-www-form-urlencoded")];
                          config_data :=
                            "app_id=" +:+ form_encode (app_id (client this))
                            +:+ "&app_trans_id=" +:+ id
                            +:+ "&mac=" +:+ form_encode mac;
                          config_timeout := 5000 |} with
           | Returned resp_data => Returned resp_data
           | Thrown error =>
               Thrown (JError ("Failed to retrieve order status: "
                               +:+ js_to_string error))
           end.
Proof.
  intros Hcall.
  pose proof (createOrder_state this env user_id items) as Hstate.
  rewrite Hcall in Hstate. cbn [fst] in Hstate. subst this'.
  apply createOrder_returned in Hcall as (order & res_data & _ & Hid & ->).
  exists (order_app_trans_id order). split.
  { cbn [js_get]. by rewrite assoc_js_set. }
  intros axios mac Hmac. unfold getOrderStatus. cbn [client].
  rewrite Hmac.
  assert (form_encode (order_app_trans_id order) = order_app_trans_id order) as Hsafe.
  { apply form_encode_safe. rewrite Hid, !all_form_safe_app.
    rewrite (digits_are_form_safe _ (date_prefix_digits _)).
    by rewrite (digits_are_form_safe _ (pretty_N_digits _)). }
  assert (status_config (app_id (client this)) (order_app_trans_id order) mac
          = {| config_method := "post";
               config_url := query_url;
               config_headers :=
                 [("Content-Type", "application/x-www-form-urlencoded")];
               config_data :=
                 "app_id=" +:+ form_encode (app_id (client this))
                 +:+ "&app_trans_id=" +:+ order_app_trans_id order
                 +:+ "&mac=" +:+ form_encode mac;
               config_timeout := 5000 |}) as ->; [|done].
  pose proof (status_body_shape (app_id (client this))
                (order_app_trans_id order) mac) as Hbody.
  rewrite Hsafe in Hbody. unfold status_config in *. cbn [config_data] in Hbody.
  by rewrite Hbody.
Qed.

Lemma issued_id_queries_status_witness :
  exists id,
    js_get "app_trans_id"
      (JObj [("return_code", JNum 1);
             ("order_url", JStr "https://pay.example/order");
             ("app_trans_id", JStr "261105_123457")]) = JStr id
    /\ forall (axios : AxiosConfig -> Outcome JsVal) (mac : string),
         Digest (Sha256.hmac_hex "key-one"
                   ("2553" +:+ "|" +:+ id +:+ "|" +:+ "key-one")) = Digest mac ->
         @getOrderStatus node_crypto
           {| client := client (@new_ZaloPay merchant_env 1730000123456);
              orderID := 123457 |} axios id
         = match axios {| config_method := "post";
                          config_url := query_url;
                          config_headers :=
                            [("Content-Type", "application/x-www-form-urlencoded")];
                          config_data :=
                            "app_id=" +:+ form_encode "2553"
                            +:+ "&app_trans_id=" +:+ id
                            +:+ "&mac=" +:+ form_encode mac;
                          config_timeout := 5000 |} with
           | Returned resp_data => Returned resp_data
           | Thrown error =>
               Thrown (JError ("Failed to retrieve order status: "
                               +:+ js_to_string error))
           end.
Proof.
  apply (@issued_id_queries_status node_crypto CartItem cart_items
           (@new_ZaloPay merchant_env 1730000123456)
           {| client := client (@new_ZaloPay merchant_env 1730000123456);
              orderID := 123457 |}
           (accepting_day 5) "user-1" one_month).
  vm_compute. reflexivity.
Defined.

(** ** Handlers that leave the cache alone *)

Lemma cache_untouched_ret {A} (a : A) : cache_untouched (ret a).
Proof. by intros w. Qed.

Lemma cache_untouched_throw {A} (err : JsVal) : cache_untouched (@throw A err).
Proof. by intros w. Qed.

Lemma cache_untouched_bind {A B} (m : M A) (k : A -> M B) :
  cache_untouched m -> (forall a, cache_untouched (k a)) ->
  cache_untouched (bind m k).
Proof.
  intros Hm Hk w. unfold bind. destruct (Hm w) as (H1 & H2 & H3 & H4).
  destruct (m w) as [[a|err] w']; cbn [snd] in *; [|done].
  destruct (Hk a w') as (K1 & K2 & K3 & K4).
  by rewrite K1, K2, K3, K4.
Qed.

Lemma cache_untouched_try_catch {A} (body : M A) (handler : JsVal -> M A) :
  cache_untouched body -> (forall err, cache_untouched (handler err)) ->
  cache_untouched (try_catch body handler).
Proof.
  intros Hm Hk w. unfold try_catch. destruct (Hm w) as (H1 & H2 & H3 & H4).
  destruct (body w) as [[a|err] w']; cbn [snd] in *; [done|].
  destruct (Hk err w') as (K1 & K2 & K3 & K4).
  by rewrite K1, K2, K3, K4.
Qed.

Lemma cache_untouched_detach {A} (m : M A) :
  cache_untouched m -> cache_untouched (detach m).
Proof. intros Hm w. exact (Hm w). Qed.

Lemma cache_untouched_settle {A} (m : M A) :
  cache_untouched m -> cache_untouched (settle m).
Proof. intros Hm w. exact (Hm w). Qed.

Lemma cache_untouched_settle_all {A} (ps : list (M A)) :
  Forall cache_untouched ps -> cache_untouched (settle_all ps).
Proof.
  induction 1 as [|p ps Hp _ IH]; [apply cache_untouched_ret|].
  cbn [settle_all]. apply cache_untouched_bind.
  - by apply cache_untouched_settle.
  - intros o. apply cache_untouched_bind; [exact IH|].
    intros os. apply cache_untouched_ret.
Qed.

Lemma cache_untouched_Promise_all {A} (ps : list (M A)) :
  Forall cache_untouched ps -> cache_untouched (Promise_all ps).
Proof.
  intros Hps. unfold Promise_all. apply cache_untouched_bind.
  - by apply cache_untouched_settle_all.
  - intros os. destruct (all_returned os);
      [apply cache_untouched_ret|apply cache_untouched_throw].
Qed.

Lemma filter_cache_calls_record (e : Event) (l : list Event) :
  is_cache_call e = false ->
  List.filter is_cache_call (l ++ [e]) = List.filter is_cache_call l.
Proof.
  intros He. rewrite List.filter_app. simpl. rewrite He. apply app_nil_r.
Qed.

Lemma cache_untouched_supabase_run (q : StoreQuery) :
  cache_untouched (supabase_run q).
Proof. intros w. repeat split. by apply filter_cache_calls_record. Qed.

Lemma cache_untouched_cloudinary_upload (f folder : string) (id : JsVal) :
  cache_untouched (cloudinary_upload f folder id).
Proof. intros w. repeat split. by apply filter_cache_calls_record. Qed.

Lemma cache_untouched_cloudinary_delete (folder public_id : string) :
  cache_untouched (cloudinary_delete folder public_id).
Proof. intros w. repeat split. by apply filter_cache_calls_record. Qed.

Lemma cache_untouched_backblaze_deleteObject (key : string) :
  cache_untouched (backblaze_deleteObject key).
Proof. intros w. repeat split. by apply filter_cache_calls_record. Qed.

Lemma cache_untouched_presign_download (fileName : string) (expires : N) :
  cache_untouched (backblaze_generatePresignedDownloadURL fileName expires).
Proof. intros w. repeat split. by apply filter_cache_calls_record. Qed.

Lemma cache_untouched_presign_upload (fileName : string) (expires : N) :
  cache_untouched (backblaze_generatePresignedUploadURL fileName expires).
Proof. intros w. repeat split. by apply filter_cache_calls_record. Qed.

Lemma cache_untouched_member (k : string) (v : JsVal) :
  cache_untouched (member k v).
Proof.
  destruct v; try apply cache_untouched_ret; apply cache_untouched_throw.
Qed.

Lemma cache_untouched_respond (code : Z) (payload : JsVal) :
  cache_untouched (respond code payload).
Proof. apply cache_untouched_ret. Qed.

Lemma Forall_imap {A B} (P : B -> Prop) (f : nat -> A -> B) (l : list A) :
  (forall i a, P (f i a)) -> Forall P (imap f l).
Proof.
  revert f. induction l as [|a l IH]; intros f Hf; [constructor|].
  cbn [imap]. constructor; [apply Hf|]. apply IH. intros i b. apply Hf.
Qed.

(** Breaks a handler's text down to the calls it is made of. *)
Ltac cache_untouched_steps :=
  repeat match goal with
    | |- cache_untouched (ret _) => apply cache_untouched_ret
    | |- cache_untouched (throw _) => apply cache_untouched_throw
    | |- cache_untouched (respond _ _) => apply cache_untouched_respond
    | |- cache_untouched (supabase_run _) => apply cache_untouched_supabase_run
    | |- cache_untouched (cloudinary_upload _ _ _) =>
        apply cache_untouched_cloudinary_upload
    | |- cache_untouched (cloudinary_delete _ _) =>
        apply cache_untouched_cloudinary_delete
    | |- cache_untouched (backblaze_deleteObject _) =>
        apply cache_untouched_backblaze_deleteObject
    | |- cache_untouched (backblaze_generatePresignedDownloadURL _ _) =>
        apply cache_untouched_presign_download
    | |- cache_untouched (backblaze_generatePresignedUploadURL _ _) =>
        apply cache_untouched_presign_upload
    | |- cache_untouched (member _ _) => apply cache_untouched_member
    | |- cache_untouched (detach _) => apply cache_untouched_detach
    | |- cache_untouched (Promise_all (imap _ _)) =>
        apply cache_untouched_Promise_all; apply Forall_imap; intros ? ?
    | |- cache_untouched (try_catch _ _) =>
        apply cache_untouched_try_catch; [|intros ?]
    | |- cache_untouched (bind _ _) => apply cache_untouched_bind; [|intros ?]
    | |- cache_untouched (if ?b then _ else _) => destruct b
    | |- cache_untouched (match ?x with _ => _ end) => destruct x
    end.

(** The handlers that write, the artist reads and the two URL handlers
    never call the cache and leave its content as it is: a change made
    through them is not reflected in an entry already cached. *)
Theorem writes_leave_cache_alone (req : Request) :
  cache_untouched (getAllArtists req)
  /\ cache_untouched (getArtistByID req)
  /\ cache_untouched (updateArtist req)
  /\ cache_untouched (addArtist req)
  /\ cache_untouched (deleteArtist req)
  /\ cache_untouched (updateSong req)
  /\ cache_untouched (addSong req)
  /\ cache_untouched (deleteSong req)
  /\ cache_untouched (generatePresignedDownloadURL req)
  /\ cache_untouched (generatePresignedUploadURL req).
Proof.
  repeat apply conj;
    unfold getAllArtists, getArtistByID, updateArtist, addArtist, deleteArtist,
           updateSong, addSong, deleteSong, generatePresignedDownloadURL,
           generatePresignedUploadURL, presigned_url;
    cache_untouched_steps.
Qed.

Lemma cache_read_same (w w' : World) (key : string) :
  redis w' = redis w -> clock w' = clock w ->
  cache_read w' key = cache_read w key.
Proof. intros Hr Hc. unfold cache_read. by rewrite Hr, Hc. Qed.

Lemma getSongByID_hit (req : Request) (w : World) :
  redis_get_fault w = None ->
  truthy (cache_read w (song_id_key req)) = true ->
  getSongByID req w
  = (Returned {| status := 200; json := cache_read w (song_id_key req) |},
     record (RedisGet (song_id_key req)) w).
Proof.
  intros Hfault Hhit. unfold getSongByID, bind at 1.
  rewrite redis_get_run, Hfault. fold (song_id_key req). by rewrite Hhit.
Qed.

(** A song that is in the cache is still served from it, unchanged and
    without a query to the record store, after [deleteSong] or [updateSong]
    has run, whether for that song or another and however the call ended. *)
Theorem cached_song_outlives_write (req change : Request) (w : World) :
  redis_get_fault w = None ->
  truthy (cache_read w (song_id_key req)) = true ->
  let served (after : World) : Prop :=
    getSongByID req after
    = (Returned {| status := 200; json := cache_read w (song_id_key req) |},
       record (RedisGet (song_id_key req)) after) in
  served (snd (deleteSong change w)) /\ served (snd (updateSong change w)).
Proof.
  intros Hfault Hhit served.
  destruct (writes_leave_cache_alone change)
    as (_ & _ & _ & _ & _ & Hupdate & _ & Hdelete & _).
  split.
  - destruct (Hdelete w) as (Hr & Hc & Hf & _). unfold served.
    rewrite getSongByID_hit; rewrite ?(cache_read_same _ _ _ Hr Hc); congruence.
  - destruct (Hupdate w) as (Hr & Hc & Hf & _). unfold served.
    rewrite getSongByID_hit; rewrite ?(cache_read_same _ _ _ Hr Hc); congruence.
Qed.

Lemma cached_song_outlives_write_witness :
  getSongByID plain_request (snd (deleteSong plain_request cached_song_world))
  = (Returned {| status := 200; json := JObj [("title", JStr "Hello")] |},
     record (RedisGet "songs?id=7")
            (snd (deleteSong plain_request cached_song_world))).
Proof.
  exact (proj1 (cached_song_outlives_write plain_request plain_request
                  cached_song_world eq_refl eq_refl)).
Defined.

(** ** Creating artists and songs *)

Lemma song_insert_payload_lookup (req : Request) (k : string) :
  song_insert_payload req !! k
  = if String.eqb k "title" then Some (field req "title")
    else if existsb (String.eqb k) song_optional_fields
         then keep_truthy (supplied req k) else None.
Proof.
  unfold song_insert_payload.
  rewrite !lookup_spread_if, lookup_insert, lookup_empty.
  rewrite keep_truthy_supplied. cbn [existsb song_optional_fields].
  split_on_field k; done.
Qed.

Lemma keep_truthy_Some (o : option JsVal) (v : JsVal) :
  keep_truthy o = Some v -> o = Some v /\ truthy v = true.
Proof.
  destruct o as [u|]; [|done]. simpl.
  destruct (truthy u) eqn:Hu; [|done]. by intros [= <-].
Qed.

Section LogsOnly.
Variable P : Event -> Prop.

Lemma logs_only_ret {A} (a : A) : logs_only P (ret a).
Proof. intros w. exists []. by rewrite app_nil_r. Qed.

Lemma logs_only_throw {A} (err : JsVal) : logs_only P (@throw A err).
Proof. intros w. exists []. by rewrite app_nil_r. Qed.

Lemma logs_only_bind {A B} (m : M A) (k : A -> M B) :
  logs_only P m -> (forall a, logs_only P (k a)) -> logs_only P (bind m k).
Proof.
  intros Hm Hk w. unfold bind. destruct (Hm w) as (rest1 & Hlog1 & HP1).
  destruct (m w) as [[a|err] w']; cbn [snd] in *; [|by exists rest1].
  destruct (Hk a w') as (rest2 & Hlog2 & HP2).
  exists (rest1 ++ rest2). rewrite Hlog2, Hlog1, <- app_assoc.
  split; [done|by apply Forall_app].
Qed.

Lemma logs_only_detach {A} (m : M A) : logs_only P m -> logs_only P (detach m).
Proof. intros Hm w. exact (Hm w). Qed.

Lemma logs_only_settle {A} (m : M A) : logs_only P m -> logs_only P (settle m).
Proof. intros Hm w. exact (Hm w). Qed.

Lemma logs_only_settle_all {A} (ps : list (M A)) :
  Forall (logs_only P) ps -> logs_only P (settle_all ps).
Proof.
  induction 1 as [|p ps Hp _ IH]; [apply logs_only_ret|].
  cbn [settle_all]. apply logs_only_bind.
  - by apply logs_only_settle.
  - intros o. apply logs_only_bind; [exact IH|].
    intros os. apply logs_only_ret.
Qed.

Lemma logs_only_Promise_all {A} (ps : list (M A)) :
  Forall (logs_only P) ps -> logs_only P (Promise_all ps).
Proof.
  intros Hps. unfold Promise_all. apply logs_only_bind.
  - by apply logs_only_settle_all.
  - intros os. destruct (all_returned os);
      [apply logs_only_ret|apply logs_only_throw].
Qed.

Lemma logs_only_member (k : string) (v : JsVal) : logs_only P (member k v).
Proof. destruct v; try apply logs_only_ret; apply logs_only_throw. Qed.

Lemma logs_only_respond (code : Z) (payload : JsVal) :
  logs_only P (respond code payload).
Proof. apply logs_only_ret. Qed.

Lemma logs_only_supabase_run (q : StoreQuery) :
  P (StoreCall q) -> logs_only P (supabase_run q).
Proof. intros HP w. exists [StoreCall q]. split; [done|by constructor]. Qed.

Lemma logs_only_cloudinary_upload (f folder : string) (id : JsVal) :
  P (CloudinaryUpload f folder id) -> logs_only P (cloudinary_upload f folder id).
Proof.
  intros HP w. exists [CloudinaryUpload f folder id].
  split; [done|by constructor].
Qed.

(** A handler that starts with a query: the query is the first event it
    adds. *)
Lemma logs_after_store_call {A} (q : StoreQuery) (k : QueryResult -> M A)
    (w : World) :
  (forall r, logs_only P (k r)) ->
  exists rest,
    log (snd (bind (supabase_run q) k w)) = log w ++ StoreCall q :: rest
    /\ Forall P rest.
Proof.
  intros Hk. unfold bind. rewrite supabase_run_run.
  destruct (supabase w q) as [r|err]; cbn [snd].
  - destruct (Hk r (record (StoreCall q) w)) as (rest & Hlog & HP).
    exists rest. rewrite Hlog. cbn [record log with_log].
    by rewrite <- app_assoc.
  - by exists [].
Qed.

End LogsOnly.

(** Breaks what follows a handler's first query down to its calls. *)
Ltac logs_only_steps :=
  repeat match goal with
    | |- logs_only _ (ret _) => apply logs_only_ret
    | |- logs_only _ (throw _) => apply logs_only_throw
    | |- logs_only _ (respond _ _) => apply logs_only_respond
    | |- logs_only _ (supabase_run _) =>
        apply logs_only_supabase_run; reflexivity
    | |- logs_only _ (cloudinary_upload _ _ _) =>
        apply logs_only_cloudinary_upload; reflexivity
    | |- logs_only _ (member _ _) => apply logs_only_member
    | |- logs_only _ (detach _) => apply logs_only_detach
    | |- logs_only _ (Promise_all (imap _ _)) =>
        apply logs_only_Promise_all; apply Forall_imap; intros ? ?
    | |- logs_only _ (bind _ _) => apply logs_only_bind; [|intros ?]
    | |- logs_only _ (if ?b then _ else _) => destruct b
    | |- logs_only _ (match ?x with _ => _ end) => destruct x
    end.

(** [addArtist] and [addSong] check the identifying field before anything
    else: when [name] (for an artist) or [title] (for a song) is missing or
    falsy the answer is 400 and no collaborator is called. Otherwise the
    first call is the insert of the row they built, the only row they write
    to their table: [addArtist] makes no other query, and what [addSong]
    does after it is to insert links and to upload the attachment. That row
    carries the identifying field, and an optional field only when the
    request supplies it with a truthy value: no optional column is ever
    inserted as [null], [0] or the empty string. *)
Theorem creation_is_validated_and_sparse (req : Request) (w : World) :
  (truthy (field req "name") = false ->
   addArtist req w
   = (Returned {| status := 400;
                  json := error_body (JStr "Payload must have field: name") |}, w))
  /\ (truthy (field req "title") = false ->
      addSong req w
      = (Returned {| status := 400;
                     json := error_body (JStr "Payload must have field: title") |},
         w))
  /\ (truthy (field req "name") = true ->
      exists rest,
        log (snd (addArtist req w))
        = log w ++ StoreCall (insert_artist_query (artist_payload req)) :: rest
        /\ store_calls rest = [])
  /\ (truthy (field req "title") = true ->
      exists rest,
        log (snd (addSong req w))
        = log w ++ StoreCall (insert_song_query (song_insert_payload req)) :: rest
        /\ Forall (fun e => is_link_or_upload e = true) rest)
  /\ artist_payload req !! "name" = Some (field req "name")
  /\ song_insert_payload req !! "title" = Some (field req "title")
  /\ (forall k v, k <> "name" -> artist_payload req !! k = Some v ->
                  supplied req k = Some v /\ truthy v = true
                  /\ In k artist_optional_fields)
  /\ (forall k v, k <> "title" -> song_insert_payload req !! k = Some v ->
                  supplied req k = Some v /\ truthy v = true
                  /\ In k song_optional_fields).
Proof.
  split; [intros Hn; unfold addArtist; by rewrite Hn|].
  split; [intros Ht; unfold addSong; by rewrite Ht|].
  split.
  { intros Hn. unfold addArtist. rewrite Hn. cbn [negb].
    unfold bind at 1. rewrite supabase_run_run.
    fold (insert_artist_query (artist_payload req)).
    destruct (supabase w _) as [r|err]; [|by exists []].
    destruct (truthy (error r)); [by exists []|].
    destruct (file req) as [f|]; [|exists []; finish_run].
    destruct (is_nullish (data r)) eqn:Hd.
    - exists []. destruct (data r); try discriminate Hd; finish_run.
    - exists [CloudinaryUpload f "artists" (js_get "id" (data r))].
      rewrite (member_defined "id" _ Hd). finish_run. }
  split.
  { intros Ht. unfold addSong. rewrite Ht. cbn [negb].
    apply (logs_after_store_call (fun e => is_link_or_upload e = true)
             (insert_song_query (song_insert_payload req))).
    intros r. logs_only_steps. }
  split; [by rewrite artist_object_lookup|].
  split; [by rewrite song_insert_payload_lookup|].
  split.
  - intros k v Hk. rewrite artist_object_lookup.
    destruct (String.eqb_spec k "name") as [->|_]; [done|].
    destruct (existsb (String.eqb k) artist_optional_fields) eqn:Hin; [|done].
    intros Hv. apply keep_truthy_Some in Hv as [-> ->]. repeat split.
    apply existsb_exists in Hin as (x & Hx & Heq).
    by apply String.eqb_eq in Heq as ->.
  - intros k v Hk. rewrite song_insert_payload_lookup.
    destruct (String.eqb_spec k "title") as [->|_]; [done|].
    destruct (existsb (String.eqb k) song_optional_fields) eqn:Hin; [|done].
    intros Hv. apply keep_truthy_Some in Hv as [-> ->]. repeat split.
    apply existsb_exists in Hin as (x & Hx & Heq).
    by apply String.eqb_eq in Heq as ->.
Qed.

Lemma creation_is_validated_and_sparse_witness :
  (addArtist plain_request (quiet_world hello_store)
   = (Returned {| status := 400;
                  json := error_body (JStr "Payload must have field: name") |},
      quiet_world hello_store))
  /\ exists rest,
       log (snd (addSong described_song_request (quiet_world id_seven_store)))
       = StoreCall (insert_song_query
                      (<["description" := JStr "x"]> {["title" := JStr "Hello"]}))
         :: rest
       /\ Forall (fun e => is_link_or_upload e = true) rest.
Proof.
  split.
  - exact (proj1 (creation_is_validated_and_sparse plain_request
                    (quiet_world hello_store)) eq_refl).
  - destruct (proj1 (proj2 (proj2 (proj2
                (creation_is_validated_and_sparse described_song_request
                   (quiet_world id_seven_store))))) eq_refl)
      as (rest & Hlog & Hrest).
    exists rest. split; [|exact Hrest]. rewrite Hlog. reflexivity.
Defined.

Lemma no_delete_among_link_inserts (rows : list (gmap string JsVal)) :
  List.filter is_delete (map link_insert rows) = [].
Proof. induction rows as [|row rows IH]; [done|]. exact IH. Qed.

(** When some of the link inserts of [addSong] resolve with an error, the
    answer is a 500 that names the id of the song just created and lists
    the messages of exactly the failing inserts, in the order of the artist
    list. The song's row and the links that went through stay: no delete is
    sent to the record store, and no attachment is uploaded. *)
Theorem addSong_link_failure_keeps_song
    (req : Request) (w : World) (created : QueryResult)
    (ids : list JsVal) (results : list QueryResult) :
  let songid := js_get "id" (data created) in
  let links := map link_insert (imap (link_row songid) ids) in
  let failing := List.filter (fun r => truthy (error r)) results in
  truthy (field req "title") = true ->
  field req "artists" = JArr ids ->
  supabase w (insert_song_query (song_insert_payload req)) = Returned created ->
  truthy (error created) = false ->
  is_nullish (data created) = false ->
  map (supabase w) links = map Returned results ->
  Exists (fun r => truthy (error r) = true) results ->
  addSong req w
  = (Returned
       {| status := 500;
          json := JObj [("error",
                         JStr ("Failed to link associate artists with current song "
                               +:+ js_to_string songid));
                        ("details",
                         JArr (map (fun r => js_get "message" (error r)) failing))] |},
     with_log w (log w ++ StoreCall (insert_song_query (song_insert_payload req))
                       :: map StoreCall links))
  /\ List.filter is_delete (insert_song_query (song_insert_payload req) :: links) = [].
Proof.
  intros songid links failing Htitle Hartists Hcreated Herr Hd Hlinks Hfails.
  split; [|apply no_delete_among_link_inserts].
  unfold addSong. rewrite Htitle. cbn [negb].
  unfold bind at 1. rewrite supabase_run_run.
  fold (insert_song_query (song_insert_payload req)).
  rewrite Hcreated, Herr, Hartists.
  unfold member at 1. unfold bind at 1, ret at 1. unfold bind at 1.
  rewrite (link_promises (data created) ids (fun i => i) Hd).
  rewrite Promise_all_supabase.
  change (imap (fun index artistid =>
                  link_row (js_get "id" (data created)) index artistid) ids)
    with (imap (link_row songid) ids).
  fold links. cbn [supabase record with_log]. rewrite Hlinks.
  rewrite all_returned_map_Returned. fold failing.
  pose proof (filter_nonempty _ _ Hfails) as Hne. fold failing in Hne.
  rewrite (member_defined "id" _ Hd).
  destruct failing as [|f fs] eqn:Hfailing; [done|].
  cbn [length Nat.eqb negb]. unfold bind, ret, respond, record.
  cbn [log with_log]. by rewrite <- app_assoc.
Qed.

Lemma addSong_link_failure_keeps_song_witness :
  fst (addSong three_artists_request (quiet_world link_b_refused_store))
  = Returned
      {| status := 500;
         json := JObj [("error",
                        JStr "Failed to link associate artists with current song 7");
                       ("details", JArr [JStr "unknown artist B"])] |}.
Proof.
  refine (f_equal fst
            (proj1 (addSong_link_failure_keeps_song three_artists_request
                      (quiet_world link_b_refused_store)
                      {| data := JObj [("id", JNum 7)]; error := JNull |}
                      [JStr "A"; JStr "B"; JStr "C"]
                      [ {| data := JObj [("id", JNum 7)]; error := JNull |};
                        {| data := JNull;
                           error := JObj [("message", JStr "unknown artist B")] |};
                        {| data := JObj [("id", JNum 7)]; error := JNull |} ]
                      _ _ _ _ _ _ _)));
    try reflexivity.
  apply Exists_cons_tl, Exists_cons_hd. reflexivity.
Defined.

(** ** Edge cases of [addSong] *)

(** A request with a title but without an [artists] list has its song row
    inserted and then fails: the handler ends in a [TypeError] and sends no
    answer. With an empty list the answer is 201 and no link row is written,
    so the song has no Primary artist. *)
Theorem addSong_without_artists
    (req : Request) (w : World) (created : QueryResult) :
  truthy (field req "title") = true ->
  supabase w (insert_song_query (song_insert_payload req)) = Returned created ->
  truthy (error created) = false ->
  let inserted :=
    with_log w (log w ++ [StoreCall (insert_song_query (song_insert_payload req))]) in
  (body req !! "artists" = None ->
   addSong req w
   = (Thrown (JError "Cannot read properties of undefined (reading 'map')"),
      inserted))
  /\ (field req "artists" = JArr [] -> file req = None ->
      addSong req w
      = (Returned {| status := 201;
                     json := message_body ("Song " +:+ js_to_string (field req "title")
                                           +:+ " created") |},
         inserted)
      /\ link_rows (log inserted) = link_rows (log w)).
Proof.
  intros Htitle Hcreated Herr inserted. split.
  - intros Hmissing. unfold addSong. rewrite Htitle. cbn [negb].
    unfold bind at 1. rewrite supabase_run_run.
    fold (insert_song_query (song_insert_payload req)).
    rewrite Hcreated, Herr. unfold field at 1. rewrite Hmissing. done.
  - intros Hempty Hfile. split.
    + unfold addSong. rewrite Htitle. cbn [negb].
      unfold bind at 1. rewrite supabase_run_run.
      fold (insert_song_query (song_insert_payload req)).
      rewrite Hcreated, Herr, Hempty, Hfile. finish_run.
    + subst inserted. cbn [log with_log]. rewrite link_rows_app.
      cbn. by rewrite app_nil_r.
Qed.

Lemma addSong_without_artists_witness :
  addSong title_only_request (quiet_world id_seven_store)
  = (Thrown (JError "Cannot read properties of undefined (reading 'map')"),
     with_log (quiet_world id_seven_store)
       [StoreCall (insert_song_query (song_insert_payload title_only_request))]).
Proof.
  exact (proj1 (addSong_without_artists title_only_request
                  (quiet_world id_seven_store)
                  {| data := JObj [("id", JNum 7)]; error := JNull |}
                  eq_refl eq_refl eq_refl) eq_refl).
Defined.

(** ** Deleting *)

(** A delete that the record store refuses is answered with 500 and the
    store's message, and a delete whose promise rejects makes the handler
    reject; in both cases nothing is cleaned up: the one call made is the
    delete itself. Once an artist's row is deleted the answer is 200,
    however the asset service answers the clean-up call. *)
Theorem delete_failure_skips_cleanup (req : Request) (w : World) :
  let id := params_id req in
  let only (q : StoreQuery) := with_log w (log w ++ [StoreCall q]) in
  (forall r, supabase w (delete_song_query id) = Returned r ->
             truthy (error r) = true ->
             deleteSong req w
             = (Returned {| status := 500;
                            json := error_body (js_get "message" (error r)) |},
                only (delete_song_query id)))
  /\ (forall err, supabase w (delete_song_query id) = Thrown err ->
                  deleteSong req w = (Thrown err, only (delete_song_query id)))
  /\ (forall r, supabase w (delete_artist_query id) = Returned r ->
                truthy (error r) = true ->
                deleteArtist req w
                = (Returned {| status := 500;
                               json := error_body (js_get "message" (error r)) |},
                   only (delete_artist_query id)))
  /\ (forall err, supabase w (delete_artist_query id) = Thrown err ->
                  deleteArtist req w = (Thrown err, only (delete_artist_query id)))
  /\ (forall r, supabase w (delete_artist_query id) = Returned r ->
                truthy (error r) = false ->
                deleteArtist req w
                = (Returned {| status := 200;
                               json := message_body ("Artist " +:+ id +:+ " deleted") |},
                   with_log w (log w ++ [StoreCall (delete_artist_query id);
                                         CloudinaryDelete "artists" ("i-" +:+ id)]))).
Proof.
  intros id only. subst only. cbn beta.
  repeat apply conj; intros r Hstore; try intros Herr;
    unfold deleteSong, deleteArtist; unfold bind at 1;
    rewrite supabase_run_run;
    fold id; fold (delete_song_query id); fold (delete_artist_query id);
    rewrite Hstore; rewrite ?Herr; finish_run.
Qed.

Lemma delete_failure_skips_cleanup_witness :
  deleteSong plain_request (quiet_world refusing_store)
  = (Returned {| status := 500; json := error_body (JStr "permission denied") |},
     with_log (quiet_world refusing_store) [StoreCall (delete_song_query "7")]).
Proof.
  exact (proj1 (delete_failure_skips_cleanup plain_request
                  (quiet_world refusing_store))
               {| data := JNull;
                  error := JObj [("message", JStr "permission denied")] |}
               eq_refl eq_refl).
Defined.

(** ** Pre-signed URLs *)

(** For a song whose Primary link is found, the download and the upload URL
    are issued for one and the same object, [<artist name>/<title>.mp3],
    for 1800 and for 900 seconds; a failure of the blob store to sign is
    caught and answered with 500, never passed on as a rejection. *)
Theorem presigned_urls_share_one_key
    (req : Request) (w : World) (link : JsVal) :
  let artist := js_get "artist" link in
  let song := js_get "song" link in
  let key := object_key (js_get "name" artist) (js_get "title" song) in
  let asked := StoreCall (primary_link_query (params_id req)) in
  let answer (signed : Outcome string) : Response :=
    match signed with
    | Returned url => {| status := 200; json := JObj [("url", JStr url)] |}
    | Thrown err =>
        {| status := 500;
           json := error_body (JStr ("Error generating pre-signed URL: "
                                     +:+ js_to_string err)) |}
    end in
  supabase w (primary_link_query (params_id req))
  = Returned {| data := link; error := JNull |} ->
  truthy song = true -> truthy artist = true ->
  generatePresignedDownloadURL req w
  = (Returned (answer (backblaze_presign w key 1800)),
     with_log w (log w ++ [asked; BackblazePresignDownload key 1800]))
  /\ generatePresignedUploadURL req w
     = (Returned (answer (backblaze_presign w key 900)),
        with_log w (log w ++ [asked; BackblazePresignUpload key 900])).
Proof.
  intros artist song key asked answer Hstore Hsong Hartist.
  assert (is_nullish link = false) as Hlink.
  { destruct link; try done; discriminate Hsong. }
  split.
  - unfold generatePresignedDownloadURL, presigned_url. unfold bind at 1.
    rewrite supabase_run_run, Hstore. cbn [error truthy data].
    rewrite !(member_defined _ _ Hlink). unfold bind at 1 2, ret at 1 2.
    fold song artist. rewrite Hsong, Hartist. cbn [negb orb]. fold key.
    unfold try_catch, bind, backblaze_generatePresignedDownloadURL.
    cbn [backblaze_presign record with_log].
    subst answer asked. cbn beta.
    destruct (backblaze_presign w key 1800); finish_run.
  - unfold generatePresignedUploadURL, presigned_url. unfold bind at 1.
    rewrite supabase_run_run, Hstore. cbn [error truthy data].
    rewrite !(member_defined _ _ Hlink). unfold bind at 1 2, ret at 1 2.
    fold song artist. rewrite Hsong, Hartist. cbn [negb orb]. fold key.
    unfold try_catch, bind, backblaze_generatePresignedUploadURL.
    cbn [backblaze_presign record with_log].
    subst answer asked. cbn beta.
    destruct (backblaze_presign w key 900); finish_run.
Qed.

Lemma presigned_urls_share_one_key_witness :
  generatePresignedDownloadURL plain_request failing_cleanup_world
  = (Returned {| status := 200;
                 json := JObj [("url", JStr "https://blob.example/Adele/Hello.mp3")] |},
     with_log failing_cleanup_world
       [StoreCall (primary_link_query "7");
        BackblazePresignDownload "Adele/Hello.mp3" 1800]).
Proof.
  exact (proj1 (presigned_urls_share_one_key plain_request failing_cleanup_world
                  (JObj [("artist", JObj [("name", JStr "Adele")]);
                         ("song", JObj [("title", JStr "Hello")])])
                  eq_refl eq_refl eq_refl)).
Defined.

(** No URL is asked of the blob store when the link lookup fails or comes
    back without its song or its artist: the answer is the store's message
    with 500 in the first case and 404 in the second. *)
Theorem presigned_url_needs_primary_link (req : Request) (w : World) :
  let asked :=
    with_log w (log w ++ [StoreCall (primary_link_query (params_id req))]) in
  let both (answer : Response) : Prop :=
    generatePresignedDownloadURL req w = (Returned answer, asked)
    /\ generatePresignedUploadURL req w = (Returned answer, asked) in
  (forall r, supabase w (primary_link_query (params_id req)) = Returned r ->
             truthy (error r) = true ->
             both {| status := 500;
                     json := error_body (js_get "message" (error r)) |})
  /\ (forall link,
         supabase w (primary_link_query (params_id req))
         = Returned {| data := link; error := JNull |} ->
         is_nullish link = false ->
         truthy (js_get "song" link) && truthy (js_get "artist" link) = false ->
         both {| status := 404;
                 json := error_body (JStr "Artist or Song does not exist") |}).
Proof.
  intros asked both. subst both asked. cbn beta. split.
  - intros r Hstore Herr.
    split; unfold generatePresignedDownloadURL, generatePresignedUploadURL,
             presigned_url; unfold bind at 1;
      rewrite supabase_run_run, Hstore, Herr; finish_run.
  - intros link Hstore Hlink Hmissing.
    assert (negb (truthy (js_get "song" link))
            || negb (truthy (js_get "artist" link)) = true) as Hcond.
    { destruct (truthy (js_get "song" link)), (truthy (js_get "artist" link));
        done. }
    split; unfold generatePresignedDownloadURL, generatePresignedUploadURL,
             presigned_url; unfold bind at 1;
      rewrite supabase_run_run, Hstore; cbn [error truthy data];
      rewrite !(member_defined _ _ Hlink); unfold bind at 1 2, ret at 1 2;
      rewrite Hcond; finish_run.
Qed.

Lemma presigned_url_needs_primary_link_witness :
  generatePresignedUploadURL plain_request (quiet_world refusing_store)
  = (Returned {| status := 500; json := error_body (JStr "permission denied") |},
     with_log (quiet_world refusing_store) [StoreCall (primary_link_query "7")]).
Proof.
  exact (proj2 (proj1 (presigned_url_needs_primary_link plain_request
                         (quiet_world refusing_store))
                      {| data := JNull;
                         error := JObj [("message", JStr "permission denied")] |}
                      eq_refl eq_refl)).
Defined.

(** ** Paging *)




(** ** Cache keys *)

Lemma append_inj_l (a b c : string) : a +:+ b = a +:+ c -> b = c.
Proof.
  induction a as [|x a IH]; [done|].
  rewrite !append_cons. intros [= Heq]. by apply IH.
Qed.

Lemma digits_have_no_amp (s : string) :
  all_digits s = true -> count_char "&" s = 0%nat.
Proof.
  induction s as [|c s IH]; [done|]. cbn [all_digits count_char]. intros Hs.
  apply andb_true_iff in Hs as [Hc Hs]. rewrite (IH Hs).
  destruct (Ascii.eqb_spec "&" c) as [<-|_]; [|done].
  vm_compute in Hc. discriminate Hc.
Qed.

Lemma pretty_Z_has_no_amp (z : Z) : count_char "&" (pretty z) = 0%nat.
Proof.
  destruct z as [|p|p]; [done| |].
  - apply digits_have_no_amp, (pretty_N_digits (Npos p)).
  - change (pretty (Zneg p)) with ("-" +:+ pretty (Npos p)).
    rewrite count_char_app.
    by rewrite (digits_have_no_amp _ (pretty_N_digits (Npos p))).
Qed.

(** Two strings that end in the same separator, itself starting with the
    only [&] of what follows, and a tail free of [&], agree part by part. *)
Lemma split_at_last_amp (x x' sep s s' : string) :
  count_char "&" sep = 0%nat ->
  count_char "&" s = 0%nat -> count_char "&" s' = 0%nat ->
  x +:+ String "&" sep +:+ s = x' +:+ String "&" sep +:+ s' ->
  x = x' /\ s = s'.
Proof.
  intros Hsep Hs Hs'. revert x'.
  induction x as [|c x IH]; intros [|c' x'] Heq.
  - rewrite !append_empty, !append_cons in Heq. injection Heq as Heq.
    by apply append_inj_l in Heq.
  - rewrite append_empty, !append_cons in Heq. injection Heq as <- Heq.
    apply (f_equal (count_char "&")) in Heq.
    rewrite !count_char_app in Heq. simpl in Heq.
    rewrite !count_char_app in Heq. lia.
  - rewrite append_empty, !append_cons in Heq. injection Heq as -> Heq.
    apply (f_equal (count_char "&")) in Heq.
    rewrite !count_char_app in Heq. simpl in Heq.
    rewrite !count_char_app in Heq. lia.
  - rewrite !append_cons in Heq. injection Heq as -> Heq.
    by destruct (IH x' Heq) as [-> ->].
Qed.

(** Two strings free of [&] that are each followed by an [&] agree, and so
    does what follows. *)
Lemma split_at_first_amp (x x' r r' : string) :
  count_char "&" x = 0%nat -> count_char "&" x' = 0%nat ->
  x +:+ String "&" r = x' +:+ String "&" r' -> x = x' /\ r = r'.
Proof.
  revert x'. induction x as [|c x IH]; intros [|c' x'] Hx Hx' Heq.
  - rewrite !append_empty in Heq. by injection Heq as ->.
  - rewrite append_empty, append_cons in Heq. injection Heq as <- _.
    simpl in Hx'. lia.
  - rewrite append_empty, append_cons in Heq. injection Heq as -> _.
    simpl in Hx. lia.
  - rewrite !append_cons in Heq. injection Heq as -> Heq.
    simpl in Hx, Hx'.
    destruct (IH x') as [-> ->]; try done; lia.
Qed.

Lemma category_key_inj (c1 c2 t1 t2 : string) (p1 p2 l1 l2 : Z) :
  count_char "&" c1 = 0%nat -> count_char "&" c2 = 0%nat ->
  category_key c1 t1 p1 l1 = category_key c2 t2 p2 l2 ->
  c1 = c2 /\ t1 = t2 /\ p1 = p2 /\ l1 = l2.
Proof.
  intros Hc1 Hc2 Heq. unfold category_key in Heq.
  apply append_inj_l in Heq.
  apply split_at_first_amp in Heq as [<- Heq]; [|done..].
  apply (append_inj_l "term=") in Heq.
  rewrite <- !(append_assoc _ "&page=" _) in Heq.
  rewrite <- !(append_assoc _ (pretty _) _) in Heq.
  apply (split_at_last_amp _ _ "limit=") in Heq as [Heq Hl];
    [|done|apply pretty_Z_has_no_amp..].
  rewrite !append_assoc in Heq.
  apply (split_at_last_amp _ _ "page=" (pretty p1) (pretty p2)) in Heq as [<- Hp];
    [|done|apply pretty_Z_has_no_amp..].
  apply (inj pretty) in Hl, Hp. by subst.
Qed.

Lemma songs_page_key_inj (req1 req2 : Request) :
  songs_page_key req1 = songs_page_key req2 ->
  page_range req1 10 = page_range req2 10.
Proof.
  unfold songs_page_key, page_range. intros Heq.
  apply append_inj_l in Heq.
  apply split_at_first_amp in Heq as [Hp Hl]; [|apply pretty_Z_has_no_amp..].
  apply (append_inj_l "limit=") in Hl.
  apply (inj pretty) in Hl, Hp. by rewrite Hl, Hp.
Qed.

(** Cache entries are never shared by requests that differ: two
    per-category searches have the same key only when category, term, page
    and limit (as the handlers resolve them) are the same, whatever
    characters the term contains; two default searches only for the same
    term; two song lists only for the same window; two song reads only for
    the same id. Keys of different kinds of request always differ. *)
Theorem cache_keys_do_not_collide (req1 req2 : Request) :
  (forall c1 c2 d1 d2,
      In c1 search_categories -> In c2 search_categories ->
      request_key c1 d1 req1 = request_key c2 d2 req2 ->
      c1 = c2 /\ params_term req1 = params_term req2
      /\ number_or (query_page req1) 1 = number_or (query_page req2) 1
      /\ number_or (query_limit req1) d1 = number_or (query_limit req2) d2)
  /\ (default_key (params_term req1) = default_key (params_term req2) ->
      params_term req1 = params_term req2)
  /\ (songs_page_key req1 = songs_page_key req2 ->
      page_range req1 10 = page_range req2 10)
  /\ (song_id_key req1 = song_id_key req2 -> params_id req1 = params_id req2)
  /\ (forall c d, default_key (params_term req1) <> request_key c d req2)
  /\ songs_page_key req1 <> song_id_key req2
  /\ (forall c d, songs_page_key req1 <> request_key c d req2
                  /\ song_id_key req1 <> request_key c d req2)
  /\ songs_page_key req1 <> default_key (params_term req2)
  /\ song_id_key req1 <> default_key (params_term req2).
Proof.
  assert (forall c, In c search_categories -> count_char "&" c = 0%nat) as Hamp.
  { intros c Hc. repeat (destruct Hc as [<-|Hc]; [done|]). destruct Hc. }
  split.
  { intros c1 c2 d1 d2 Hc1 Hc2 Heq. unfold request_key in Heq.
    by apply category_key_inj in Heq; auto. }
  split; [apply append_inj_l|].
  split; [apply songs_page_key_inj|].
  split; [apply append_inj_l|].
  unfold default_key, request_key, category_key, songs_page_key, song_id_key.
  repeat apply conj; try intros c d; try apply conj; intros Heq;
    apply (f_equal (string_take 10)) in Heq; lazy in Heq; discriminate Heq.
Qed.

Lemma cache_keys_do_not_collide_witness :
  "songs" = "songs" /\ params_term plain_request = params_term plain_request
  /\ number_or (query_page plain_request) 1 = number_or (Some 0) 1
  /\ number_or (query_limit plain_request) 20 = number_or (Some 20) 30.
Proof.
  apply (proj1 (cache_keys_do_not_collide plain_request
                  (with_paging plain_request (Some 0) (Some 20)))
               "songs" "songs" 20 30).
  - left. reflexivity.
  - left. reflexivity.
  - reflexivity.
Defined.

(** ** What a cached read writes *)

Lemma redis_after_set (key : string) (value : JsVal) (ex : N) (w : World) :
  redis (snd (redis_set key value ex w)) = redis w
  \/ redis (snd (redis_set key value ex w))
     = <[key := (value, (clock w + ex)%N)]> (redis w).
Proof.
  unfold redis_set. cbn [redis_set_fault record with_log].
  destruct (redis_set_fault w); [by left|by right].
Qed.

Section CachedReads.
Context `{Utils}.

Lemma searchDefault_writes (req : Request) :
  writes_at_most (searchDefault req) (default_key (params_term req)).
Proof.
  intros w.
  destruct (is_admin (enforceRole (authorization req))) eqn:Hrole;
    [rewrite searchDefault_admin by done; by left|].
  destruct (redis_get_fault w) as [err|] eqn:Hfault;
    [rewrite (searchDefault_get_fault _ _ err) by done; by left|].
  destruct (truthy (cache_read w (default_key (params_term req)))) eqn:Hc;
    [rewrite searchDefault_hit by done; by left|].
  rewrite searchDefault_miss by done. cbn [fst snd].
  set (fresh := fresh_default_response _).
  destruct (Z.eqb_spec (status fresh) 200) as [H200|_]; [|by left].
  destruct (redis_after_set (default_key (params_term req)) (json fresh) 300
              (with_log w (log w ++ RedisGet (default_key (params_term req))
                                 :: map StoreCall (default_queries (params_term req)))))
    as [Hsame|Hset]; [by left|].
  right. exists (json fresh), (json fresh). split; [|exact Hset].
  destruct fresh as [st body]. cbn [status json] in *. by rewrite H200.
Qed.

Lemma search_category_writes (category : string) (default_limit : Z)
    (query : string -> Z * Z -> StoreQuery) (req : Request) :
  writes_at_most (search_category category default_limit query req)
                 (request_key category default_limit req).
Proof.
  intros w.
  destruct (is_admin (enforceRole (authorization req))) eqn:Hrole;
    [rewrite search_category_admin by done; by left|].
  destruct (redis_get_fault w) as [err|] eqn:Hfault;
    [rewrite (search_category_get_fault _ _ _ _ _ err) by done; by left|].
  destruct (truthy (cache_read w (request_key category default_limit req)))
    eqn:Hc; [rewrite search_category_hit by done; by left|].
  rewrite search_category_miss by done. cbn [fst snd].
  destruct (supabase w _) as [r|err]; [|by left].
  cbn [fresh_category_response].
  destruct (truthy (error r)); [by left|].
  match goal with
  | |- context [redis_set ?k ?v ?ex ?w1] =>
      destruct (redis_after_set k v ex w1) as [Hsame|Hset]
  end; [by left|].
  right. by exists (data r), (data_body (data r)).
Qed.

End CachedReads.

Lemma getAllSongs_writes (req : Request) :
  writes_at_most (getAllSongs req) (songs_page_key req).
Proof.
  intros w. destruct (getAllSongs req w) as [o w'] eqn:Hrun. cbn [fst snd].
  unfold getAllSongs in Hrun. unfold bind at 1 in Hrun.
  rewrite redis_get_run in Hrun. fold (songs_page_key req) in Hrun.
  destruct (redis_get_fault w); [injection Hrun as <- <-; by left|].
  destruct (truthy (cache_read w (songs_page_key req)));
    [injection Hrun as <- <-; by left|].
  unfold bind at 1 in Hrun. rewrite supabase_run_run in Hrun.
  destruct (supabase _ _) as [r|err]; [|injection Hrun as <- <-; by left].
  destruct (truthy (error r)); [injection Hrun as <- <-; by left|].
  unfold bind, detach, respond, ret in Hrun. cbn [fst snd] in Hrun.
  injection Hrun as <- <-.
  match goal with
  | |- context [redis_set ?k ?v ?ex ?w1] =>
      destruct (redis_after_set k v ex w1) as [Hsame|Hset]
  end; [by left|].
  right. by exists (JSON_stringify_value (data r)), (data_body (data r)).
Qed.

Lemma getSongByID_writes (req : Request) :
  writes_at_most (getSongByID req) (song_id_key req).
Proof.
  intros w. destruct (getSongByID req w) as [o w'] eqn:Hrun. cbn [fst snd].
  unfold getSongByID in Hrun. unfold bind at 1 in Hrun.
  rewrite redis_get_run in Hrun. fold (song_id_key req) in Hrun.
  destruct (redis_get_fault w); [injection Hrun as <- <-; by left|].
  destruct (truthy (cache_read w (song_id_key req)));
    [injection Hrun as <- <-; by left|].
  unfold bind at 1 in Hrun. rewrite supabase_run_run in Hrun.
  destruct (supabase _ _) as [r|err]; [|injection Hrun as <- <-; by left].
  destruct (truthy (error r)); [injection Hrun as <- <-; by left|].
  unfold bind, detach, respond, ret in Hrun. cbn [fst snd] in Hrun.
  injection Hrun as <- <-.
  match goal with
  | |- context [redis_set ?k ?v ?ex ?w1] =>
      destruct (redis_after_set k v ex w1) as [Hsame|Hset]
  end; [by left|].
  right. by exists (JSON_stringify_value (data r)), (data_body (data r)).
Qed.

(** Every read that goes through the cache changes it at most by the entry
    under its own key, written with 300 seconds to live, and only when it
    answers 200: an answer with another status, or a rejection, leaves the
    cache as it was, and entries under other keys are never touched. *)
Theorem cached_reads_write_their_own_entry `{Utils} (req : Request) :
  (writes_at_most (getAllSongs req) (songs_page_key req)
   /\ writes_at_most (getSongByID req) (song_id_key req)
   /\ writes_at_most (searchDefault req) (default_key (params_term req))
   /\ writes_at_most (searchSongs req) (request_key "songs" 20 req)
   /\ writes_at_most (searchArtists req) (request_key "artists" 30 req)
   /\ writes_at_most (searchUsers req) (request_key "users" 30 req)
   /\ writes_at_most (searchPlaylists req) (request_key "playlists" 30 req)
   /\ writes_at_most (searchAlbums req) (request_key "albums" 30 req))
  /\ forall (m : M Response) (key : string) (w : World),
       writes_at_most m key ->
       (forall k, k <> key -> redis (snd (m w)) !! k = redis w !! k)
       /\ (forall resp, fst (m w) = Returned resp -> status resp <> 200 ->
                        redis (snd (m w)) = redis w)
       /\ (forall err, fst (m w) = Thrown err -> redis (snd (m w)) = redis w).
Proof.
  split.
  - split; [apply getAllSongs_writes|]. split; [apply getSongByID_writes|].
    split; [apply searchDefault_writes|].
    repeat apply conj; apply search_category_writes.
  - intros m key w Hm.
    destruct (Hm w) as [Hsame|(value & body & Hfst & Hset)].
    + rewrite Hsame. by repeat split.
    + repeat split.
      * intros k Hk. rewrite Hset. by apply lookup_insert_ne.
      * intros resp Hresp Hstatus. rewrite Hfst in Hresp.
        injection Hresp as <-. by destruct Hstatus.
      * intros err Herr. by rewrite Hfst in Herr.
Qed.

Lemma cached_reads_write_their_own_entry_witness :
  redis (snd (getSongByID plain_request (quiet_world refusing_store)))
  = redis (quiet_world refusing_store).
Proof.
  refine (proj1 (proj2 (proj2 (@cached_reads_write_their_own_entry header_role
                                 plain_request)
                              (getSongByID plain_request) "songs?id=7"
                              (quiet_world refusing_store)
                              (getSongByID_writes plain_request)))
                 {| status := 500; json := error_body (JStr "permission denied") |}
                 eq_refl _).
  discriminate.
Defined.

(** ** How long a cached default search is served *)

Lemma cache_read_expired (w w2 : World) (key : string) (value : JsVal) :
  redis_set_fault w = None ->
  redis w2 = redis (snd (redis_set key value 300 w)) ->
  (clock w + 300 <= clock w2)%N ->
  cache_read w2 key = JNull.
Proof.
  intros Hfault Hredis Hclock. unfold cache_read. rewrite Hredis.
  unfold redis_set. cbn [redis_set_fault record with_log]. rewrite Hfault.
  cbn [snd with_redis redis clock]. rewrite lookup_insert_eq.
  change (clock (record _ w)) with (clock w).
  apply N.ltb_ge in Hclock. by rewrite Hclock.
Qed.

(** A default search answered with 200 on a miss is replayed from the cache
    to callers who are not [Admin] for the next 300 seconds and not longer:
    before that the answer is the stored one, whatever the record store
    holds by then, and from then on it is computed afresh from the record
    store. *)
Theorem default_search_is_stale_for_300_seconds `{Utils}
    (req : Request) (w w2 : World) :
  is_admin (enforceRole (authorization req)) = false ->
  redis_get_fault w = None -> redis_set_fault w = None ->
  redis_get_fault w2 = None ->
  truthy (cache_read w (default_key (params_term req))) = false ->
  (exists body, fst (searchDefault req w)
                = Returned {| status := 200; json := body |}) ->
  redis w2 = redis (snd (searchDefault req w)) ->
  ((clock w2 < clock w + 300)%N ->
   searchDefault req w2
   = (fst (searchDefault req w),
      record (RedisGet (default_key (params_term req))) w2))
  /\ ((clock w + 300 <= clock w2)%N ->
      fst (searchDefault req w2)
      = Returned (fresh_default_response
                    (map (supabase w2) (default_queries (params_term req))))).
Proof.
  intros Hrole Hget Hset Hget2 Hmiss Hbody Hredis. split.
  - intros Hclock. by apply searchDefault_replays_miss.
  - intros Hclock. destruct Hbody as [body Hbody].
    rewrite (searchDefault_miss req w) in Hredis, Hbody by done.
    cbn [fst snd] in *.
    set (fresh := fresh_default_response _) in *. clearbody fresh.
    injection Hbody as ->. cbn [status json Z.eqb Pos.eqb] in Hredis.
    assert (cache_read w2 (default_key (params_term req)) = JNull) as Hread.
    { apply (cache_read_expired
               (with_log w (log w ++ RedisGet (default_key (params_term req))
                                  :: map StoreCall (default_queries (params_term req))))
               w2 _ body); [exact Hset|exact Hredis|exact Hclock]. }
    rewrite searchDefault_outcome. cbn zeta. rewrite Hrole.
    unfold read_through. by rewrite Hget2, Hread.
Qed.

Lemma default_search_is_stale_for_300_seconds_witness :
  let w := quiet_world hello_store in
  let w2 := later (snd (@searchDefault header_role plain_request w)) 300 in
  fst (@searchDefault header_role plain_request w2)
  = Returned (fresh_default_response
                (map (supabase w2) (default_queries "hello"))).
Proof.
  intros w w2.
  refine (proj2 (@default_search_is_stale_for_300_seconds header_role
                   plain_request w w2 eq_refl eq_refl eq_refl eq_refl eq_refl
                   _ eq_refl) _).
  - eexists. vm_compute. reflexivity.
  - vm_compute. discriminate.
Defined.

(** ** The order that is submitted *)

Lemma Number_of_exact (z : Z) : Z.abs z <= 2 ^ 53 -> Number_of z = Finite z.
Proof.
  intros Hz. unfold Number_of. cbn zeta.
  by destruct (Z.leb_spec (Z.abs z) (2 ^ 53)); [|lia].
Qed.

Section SubmittedOrder.
Context `{Crypto} `{OrderItems OrderItem}.

Lemma absolute_total_nonneg (items : list OrderItem) : 0 <= absolute_total items.
Proof. induction items as [|i items IH]; simpl; lia. Qed.

Lemma exact_total_app (a b : list OrderItem) :
  exact_total (a ++ b) = exact_total a + exact_total b.
Proof. induction a as [|i a IH]; simpl; [done|]. rewrite IH. lia. Qed.

Lemma absolute_total_app (a b : list OrderItem) :
  absolute_total (a ++ b) = absolute_total a + absolute_total b.
Proof. induction a as [|i a IH]; simpl; [done|]. rewrite IH. lia. Qed.

Lemma exact_total_bound (items : list OrderItem) :
  Z.abs (exact_total items) <= absolute_total items.
Proof. induction items as [|i items IH]; simpl; lia. Qed.

Lemma fold_amount_exact (items : list OrderItem) (acc : Z) :
  whole_doubles items ->
  Z.abs acc + absolute_total items <= 2 ^ 53 ->
  fold_left (fun acc item =>
               js_add acc (js_mul (Number_of (itemprice item))
                                  (Number_of (itemquantity item))))
            items (Finite acc)
  = Finite (acc + exact_total items).
Proof.
  intros Hwhole. revert acc.
  induction Hwhole as [|i items [Hp Hq] _ IH]; intros acc Hbound.
  - simpl. f_equal. lia.
  - pose proof (absolute_total_nonneg items) as Hnn.
    change (absolute_total (i :: items))
      with (Z.abs (itemprice i * itemquantity i) + absolute_total items)
      in Hbound.
    change (exact_total (i :: items))
      with (itemprice i * itemquantity i + exact_total items).
    cbn [fold_left].
    rewrite (Number_of_exact _ Hp), (Number_of_exact _ Hq). cbn [js_mul].
    rewrite Number_of_exact by lia. cbn [js_add].
    rewrite Number_of_exact by lia.
    rewrite IH by lia. f_equal. lia.
Qed.

Lemma order_amount_of_exact (items : list OrderItem) :
  whole_doubles items -> absolute_total items <= 2 ^ 53 ->
  order_amount_of items = Finite (exact_total items).
Proof.
  intros Hwhole Hbound. unfold order_amount_of.
  rewrite fold_amount_exact by (try done; simpl; lia). done.
Qed.

End SubmittedOrder.

Example order_amount_of_rounds :
  @order_amount_of CartItem cart_items large_cart = Finite (2 ^ 53)
  /\ @exact_total CartItem cart_items large_cart = 2 ^ 53 + 2.
Proof. by vm_compute. Qed.

(** The order [createOrder] posts is for the caller's user id, the clock's
    time, the serialised items and the amount that adding price times
    quantity item by item gives in JavaScript numbers; its MAC is the one of
    its own fields joined by [|] in the order [app_id], [app_trans_id],
    [app_user], [amount], [app_time], [embed_data], [item], and the call
    ends as the request of that order does. While every price and quantity
    is a whole number and the absolute amounts add up to [2^53] at most,
    the amount is the exact sum, and the amount of two carts put together
    is the sum of their amounts; beyond that, sums are rounded. *)
Theorem submitted_order_totals_the_cart `{Crypto} `{OrderItems OrderItem} :
  (forall items : list OrderItem,
      whole_doubles items -> absolute_total items <= 2 ^ 53 ->
      order_amount_of items = Finite (exact_total items))
  /\ (forall a b : list OrderItem,
         whole_doubles (a ++ b) -> absolute_total (a ++ b) <= 2 ^ 53 ->
         order_amount_of (a ++ b)
         = js_add (order_amount_of a) (order_amount_of b))
  /\ forall (this : ZaloPay) (date : JsDate) (now : N) (user_id : string)
       (items : list OrderItem),
       (forall data, exists mac,
           createHmac_sha256_hex (key1 (client this)) data = Digest mac) ->
       exists order,
         (forall post,
             snd (createOrder this (observed date now post) user_id items)
             = answer_with_id order (post create_url order))
         /\ order_amount order = order_amount_of items
         /\ order_app_user order = user_id
         /\ order_item order = JSON_stringify_items items
         /\ order_app_time order = now
         /\ createHmac_sha256_hex (key1 (client this))
              (order_app_id order +:+ "|" +:+ order_app_trans_id order +:+ "|"
               +:+ order_app_user order +:+ "|"
               +:+ Number_toString (order_amount order) +:+ "|"
               +:+ pretty (order_app_time order) +:+ "|"
               +:+ order_embed_data order +:+ "|" +:+ order_item order)
            = Digest (order_mac order).
Proof.
  split; [apply order_amount_of_exact|]. split.
  - intros a b Hwhole Hbound.
    pose proof (absolute_total_nonneg a) as Ha.
    pose proof (absolute_total_nonneg b) as Hb.
    rewrite absolute_total_app in Hbound.
    apply Forall_app in Hwhole as [Hwa Hwb].
    rewrite (order_amount_of_exact (a ++ b));
      [|by apply Forall_app|rewrite absolute_total_app; lia].
    rewrite (order_amount_of_exact a), (order_amount_of_exact b) by (done || lia).
    cbn [js_add]. rewrite exact_total_app.
    pose proof (exact_total_bound a). pose proof (exact_total_bound b).
    by rewrite Number_of_exact by lia.
  - intros this date now user_id items Hhash.
    destruct (createOrder_posts this date now user_id items Hhash)
      as (order & Hrun & _ & _ & Huser & Htime & Hitem & Hamount & Hmac).
    exists order. split; [intros post; by rewrite Hrun|]. done.
Qed.

Lemma submitted_order_totals_the_cart_witness :
  @order_amount_of CartItem cart_items (one_month ++ one_month)
  = js_add (@order_amount_of CartItem cart_items one_month)
           (@order_amount_of CartItem cart_items one_month)
  /\ exists order,
       (forall post,
           snd (@createOrder node_crypto CartItem cart_items
                  (@new_ZaloPay merchant_env 1730000123456)
                  (observed (new_Date (accepting_day 5)) 1730000123456 post)
                  "user-1" one_month)
           = answer_with_id order (post create_url order))
       /\ order_amount order = Finite 59000.
Proof.
  split.
  - apply (proj1 (proj2 (@submitted_order_totals_the_cart node_crypto
                           CartItem cart_items)) one_month one_month).
    + repeat constructor; vm_compute; discriminate.
    + vm_compute. discriminate.
  - destruct (proj2 (proj2 (@submitted_order_totals_the_cart node_crypto
                              CartItem cart_items))
                (@new_ZaloPay merchant_env 1730000123456)
                (new_Date (accepting_day 5)) 1730000123456%N "user-1" one_month)
      as (order & Hrun & Hamount & _).
    + intros data. eexists. reflexivity.
    + exists order. split; [exact Hrun|]. rewrite Hamount. reflexivity.
Defined.

(** ** The client's keys and its counter *)

Section ClientState.
Context `{Crypto} `{OrderItems OrderItem}.

Lemma later_state_client (this this' : ZaloPay) :
  later_state this this' -> client this' = client this.
Proof.
  induction 1 as [this|this env user_id items this' _ IH]; [done|].
  by rewrite IH, createOrder_state.
Qed.

End ClientState.

(** Orders created in between do not change how a callback is verified or
    how a status query is made: both read the client's keys only, and
    [createOrder] never changes them, however it ends. *)
Theorem verification_ignores_order_traffic `{Crypto} `{OrderItems OrderItem}
    (this this' : ZaloPay) :
  later_state this this' ->
  (forall dataStr reqMac,
      receiveOrderCallback this' dataStr reqMac
      = receiveOrderCallback this dataStr reqMac)
  /\ (forall axios app_trans_id,
         getOrderStatus this' axios app_trans_id
         = getOrderStatus this axios app_trans_id).
Proof.
  intros Hlater. apply later_state_client in Hlater.
  split; intros; unfold receiveOrderCallback, getOrderStatus; by rewrite Hlater.
Qed.

Lemma verification_ignores_order_traffic_witness :
  let this := @new_ZaloPay merchant_env 1730000123456 in
  let this' :=
    fst (@createOrder node_crypto CartItem cart_items this (accepting_day 5)
           "user-1" one_month) in
  @receiveOrderCallback node_crypto this' "{}" "00"
  = @receiveOrderCallback node_crypto this "{}" "00".
Proof.
  intros this this'.
  apply (@verification_ignores_order_traffic node_crypto CartItem cart_items
           this this').
  apply (later_call this (accepting_day 5) "user-1" one_month), later_same.
Defined.



(** ** What the cached song reads replay *)

Lemma JSON_text_truthy (v : JsVal) (text : string) :
  JSON_stringify v = Some text -> truthy (JStr text) = true.
Proof.
  destruct v as [| |b|n|s|items|props|m]; cbn [JSON_stringify]; try done;
    intros [= <-]; cbn [truthy]; rewrite ?append_cons; try done.
  - by destruct b.
  - destruct n as [|p|p]; [done| |done].
    change (pretty (Zpos p)) with (pretty (Npos p)).
    pose proof (pretty_N_nonempty (Npos p)) as Hne.
    by destruct (pretty (Npos p)).
Qed.

Lemma getAllSongs_miss (req : Request) (w : World) (r : QueryResult) :
  redis_get_fault w = None ->
  truthy (cache_read w (songs_page_key req)) = false ->
  supabase w (songs_page_query req) = Returned r ->
  truthy (error r) = false ->
  getAllSongs req w
  = (Returned {| status := 200; json := data_body (data r) |},
     snd (redis_set (songs_page_key req) (JSON_stringify_value (data r)) 300
            (with_log w (log w ++ [RedisGet (songs_page_key req);
                                   StoreCall (songs_page_query req)])))).
Proof.
  intros Hfault Hmiss Hstore Herror. unfold getAllSongs, bind at 1.
  rewrite redis_get_run, Hfault. fold (songs_page_key req). rewrite Hmiss.
  fold (page_range req 10). fold (songs_page_query req).
  unfold bind at 1. rewrite supabase_run_run. cbn [supabase record with_log].
  rewrite Hstore, Herror. finish_run.
Qed.

Lemma getSongByID_miss (req : Request) (w : World) (r : QueryResult) :
  redis_get_fault w = None ->
  truthy (cache_read w (song_id_key req)) = false ->
  supabase w (song_id_query req) = Returned r ->
  truthy (error r) = false ->
  getSongByID req w
  = (Returned {| status := 200; json := data_body (data r) |},
     snd (redis_set (song_id_key req) (JSON_stringify_value (data r)) 300
            (with_log w (log w ++ [RedisGet (song_id_key req);
                                   StoreCall (song_id_query req)])))).
Proof.
  intros Hfault Hmiss Hstore Herror. unfold getSongByID, bind at 1.
  rewrite redis_get_run, Hfault. fold (song_id_key req). rewrite Hmiss.
  fold (song_id_query req).
  unfold bind at 1. rewrite supabase_run_run. cbn [supabase record with_log].
  rewrite Hstore, Herror. finish_run.
Qed.

Lemma getAllSongs_hit (req : Request) (w : World) :
  redis_get_fault w = None ->
  truthy (cache_read w (songs_page_key req)) = true ->
  getAllSongs req w
  = (Returned {| status := 200; json := cache_read w (songs_page_key req) |},
     record (RedisGet (songs_page_key req)) w).
Proof.
  intros Hfault Hhit. unfold getAllSongs, bind at 1.
  rewrite redis_get_run, Hfault. fold (songs_page_key req). by rewrite Hhit.
Qed.

(** The song list and the song by id answer a miss with the rows under
    [data] and write the JSON text of the bare rows to the cache. A request
    served from that entry within 300 seconds gets the text itself as its
    body, a string and not the object of the first answer, and the record
    store is not asked. *)
Theorem song_reads_replay_json_text (by_id : bool) (req : Request)
    (w w2 : World) (r : QueryResult) (text : string) :
  let handler := if by_id then getSongByID req else getAllSongs req in
  let key := if by_id then song_id_key req else songs_page_key req in
  let q := if by_id then song_id_query req else songs_page_query req in
  redis_get_fault w = None -> redis_set_fault w = None ->
  redis_get_fault w2 = None ->
  truthy (cache_read w key) = false ->
  supabase w q = Returned r ->
  truthy (error r) = false ->
  JSON_stringify (data r) = Some text ->
  redis w2 = redis (snd (handler w)) ->
  (clock w2 < clock w + 300)%N ->
  fst (handler w) = Returned {| status := 200; json := data_body (data r) |}
  /\ log (snd (handler w))
     = log w ++ [RedisGet key; StoreCall q; RedisSet key (JStr text) 300]
  /\ (if by_id then getSongByID req w2 else getAllSongs req w2)
     = (Returned {| status := 200; json := JStr text |}, record (RedisGet key) w2)
  /\ JStr text <> data_body (data r).
Proof.
  intros handler key q Hget Hset Hget2 Hmiss Hstore Herror Htext Hredis Hclock.
  assert (handler w
          = (Returned {| status := 200; json := data_body (data r) |},
             snd (redis_set key (JStr text) 300
                    (with_log w (log w ++ [RedisGet key; StoreCall q])))))
    as Hrun.
  { subst handler key q. destruct by_id.
    - rewrite (getSongByID_miss req w r) by done.
      unfold JSON_stringify_value. by rewrite Htext.
    - rewrite (getAllSongs_miss req w r) by done.
      unfold JSON_stringify_value. by rewrite Htext. }
  rewrite Hrun in Hredis |- *. cbn [fst snd].
  assert (cache_read w2 key = JStr text) as Hread.
  { apply (cache_read_after_set
             (with_log w (log w ++ [RedisGet key; StoreCall q])) w2 _ _ 300);
      [exact Hset|exact Hredis|exact Hclock]. }
  pose proof (JSON_text_truthy _ _ Htext) as Htruthy.
  repeat split.
  - unfold redis_set. cbn [redis_set_fault record with_log log]. rewrite Hset.
    cbn [snd with_redis record with_log log]. by rewrite <- app_assoc.
  - subst key. destruct by_id.
    + rewrite getSongByID_hit; rewrite ?Hread; done.
    + rewrite getAllSongs_hit; rewrite ?Hread; done.
  - discriminate.
Qed.

Lemma song_reads_replay_json_text_witness :
  let w := quiet_world hello_store in
  let w2 := later (snd (getAllSongs plain_request w)) 10 in
  getAllSongs plain_request w2
  = (Returned {| status := 200;
                 json := JStr (default "" (JSON_stringify hello_rows)) |},
     record (RedisGet "songs?page=1&limit=10") w2).
Proof.
  intros w w2.
  refine (proj1 (proj2 (proj2 (song_reads_replay_json_text false plain_request
                                 w w2 {| data := hello_rows; error := JNull |}
                                 (default "" (JSON_stringify hello_rows))
                                 eq_refl eq_refl eq_refl eq_refl eq_refl
                                 eq_refl eq_refl eq_refl _)))).
  vm_compute. reflexivity.
Defined.

(** ** Attachments of updates *)

(** [updateSong] and [updateArtist] hand the attachment to the asset
    service only after the record store accepted the update, filed under
    the entity's folder and the id of the route; the answer is 200 whatever
    the asset service does with it. When the record store reports an error
    the answer is 500 with its message and nothing is uploaded. *)
Theorem attachment_follows_accepted_update (req : Request) (w : World)
    (r_song r_artist : QueryResult) (f : string) :
  let q_song := update_query "songs" (params_id req) (song_update_payload req) in
  let q_artist := update_query "artists" (params_id req) (artist_payload req) in
  file req = Some f ->
  supabase w q_song = Returned r_song ->
  supabase w q_artist = Returned r_artist ->
  (if truthy (error r_song)
   then updateSong req w
        = (Returned {| status := 500;
                       json := error_body (js_get "message" (error r_song)) |},
           record (StoreCall q_song) w)
   else updateSong req w
        = (Returned {| status := 200;
                       json := message_body ("Song " +:+ params_id req
                                             +:+ " updated successfully") |},
           with_log w (log w ++ [StoreCall q_song;
                                 CloudinaryUpload f "songs" (JStr (params_id req))])))
  /\ (if truthy (error r_artist)
      then updateArtist req w
           = (Returned {| status := 500;
                          json := error_body (js_get "message" (error r_artist)) |},
              record (StoreCall q_artist) w)
      else updateArtist req w
           = (Returned {| status := 200;
                          json := message_body ("Artist " +:+ params_id req
                                                +:+ " updated successfully") |},
              with_log w (log w ++ [StoreCall q_artist;
                                    CloudinaryUpload f "artists"
                                                     (JStr (params_id req))]))).
Proof.
  intros q_song q_artist Hfile Hsong Hartist. split.
  - subst q_song. unfold update_query in *.
    destruct (truthy (error r_song)) eqn:Herror;
      unfold updateSong; cbn zeta; unfold bind at 1;
      rewrite supabase_run_run, Hsong, Herror; [done|].
    rewrite Hfile. finish_run.
  - subst q_artist. unfold update_query in *.
    destruct (truthy (error r_artist)) eqn:Herror;
      unfold updateArtist; cbn zeta; unfold bind at 1;
      rewrite supabase_run_run, Hartist, Herror; [done|].
    rewrite Hfile. finish_run.
Qed.

Lemma attachment_follows_accepted_update_witness :
  updateSong attachment_request (quiet_world refusing_store)
  = (Returned {| status := 500; json := error_body (JStr "permission denied") |},
     record (StoreCall (update_query "songs" "7"
                          (song_update_payload attachment_request)))
            (quiet_world refusing_store)).
Proof.
  exact (proj1 (attachment_follows_accepted_update attachment_request
                  (quiet_world refusing_store)
                  {| data := JNull;
                     error := JObj [("message", JStr "permission denied")] |}
                  {| data := JNull;
                     error := JObj [("message", JStr "permission denied")] |}
                  "cover.png" eq_refl eq_refl eq_refl)).
Defined.

(** ** Queries that reject *)

Lemma all_returned_some_thrown {A} (os : list (Outcome A)) (err : JsVal) :
  In (Thrown err) os ->
  exists e, all_returned os = Thrown e /\ In (Thrown e) os.
Proof.
  induction os as [|o os IH]; [done|]. intros Hin.
  destruct o as [a|e]; cbn [all_returned].
  - destruct Hin as [?|Hin]; [done|].
    destruct (IH Hin) as (e & -> & He). exists e. split; [done|by right].
  - exists e. split; [done|by left].
Qed.

(** When a query of the record store rejects instead of resolving, the
    default search still issues all five queries, answers 500 with one of
    the rejections as the [error], and writes nothing to the cache; a
    per-category search has no handler for it and ends with the rejection,
    without a response. *)
Theorem rejection_is_caught_by_default_search_only `{Utils} (req : Request)
    (w : World) (err : JsVal) :
  let role := enforceRole (authorization req) in
  let key := default_key (params_term req) in
  let settled := map (supabase w) (default_queries (params_term req)) in
  (is_admin role = true
   \/ (redis_get_fault w = None /\ truthy (cache_read w key) = false)) ->
  In (Thrown err) settled ->
  (exists e,
      In (Thrown e) settled
      /\ fst (searchDefault req w)
         = Returned {| status := 500; json := error_body e |}
      /\ log (snd (searchDefault req w))
         = log w ++ (if is_admin role then [] else [RedisGet key])
                 ++ map StoreCall (default_queries (params_term req))
      /\ redis (snd (searchDefault req w)) = redis w)
  /\ forall category default_limit query,
       (is_admin role = true
        \/ (redis_get_fault w = None
            /\ truthy (cache_read w (request_key category default_limit req))
               = false)) ->
       supabase w (query (params_term req) (page_range req default_limit))
       = Thrown err ->
       fst (search_category category default_limit query req w) = Thrown err
       /\ redis (snd (search_category category default_limit query req w))
          = redis w.
Proof.
  intros role key settled Hasks Hsettled. subst role key.
  destruct (all_returned_some_thrown _ _ Hsettled) as (e & Hall & He).
  assert (fresh_default_response settled
          = {| status := 500; json := error_body e |}) as Hfresh.
  { unfold fresh_default_response. by rewrite Hall. }
  subst settled. split.
  - exists e. split; [exact He|].
    destruct (is_admin (enforceRole (authorization req))) eqn:Hrole.
    + rewrite searchDefault_admin by done. cbn [fst snd log redis with_log].
      by rewrite Hfresh.
    + destruct Hasks as [?|[Hfault Hmiss]]; [done|].
      rewrite searchDefault_miss by done. cbn [fst snd].
      rewrite Hfresh. cbn [status Z.eqb Pos.eqb log redis with_log].
      by repeat split.
  - intros category default_limit query Hasks' Hstore.
    destruct (is_admin (enforceRole (authorization req))) eqn:Hrole.
    + rewrite search_category_admin by done. cbn [fst snd redis with_log].
      by rewrite Hstore.
    + destruct Hasks' as [?|[Hfault Hmiss]]; [done|].
      rewrite search_category_miss by done. cbn [fst snd].
      by rewrite Hstore.
Qed.

Lemma rejection_is_caught_by_default_search_only_witness :
  fst (@searchSongs header_role plain_request (quiet_world unreachable_store))
  = Thrown (JError "fetch failed")
  /\ redis (snd (@searchSongs header_role plain_request
                   (quiet_world unreachable_store)))
     = redis (quiet_world unreachable_store).
Proof.
  exact (proj2 (@rejection_is_caught_by_default_search_only header_role
                  plain_request (quiet_world unreachable_store)
                  (JError "fetch failed")
                  (or_intror (conj eq_refl eq_refl))
                  (or_introl eq_refl))
               "songs" 20 songs_query
               (or_intror (conj eq_refl eq_refl)) eq_refl).
Defined.
